(** * Relume component scraper: a shallow embedding of [scraper.ts]

    The development follows the source file top to bottom: JavaScript
    strings and JSON values, the helpers ([browserCommand], [loadCatalog],
    [saveProgress], [sanitizeFilename], [toPascalCase], [nameToSlug], ...),
    the two phases ([discoverComponents], [downloadComponents]) and [main].

    Effects are explicit.  A program is a function from a [State] (the
    observable trace, the files, the two heap objects the phases mutate) to
    an [Outcome] and a new [State]; everything the program cannot decide
    itself (what the browser tool prints, whether a file operation fails,
    the clock) is read from an [Env], indexed by the trace so far. *)

From Stdlib Require Import ZArith NArith Ascii String.
From stdpp Require Import base option list gmap.

Set Warnings "-register-all".
Local Open Scope N_scope.

(** ** JavaScript strings

    A string is its sequence of UTF-16 code units. *)

Abbreviation jsstring := (list N).

(** Literals of the source that are plain ASCII are written with [js]. *)
Fixpoint js (s : string) : jsstring :=
  match s with
  | EmptyString => []
  | String a s' => N_of_ascii a :: js s'
  end.

Arguments js : simpl never.

(** The double quote, U+0022. *)
Definition dq : jsstring := [34].
Definition quoted (s : jsstring) : jsstring := dq ++ s ++ dq.

Definition in_range (lo hi c : N) : bool := (lo <=? c) && (c <=? hi).

Definition is_upper (c : N) : bool := in_range 65 90 c.   (* [A-Z] *)
Definition is_lower (c : N) : bool := in_range 97 122 c.  (* [a-z] *)
Definition is_digit (c : N) : bool := in_range 48 57 c.   (* [0-9], \d *)
Definition hyphen : N := 45.

(** [\s] of a regular expression, which is also what [trim] strips:
    WhiteSpace and LineTerminator of ECMAScript. *)
Definition is_space (c : N) : bool :=
  in_range 9 13 c || (c =? 32) || (c =? 160) || (c =? 5760)
  || in_range 8192 8202 c || (c =? 8232) || (c =? 8233) || (c =? 8239)
  || (c =? 8287) || (c =? 12288) || (c =? 65279).

(** Case mapping restricted to ASCII; on ASCII strings this is what
    [toUpperCase] and [toLowerCase] compute. *)
Definition upper_ascii (c : N) : N := if is_lower c then c - 32 else c.
Definition lower_ascii (c : N) : N := if is_upper c then c + 32 else c.

(** [s.split('-')] *)
Fixpoint split_on (sep : N) (s : jsstring) : list jsstring :=
  match s with
  | [] => [[]]
  | c :: s' =>
      if c =? sep then [] :: split_on sep s'
      else match split_on sep s' with
           | [] => [[c]]
           | p :: ps => (c :: p) :: ps
           end
  end.

(** [s.replace(/\s+/g, rep)]: every maximal run of white space becomes one
    [rep].  [in_run] tells that the previous code unit was white space. *)
Fixpoint replace_space_runs (rep : jsstring) (in_run : bool) (s : jsstring)
  : jsstring :=
  match s with
  | [] => []
  | c :: s' =>
      if is_space c
      then (if in_run then [] else rep) ++ replace_space_runs rep true s'
      else c :: replace_space_runs rep false s'
  end.

(** [s.includes(t)] *)
Fixpoint starts_with (t s : jsstring) : bool :=
  match t, s with
  | [], _ => true
  | _ :: _, [] => false
  | a :: t', b :: s' => (a =? b) && starts_with t' s'
  end.

Fixpoint includes (s t : jsstring) : bool :=
  starts_with t s ||
  match s with
  | [] => false
  | _ :: s' => includes s' t
  end.

(** [s.trim()] *)
Fixpoint trim_start (s : jsstring) : jsstring :=
  match s with
  | c :: s' => if is_space c then trim_start s' else s
  | [] => []
  end.

Definition trim (s : jsstring) : jsstring :=
  reverse (trim_start (reverse (trim_start s))).

(** [s.replace(/\s*\d+$/, '')]: the match, if any, is the longest suffix
    made of white space followed by at least one digit. *)
Fixpoint drop_while (p : N → bool) (s : jsstring) : jsstring :=
  match s with
  | c :: s' => if p c then drop_while p s' else s
  | [] => []
  end.

Definition strip_trailing_number (s : jsstring) : jsstring :=
  match reverse s with
  | c :: _ =>
      if is_digit c
      then reverse (drop_while is_space (drop_while is_digit (reverse s)))
      else s
  | [] => s
  end.

(** [s.match(/\{.*\}/s)?.[0]]: with the [s] flag the dot crosses lines, so
    the match runs from the first opening brace that has a closing brace
    after it to the last closing brace of the string. *)
Fixpoint upto_last (c : N) (s : jsstring) : option jsstring :=
  match s with
  | [] => None
  | x :: s' =>
      match upto_last c s' with
      | Some r => Some (x :: r)
      | None => if x =? c then Some [x] else None
      end
  end.

Fixpoint match_braces (s : jsstring) : option jsstring :=
  match s with
  | [] => None
  | x :: s' =>
      if x =? 123
      then match upto_last 125 s' with
           | Some r => Some (x :: r)
           | None => None
           end
      else match_braces s'
  end.

(** [s.match(/([A-Z][a-z]+\s*(?:[A-Z][a-z]+)*\s*\d+)/g)].

    No alternative of this expression can succeed after its greedy choice
    has failed (what a shorter repetition leaves behind is a code unit the
    rest of the expression does not accept), so one greedy pass decides the
    match at a position.  [name_groups] skips [(?:[A-Z][a-z]+)*]; its flag
    tells that the scan is inside the lower-case part of a group. *)
Fixpoint name_groups (in_group : bool) (s : jsstring) : jsstring :=
  match s with
  | [] => []
  | c :: s' =>
      if in_group && is_lower c then name_groups true s'
      else if is_upper c && match s' with d :: _ => is_lower d | [] => false end
           then name_groups true s'
           else s
  end.

(** Length of the match that starts at the head of [s], if there is one. *)
Definition match_name_at (s : jsstring) : option nat :=
  match s with
  | c :: d :: s1 =>
      if is_upper c && is_lower d then
        let s2 := drop_while is_space (drop_while is_lower s1) in
        let s3 := drop_while is_space (name_groups false s2) in
        match s3 with
        | e :: s4 =>
            if is_digit e
            then Some (length s - length (drop_while is_digit s4))%nat
            else None
        | [] => None
        end
      else None
  | _ => None
  end.

(** All matches, left to right; [skip] code units belong to the previous
    match. *)
Fixpoint match_all_names (skip : nat) (s : jsstring) : list jsstring :=
  match s with
  | [] => []
  | _ :: s' =>
      match skip with
      | S k => match_all_names k s'
      | O =>
          match match_name_at s with
          | Some n => take n s :: match_all_names (n - 1) s'
          | None => match_all_names 0 s'
          end
      end
  end.

(** ** Values of type [any]

    What [JSON.parse] returns, and [undefined] for a missing property.  A
    number is kept as the two observations the program makes of it: whether
    it is zero (its truth value) and its decimal text (its string
    conversion). *)

Record number := { number_is_zero : bool; number_text : jsstring }.

Inductive value :=
| VUndefined
| VNull
| VBool (b : bool)
| VNum (n : number)
| VStr (s : jsstring)
| VArr (items : list value)
| VObj (fields : list (jsstring * value)).

Fixpoint join (sep : jsstring) (l : list jsstring) : jsstring :=
  match l with
  | [] => []
  | [s] => s
  | s :: l' => s ++ sep ++ join sep l'
  end.

(** [String(v)], as template literals, [+] and [JSON.parse] apply it. *)
Fixpoint ToString (v : value) : jsstring :=
  match v with
  | VUndefined => js "undefined"
  | VNull => js "null"
  | VBool true => js "true"
  | VBool false => js "false"
  | VNum n => number_text n
  | VStr s => s
  | VArr items =>
      join (js ",")
        (List.map (fun x => match x with
                            | VUndefined | VNull => []
                            | _ => ToString x
                            end) items)
  | VObj _ => js "[object Object]"
  end.

(** Truth value, for [!v] and [a || b]. *)
Definition truthy (v : value) : bool :=
  match v with
  | VUndefined | VNull => false
  | VBool b => b
  | VNum n => negb (number_is_zero n)
  | VStr s => negb (bool_decide (s = []))
  | VArr _ | VObj _ => true
  end.

Definition or_else (a b : value) : value := if truthy a then a else b.

Fixpoint assoc (k : jsstring) (fields : list (jsstring * value)) : value :=
  match fields with
  | [] => VUndefined
  | (k', v) :: rest => if bool_decide (k' = k) then v else assoc k rest
  end.

(** ** Errors, events and the environment *)

Inductive FsOp :=
| OpReadFile (path : jsstring)
| OpWriteFile (path data : jsstring)
| OpMkdir (path : jsstring)
| OpCopyFile (src dst : jsstring).

Inductive exn :=
| Error (message : jsstring)        (* [new Error(message)] *)
| TypeError (what : jsstring)       (* property of undefined, not a function, bad argument *)
| SyntaxError (text : jsstring)     (* [JSON.parse] *)
| ExecError (message : jsstring)    (* the child process failed *)
| FsError (op : FsOp).              (* a rejected [fs] call *)

(** ** The data model of the source *)

Record Metadata := {
  reactVersion : option jsstring;
  tailwindVersion : option jsstring;
  lastUpdatedOn : option jsstring      (* [metadata.lastUpdated] *)
}.

Record ComponentInfo := {
  name : jsstring;
  slug : jsstring;
  category : jsstring;
  subcategory : jsstring;
  url : jsstring;
  metadata : option Metadata
}.

Record Catalog := {
  totalComponents : Z;
  discoveredAt : jsstring;
  components : list ComponentInfo
}.

Record Progress := {
  completed : list jsstring;
  failed : list jsstring;
  lastUpdated : jsstring
}.

(** Console output, one constructor per [console.log] or [console.error]
    of the source, with the values it interpolates. *)
Inductive Msg :=
| MsgBrowserCommandFailed (e : exn)
| MsgCatalogSaved (n : nat)
| MsgStartDiscovery
| MsgTarget (maxPages : Z)
| MsgNavigatingTo (target : jsstring)
| MsgExtractingCategories
| MsgCategories (message : value)
| MsgPage (page maxPages : Z)
| MsgFoundData (data : value)
| MsgAdded (n : nat)
| MsgParseFailed (e : exn)
| MsgNextPage
| MsgPageError (page : Z) (e : exn)
| MsgDiscoveryComplete (n : Z)
| MsgStartDownload
| MsgTotal (n : Z)
| MsgAlreadyCompleted (n : nat)
| MsgFailedSoFar (n : nat)
| MsgRemaining (n : nat)
| MsgItem (i n : nat) (nm sl : jsstring)
| MsgNavigating (target : jsstring)
| MsgClickingReact
| MsgExtractingCode
| MsgExtractingMetadata
| MsgGettingPreview
| MsgSaved (path : jsstring)
| MsgWaiting (ms : Z)
| MsgFailed (e : exn)
| MsgDownloadComplete
| MsgCompletedCount (n : nat)
| MsgFailedCount (n : nat)
| MsgNoComponents
| MsgUsage
| MsgAllDone
| MsgFatal (e : exn).

(** What the process does to the outside, in order. *)
Inductive Event :=
| EvExec (command : jsstring)     (* [execAsync(command)] *)
| EvDelay (ms : Z)                (* [setTimeout] *)
| EvFs (op : FsOp)                (* a call into [fs/promises] *)
| EvLog (m : Msg)                 (* [console.log] *)
| EvError (m : Msg)               (* [console.error] *)
| EvExit (code : Z).              (* [process.exit(code)] *)

(** A child process fails, or prints [stdout] after having written
    [written] (the screenshot of the browser tool is such a file). *)
Inductive ExecResult :=
| ExecRejected (message : jsstring)
| ExecStdout (stdout : jsstring) (written : list (jsstring * jsstring)).

(** The outside world: every answer may depend on all that happened
    before.  [env_write_leaves tr path data] is what a rejected
    [fs.writeFile(path, data)] leaves of the file: [None] when the call
    was rejected before the file was opened, and otherwise the part of
    [data] that reached the file after the open, with flag [w], had
    emptied it. *)
Record Env := {
  env_exec : list Event → jsstring → ExecResult;
  env_fs_fails : list Event → FsOp → bool;
  env_write_leaves : list Event → jsstring → jsstring → option jsstring;
  env_now : list Event → jsstring       (* [new Date().toISOString()] *)
}.

(** What the source takes from its platform.  [JSON.parse] answers [None]
    for a [SyntaxError].  The two documents are read at their declared
    types: lines 75 and 95 return [JSON.parse(data)] unchecked, as a
    [Catalog] and as a [Progress], and the two typed readers stand for
    [JSON.parse] on the documents of which that is true.  What the source
    does with a document that is JSON of another shape is outside the
    model; [progress_at_type] below says of a disk that there is no such
    document on it. *)
Record Runtime := {
  toUpperCase : jsstring → jsstring;
  toLowerCase : jsstring → jsstring;
  JSON_parse : jsstring → option value;
  JSON_parse_Catalog : jsstring → option Catalog;
  JSON_parse_Progress : jsstring → option Progress;
  JSON_stringify_Catalog : Catalog → jsstring;
  JSON_stringify_Progress : Progress → jsstring;
  path_join : list jsstring → jsstring;
  parseInt : jsstring → option Z         (* [None] is [NaN] *)
}.

(** ** States and computations *)

Record State := {
  trace : list Event;
  files : gmap (list N) (list N);
  the_progress : Progress;     (* the object bound to [progress] in [downloadComponents] *)
  the_catalog : Catalog        (* the object bound to [catalog] in [discoverComponents] *)
}.

Inductive Outcome (A : Type) :=
| Ok (a : A)
| Throw (e : exn)
| Exit (code : Z).            (* the process is gone: nothing catches this *)
Arguments Ok {A} a.
Arguments Throw {A} e.
Arguments Exit {A} code.

Definition M (A : Type) : Type := State → Outcome A * State.

Definition ret {A} (a : A) : M A := fun st => (Ok a, st).

Definition throw {A} (e : exn) : M A := fun st => (Throw e, st).

Definition bind {A B} (m : M A) (k : A → M B) : M B :=
  fun st =>
    match m st with
    | (Ok a, st') => k a st'
    | (Throw e, st') => (Throw e, st')
    | (Exit c, st') => (Exit c, st')
    end.

(** [try { m } catch (error) { h error }] *)
Definition try_catch {A} (m : M A) (h : exn → M A) : M A :=
  fun st =>
    match m st with
    | (Throw e, st') => h e st'
    | r => r
    end.

(** With these instances the computations below are written in stdpp's
    notation: [x ← m; k] is [bind m (λ x, k)] and [m;; k] discards the
    result of [m]. *)
#[global] Instance M_ret : MRet M := @ret.
#[global] Instance M_bind : MBind M := λ A B k m, bind m k.

Definition when (b : bool) (m : M unit) : M unit := if b then m else ret tt.

Definition add_event (e : Event) (st : State) : State :=
  {| trace := trace st ++ [e]; files := files st;
     the_progress := the_progress st; the_catalog := the_catalog st |}.

Definition set_files (f : gmap (list N) (list N)) (st : State) : State :=
  {| trace := trace st; files := f;
     the_progress := the_progress st; the_catalog := the_catalog st |}.

Definition set_progress (p : Progress) (st : State) : State :=
  {| trace := trace st; files := files st;
     the_progress := p; the_catalog := the_catalog st |}.

Definition set_catalog (c : Catalog) (st : State) : State :=
  {| trace := trace st; files := files st;
     the_progress := the_progress st; the_catalog := c |}.

Definition emit (e : Event) : M unit := fun st => (Ok tt, add_event e st).

Definition console_log (m : Msg) : M unit := emit (EvLog m).
Definition console_error (m : Msg) : M unit := emit (EvError m).

(** [process.exit(code)] *)
Definition process_exit {A} (code : Z) : M A :=
  fun st => (Exit code, add_event (EvExit code) st).

(** Property access [v.k], for the property names the source reads: it
    throws on [undefined] and [null], finds own properties of an object and
    is [undefined] elsewhere. *)
Definition get (v : value) (k : jsstring) : M value :=
  match v with
  | VUndefined | VNull => throw (TypeError k)
  | VObj fields => ret (assoc k fields)
  | _ => ret VUndefined
  end.

(** [v.match(/\{.*\}/s)]: a method of strings only. *)
Definition match_json (v : value) : M (option jsstring) :=
  match v with
  | VStr s => ret (match_braces s)
  | _ => throw (TypeError (js "match"))
  end.

(** ** Constants of the source *)

Definition BASE_URL : jsstring := js "https://www.relume.io".
Definition LISTING_URL : jsstring := BASE_URL ++ js "/react/components".
Definition DELAY_MS : Z := 2000.

Definition CATALOG_FILE : jsstring := js "./catalog.json".
Definition PROGRESS_FILE : jsstring := js "./progress.json".
Definition COMPONENTS_DIR : jsstring := js "./components".

(** The character class [[a-z0-9-]]. *)
Definition class_a_z_0_9_hyphen : list N :=
  (N.of_nat <$> seq 97 26) ++ (N.of_nat <$> seq 48 10) ++ [hyphen].

Section Scraper.

Variable rt : Runtime.
Variable env : Env.

(** *** Primitive effects *)

Definition execAsync (command : jsstring) : M jsstring :=
  fun st =>
    let st1 := add_event (EvExec command) st in
    match env_exec env (trace st) command with
    | ExecRejected m => (Throw (ExecError m), st1)
    | ExecStdout out written =>
        (Ok out,
         set_files (foldl (fun f pd => <[pd.1 := pd.2]> f) (files st1) written) st1)
    end.

(** A call into [fs/promises]: it is recorded, and the environment says
    whether it is rejected. *)
Definition fs_call (op : FsOp) : M unit :=
  fun st =>
    let st1 := add_event (EvFs op) st in
    if env_fs_fails env (trace st) op then (Throw (FsError op), st1)
    else (Ok tt, st1).

(** The files as the process sees them. *)
Definition contents (path : jsstring) (op : FsOp) : M jsstring :=
  fun st =>
    match files st !! path with
    | Some data => (Ok data, st)
    | None => (Throw (FsError op), st)        (* ENOENT *)
    end.

Definition store (path data : jsstring) : M unit :=
  fun st => (Ok tt, set_files (<[path := data]> (files st)) st).

Definition readFile (path : jsstring) : M jsstring :=
  fs_call (OpReadFile path);;
  contents path (OpReadFile path).

(** The file after a rejected [fs.writeFile(path, data)]; [tr] is the
    trace at the call. *)
Definition rejected_write (path data : jsstring) (tr : list Event) (st : State)
  : State :=
  set_files
    match env_write_leaves env tr path data with
    | Some part => <[path := part]> (files st)
    | None => files st
    end
    st.

(** [fs.writeFile(path, data)]: the file is opened with flag [w] and the
    data written; a call that is rejected may have emptied the file or
    written a part of the data before. *)
Definition writeFile (path data : jsstring) : M unit :=
  fun st =>
    match fs_call (OpWriteFile path data) st with
    | (Ok _, st1) => store path data st1
    | (r, st1) => (r, rejected_write path data (trace st) st1)
    end.

Definition mkdir (path : jsstring) : M unit := fs_call (OpMkdir path).

(** [fs.copyFile(src, dst)]; [src] is whatever the screenshot answer held. *)
Definition copyFile (src : value) (dst : jsstring) : M unit :=
  match src with
  | VStr s =>
      fs_call (OpCopyFile s dst);;
      data ← contents s (OpCopyFile s dst);
      store dst data
  | _ => throw (TypeError (js "src"))
  end.

Definition now : M jsstring := fun st => (Ok (env_now env (trace st)), st).

Definition parse (text : jsstring) : M value :=
  match JSON_parse rt text with
  | Some v => ret v
  | None => throw (SyntaxError text)
  end.

(** The message of [new Error(v)]. *)
Definition error_message (v : value) : jsstring :=
  match v with
  | VUndefined => []
  | _ => ToString v
  end.

(** *** Helpers of the source *)

Definition browserCommand (command : jsstring) : M value :=
  try_catch
    (stdout ← execAsync command;
     result ← parse stdout;
     success ← get result (js "success");
     if negb (truthy success) then
       e ← get result (js "error");
       m ← get result (js "message");
       throw (Error (error_message (or_else e m)))
     else ret result)
    (fun error =>
       console_error (MsgBrowserCommandFailed error);;
       throw error).

Definition delay (ms : Z) : M unit := emit (EvDelay ms).

Definition loadCatalog : M Catalog :=
  try_catch
    (data ← readFile CATALOG_FILE;
     match JSON_parse_Catalog rt data with
     | Some c => ret c
     | None => throw (SyntaxError data)
     end)
    (fun _ =>
       t ← now;
       ret {| totalComponents := 0; discoveredAt := t; components := [] |}).

Definition saveCatalog (catalog : Catalog) : M unit :=
  writeFile CATALOG_FILE (JSON_stringify_Catalog rt catalog);;
  console_log (MsgCatalogSaved (length (components catalog))).

Definition loadProgress : M Progress :=
  try_catch
    (data ← readFile PROGRESS_FILE;
     match JSON_parse_Progress rt data with
     | Some p => ret p
     | None => throw (SyntaxError data)
     end)
    (fun _ =>
       t ← now;
       ret {| completed := []; failed := []; lastUpdated := t |}).

Definition get_progress : M Progress := fun st => (Ok (the_progress st), st).

Definition modify_progress (f : Progress → Progress) : M unit :=
  fun st => (Ok tt, set_progress (f (the_progress st)) st).

Definition stamp (t : jsstring) (p : Progress) : Progress :=
  {| completed := completed p; failed := failed p; lastUpdated := t |}.

(** [saveProgress(progress)]; the argument is always the one progress
    object of the run. *)
Definition saveProgress : M unit :=
  t ← now;
  modify_progress (stamp t);;
  p ← get_progress;
  writeFile PROGRESS_FILE (JSON_stringify_Progress rt p).

Definition ensureDir (dirPath : jsstring) : M unit := mkdir dirPath.

(** [Canonicalize] of ECMAScript for an expression with the [i] flag and
    without the [u] flag. *)
Definition canonicalize (ch : N) : N :=
  match toUpperCase rt [ch] with
  | [cu] => if (128 <=? ch) && (cu <? 128) then ch else cu
  | _ => ch
  end.

(** A class matches a code unit, ignoring case, when one of its members
    has the same canonical form. *)
Definition class_matches_i (members : list N) (ch : N) : bool :=
  existsb (fun a => canonicalize a =? canonicalize ch) members.

(** [name.replace(/[^a-z0-9-]/gi, '')]: what the negated class matches is
    deleted, what the class matches stays. *)
Definition sanitizeFilename (nm : jsstring) : jsstring :=
  List.filter (class_matches_i class_a_z_0_9_hyphen) nm.

(** [part => part.charAt(0).toUpperCase() + part.slice(1)] *)
Definition capitalize (part : jsstring) : jsstring :=
  toUpperCase rt (take 1 part) ++ drop 1 part.

Definition toPascalCase (sl : jsstring) : jsstring :=
  concat (capitalize <$> split_on hyphen sl).

Definition nameToSlug (nm : jsstring) : jsstring :=
  replace_space_runs (js "-") false (toLowerCase rt nm).

(** *** Commands sent to the browser tool *)

Definition schema (keys : list jsstring) : jsstring :=
  js "'{"
  ++ join (js ", ") ((fun k => quoted k ++ js ": " ++ quoted (js "string")) <$> keys)
  ++ js "}'".

Definition extract_command (instruction : jsstring) (keys : list jsstring)
  : jsstring :=
  js "browser extract " ++ quoted instruction ++ js " " ++ schema keys.

Definition navigate_command (target : jsstring) : jsstring :=
  js "browser navigate " ++ quoted target.

Definition act_command (instruction : jsstring) : jsstring :=
  js "browser act " ++ quoted instruction.

Definition close_command : jsstring := js "browser close".

(** *** Loops *)

Fixpoint for_each {A} (f : A → M unit) (l : list A) : M unit :=
  match l with
  | [] => ret tt
  | x :: l' => f x;; for_each f l'
  end.

(** [l.map(f)] for a callback that may throw. *)
Fixpoint map_M {A B} (f : A → M B) (l : list A) : M (list B) :=
  match l with
  | [] => ret []
  | x :: l' => y ← f x; ys ← map_M f l'; ret (y :: ys)
  end.

(** *** Phase 1: discovery *)

Definition get_catalog : M Catalog := fun st => (Ok (the_catalog st), st).

Definition modify_catalog (f : Catalog → Catalog) : M unit :=
  fun st => (Ok tt, set_catalog (f (the_catalog st)) st).

(** [catalog.components.push(c)] *)
Definition push_component (c : ComponentInfo) (catalog : Catalog) : Catalog :=
  {| totalComponents := totalComponents catalog;
     discoveredAt := discoveredAt catalog;
     components := components catalog ++ [c] |}.

(** [catalog.totalComponents = catalog.components.length] *)
Definition recount (catalog : Catalog) : Catalog :=
  {| totalComponents := Z.of_nat (length (components catalog));
     discoveredAt := discoveredAt catalog;
     components := components catalog |}.

(** Category and subcategory from the name (lines 204-220). *)
Definition classify (nm : jsstring) : jsstring * jsstring :=
  let sub := trim (strip_trailing_number nm) in
  if includes sub (js "Application Shell")
  then (js "Application UI", js "Application Shells")
  else if includes sub (js "Navbar") then (js "Marketing", js "Navbars")
  else if includes sub (js "Blog") then (js "Marketing", js "Blogs")
  else if includes sub (js "Banner") then (js "Marketing", js "Banners")
  else (js "Unknown", sub).

(** The body of [for (const name of componentNames)] (lines 199-229); a
    name that is not a string has no [toLowerCase]. *)
Definition add_component (nm : value) : M unit :=
  match nm with
  | VStr n =>
      let sl := nameToSlug n in
      let target := BASE_URL ++ js "/react-components/" ++ sl in
      modify_catalog
        (push_component
           {| name := n; slug := sl;
              category := (classify n).1; subcategory := (classify n).2;
              url := target; metadata := None |})
  | _ => throw (TypeError (js "toLowerCase"))
  end.

(** Lines 184-196: the names as a JSON array, else by pattern. *)
Definition parse_names (componentsText : value) : M (list value) :=
  try_catch
    (parsed ← parse (ToString componentsText);
     match parsed with
     | VArr items =>
         map_M (fun item => n ← get item (js "name"); ret (or_else n item)) items
     | _ => ret []
     end)
    (fun _ =>
       match componentsText with
       | VStr text => ret (VStr <$> match_all_names 0 text)
       | _ => throw (TypeError (js "match"))
       end).

(** [message?.substring(0, 200)] *)
Definition optional_substring (v : value) : M value :=
  match v with
  | VUndefined | VNull => ret VUndefined
  | VStr text => ret (VStr (take 200 text))
  | _ => throw (TypeError (js "substring"))
  end.

(** One turn of the page loop (lines 162-247). *)
Definition discover_page (page maxPages : Z) : M unit :=
  console_log (MsgPage page maxPages);;
  try_catch
    (extractResult ← browserCommand
       (extract_command
          (js "get all component names from the component cards visible on this page")
          [js "components"]);
     message ← get extractResult (js "message");
     shown ← optional_substring message;
     console_log (MsgFoundData shown);;
     try_catch
       (message ← get extractResult (js "message");
        jsonMatch ← match_json message;
        match jsonMatch with
        | None => throw (Error (js "No JSON found in extraction result"))
        | Some text =>
            extractedData ← parse text;
            componentsText ← get extractedData (js "components");
            componentNames ← parse_names componentsText;
            for_each add_component componentNames;;
            console_log (MsgAdded (length componentNames))
        end)
       (fun parseError => console_error (MsgParseFailed parseError));;
     when (page <? maxPages)%Z
       (console_log MsgNextPage;;
        browserCommand (act_command (js "click the next page button"));;
        delay DELAY_MS))
    (fun error => console_error (MsgPageError page error)).

(** [for (let page = 1; page <= maxPages; page++)]: [turns] is the number
    of turns left. *)
Fixpoint discover_pages (turns : nat) (page maxPages : Z) : M unit :=
  match turns with
  | O => ret tt
  | S k => discover_page page maxPages;; discover_pages k (page + 1)%Z maxPages
  end.

Definition discoverComponents (maxPages : Z) : M Catalog :=
  console_log MsgStartDiscovery;;
  console_log (MsgTarget maxPages);;
  t ← now;
  modify_catalog
    (fun _ => {| totalComponents := 0; discoveredAt := t; components := [] |});;
  console_log (MsgNavigatingTo LISTING_URL);;
  browserCommand (navigate_command LISTING_URL);;
  delay 3000;;
  console_log MsgExtractingCategories;;
  categoriesResult ← browserCommand
    (extract_command
       (js "get all category names and subcategory names from the left sidebar navigation")
       [js "categories"]);
  message ← get categoriesResult (js "message");
  console_log (MsgCategories message);;
  discover_pages (Z.to_nat maxPages) 1 maxPages;;
  modify_catalog recount;;
  catalog ← get_catalog;
  saveCatalog catalog;;
  console_log (MsgDiscoveryComplete (totalComponents catalog));;
  ret catalog.

(** *** Phase 2: download *)

(** [progress.completed.push(s)] and [progress.failed.push(s)] *)
Definition push_completed (s : jsstring) (p : Progress) : Progress :=
  {| completed := completed p ++ [s]; failed := failed p;
     lastUpdated := lastUpdated p |}.

Definition push_failed (s : jsstring) (p : Progress) : Progress :=
  {| completed := completed p; failed := failed p ++ [s];
     lastUpdated := lastUpdated p |}.

(** Lines 266-268: the work set. *)
Definition remaining_of (catalog : Catalog) (progress : Progress)
  : list ComponentInfo :=
  filter (λ c, (slug c ∉ completed progress) ∧ (slug c ∉ failed progress))
         (components catalog).

Definition componentUrl (c : ComponentInfo) : jsstring :=
  BASE_URL ++ js "/react-components/" ++ slug c.

(** What the browser gave for one component. *)
Record Retrieved := {
  code : value;
  details : value;            (* [metadata] of line 306 *)
  screenshotPath : value
}.

(** Lines 279-315: everything asked of the browser. *)
Definition retrieve (c : ComponentInfo) : M Retrieved :=
  console_log (MsgNavigating (componentUrl c));;
  browserCommand (navigate_command (componentUrl c));;
  delay 2000;;
  console_log MsgClickingReact;;
  browserCommand (act_command (js "click the React tab"));;
  delay 3000;;
  console_log MsgExtractingCode;;
  codeResult ← browserCommand
    (extract_command
       (js "get the text content from the code block element - the complete source code shown in the pre or code element")
       [js "code"]);
  codeMessage ← get codeResult (js "message");
  codeMatch ← match_json codeMessage;
  match codeMatch with
  | None => throw (Error (js "No code JSON found"))
  | Some codeText =>
      codeData ← parse codeText;
      theCode ← get codeData (js "code");
      console_log MsgExtractingMetadata;;
      metadataResult ← browserCommand
        (extract_command
           (js "get category, last updated date, react version, and tailwind version from the Details panel")
           [js "category"; js "lastUpdated"; js "reactVersion"; js "tailwindVersion"]);
      metadataMessage ← get metadataResult (js "message");
      metadataMatch ← match_json metadataMessage;
      match metadataMatch with
      | None => throw (Error (js "No metadata JSON found"))
      | Some metadataText =>
          theMetadata ← parse metadataText;
          console_log MsgGettingPreview;;
          browserCommand (act_command (js "click the Image tab"));;
          delay 1000;;
          screenshotResult ← browserCommand (js "browser screenshot");
          shot ← get screenshotResult (js "screenshot");
          ret {| code := theCode; details := theMetadata; screenshotPath := shot |}
      end
  end.

Definition categoryDir (c : ComponentInfo) : jsstring :=
  path_join rt
    [COMPONENTS_DIR;
     sanitizeFilename (toLowerCase rt (category c));
     sanitizeFilename (toLowerCase rt (subcategory c))].

Definition componentName (c : ComponentInfo) : jsstring := toPascalCase (slug c).

Definition componentPath (c : ComponentInfo) : jsstring :=
  path_join rt [categoryDir c; componentName c ++ js ".tsx"].

Definition imagePath (c : ComponentInfo) : jsstring :=
  path_join rt [categoryDir c; componentName c ++ js ".png"].

Definition newline : jsstring := [10].

(** The template literal of lines 328-338. *)
Definition metadataHeader (c : ComponentInfo) (meta : value) : M jsstring :=
  cat ← get meta (js "category");
  react ← get meta (js "reactVersion");
  tailwind ← get meta (js "tailwindVersion");
  updated ← get meta (js "lastUpdated");
  ret (js "/**" ++ newline
       ++ js " * " ++ name c ++ newline
       ++ js " * @source " ++ componentUrl c ++ newline
       ++ js " * @category " ++ ToString (or_else cat (VStr (category c))) ++ newline
       ++ js " * @subcategory " ++ subcategory c ++ newline
       ++ js " * @react " ++ ToString (or_else react (VStr (js "Unknown"))) ++ newline
       ++ js " * @tailwind " ++ ToString (or_else tailwind (VStr (js "Unknown"))) ++ newline
       ++ js " * @updated " ++ ToString (or_else updated (VStr (js "Unknown"))) ++ newline
       ++ js " */" ++ newline ++ newline).

(** Lines 317-340: the directory and the source file. *)
Definition write_source (c : ComponentInfo) (r : Retrieved) : M unit :=
  ensureDir (categoryDir c);;
  header ← metadataHeader c (details r);
  writeFile (componentPath c) (header ++ ToString (code r));;
  console_log (MsgSaved (componentPath c)).

(** Lines 342-345: the preview image. *)
Definition copy_screenshot (c : ComponentInfo) (r : Retrieved) : M unit :=
  copyFile (screenshotPath r) (imagePath c);;
  console_log (MsgSaved (imagePath c)).

(** Lines 279-345, the steps of one component before progress is
    touched. *)
Definition fetch_and_store (c : ComponentInfo) : M unit :=
  r ← retrieve c;
  write_source c r;;
  copy_screenshot c r.

(** One turn of the download loop (lines 275-361); [n] is
    [remaining.length]. *)
Definition download_item (n i : nat) (c : ComponentInfo) : M unit :=
  console_log (MsgItem (i + 1) n (name c) (slug c));;
  try_catch
    (fetch_and_store c;;
     modify_progress (push_completed (slug c));;
     saveProgress;;
     when (Z.of_nat i <? Z.of_nat n - 1)%Z
       (console_log (MsgWaiting DELAY_MS);;
        delay DELAY_MS))
    (fun error =>
       console_error (MsgFailed error);;
       modify_progress (push_failed (slug c));;
       saveProgress).

(** [for (let i = 0; i < remaining.length; i++)], from index [i] on;
    [items] is [remaining.slice(i)]. *)
Fixpoint download_loop (n i : nat) (items : list ComponentInfo) : M unit :=
  match items with
  | [] => ret tt
  | c :: rest => download_item n i c;; download_loop n (S i) rest
  end.

(** Lines 262-272: progress is loaded and the work set computed, once. *)
Definition download_prologue (catalog : Catalog) : M (list ComponentInfo) :=
  console_log MsgStartDownload;;
  console_log (MsgTotal (totalComponents catalog));;
  progress ← loadProgress;
  modify_progress (fun _ => progress);;
  let remaining := remaining_of catalog progress in
  console_log (MsgAlreadyCompleted (length (completed progress)));;
  console_log (MsgFailedSoFar (length (failed progress)));;
  console_log (MsgRemaining (length remaining));;
  ret remaining.

(** Lines 364-366. *)
Definition download_epilogue : M unit :=
  console_log MsgDownloadComplete;;
  final ← get_progress;
  console_log (MsgCompletedCount (length (completed final)));;
  console_log (MsgFailedCount (length (failed final))).

Definition downloadComponents (catalog : Catalog) : M unit :=
  remaining ← download_prologue catalog;
  download_loop (length remaining) 0 remaining;;
  download_epilogue.

(** *** The entry point *)

(** [parseInt(args[1]) || 32] *)
Definition maxPages_of (args : list jsstring) : Z :=
  match args !! 1%nat with
  | Some a =>
      match parseInt rt a with
      | Some n => if (n =? 0)%Z then 32%Z else n
      | None => 32%Z
      end
  | None => 32%Z
  end.

(** The [switch] of lines 377-412. *)
Definition dispatch (args : list jsstring) : M unit :=
  match args !! 0%nat with
  | Some command =>
      if bool_decide (command = js "discover") then
        discoverComponents (maxPages_of args);; ret tt
      else if bool_decide (command = js "download") then
        catalog ← loadCatalog;
        (if bool_decide (length (components catalog) = 0%nat)
         then (console_error MsgNoComponents;; process_exit 1)
         else ret tt);;
        downloadComponents catalog
      else if bool_decide (command = js "all") then
        discoveredCatalog ← discoverComponents 32;
        downloadComponents discoveredCatalog
      else (console_log MsgUsage;; process_exit 1)
  | None => (console_log MsgUsage;; process_exit 1)
  end.

(** [args] is [process.argv.slice(2)]. *)
Definition main (args : list jsstring) : M unit :=
  try_catch
    (dispatch args;;
     browserCommand close_command;;
     console_log MsgAllDone)
    (fun error =>
       console_error (MsgFatal error);;
       try_catch (browserCommand close_command;; ret tt) (fun _ => ret tt);;
       process_exit 1).

End Scraper.

(** ** Names made of capitalized words and a trailing number

    A capitalized word is an upper-case letter followed by lower-case
    letters.  [parts] pairs every word with the white space after it,
    and the number follows the last part.  In a well-formed name there is
    white space after every word; in a loosely formed one there need not
    be any, as in ["Navbar1"] or ["HeroHeader 12"]. *)

Definition is_capitalized (w : jsstring) : bool :=
  match w with
  | c :: r => is_upper c && forallb is_lower r
  | [] => false
  end.

Definition is_gap (g : jsstring) : bool :=
  match g with
  | c :: r => is_space c && forallb is_space r
  | [] => false
  end.

Definition is_number (d : jsstring) : bool :=
  match d with
  | c :: r => is_digit c && forallb is_digit r
  | [] => false
  end.

Fixpoint assemble (parts : list (jsstring * jsstring)) (num : jsstring)
  : jsstring :=
  match parts with
  | [] => num
  | (w, g) :: rest => w ++ g ++ assemble rest num
  end.

Definition well_formed_parts (parts : list (jsstring * jsstring)) : bool :=
  forallb (fun wg => is_capitalized wg.1 && is_gap wg.2) parts.

Definition loosely_formed (parts : list (jsstring * jsstring)) : bool :=
  forallb (fun wg => is_capitalized wg.1 && forallb is_space wg.2) parts.

(** A name the two helpers treat letter by letter: its code units are
    ASCII or white space, and none is the hyphen. *)
Definition plain_name (nm : jsstring) : Prop :=
  Forall (λ c, (c < 128 ∨ is_space c = true) ∧ c ≠ hyphen) nm.

(** The casing-normalized form of a string. *)
Definition casefold (s : jsstring) : jsstring := List.map lower_ascii s.

(** A name whose casing is initial capitals only: taking as words the
    maximal runs without white space, no word begins with a lower-case
    letter and no word holds an upper-case letter after its first code
    unit.  [at_start] tells that the next code unit begins a word. *)
Fixpoint initial_capitals (at_start : bool) (nm : jsstring) : bool :=
  match nm with
  | [] => true
  | c :: nm' =>
      if is_space c then initial_capitals true nm'
      else (if at_start then negb (is_lower c) else negb (is_upper c))
           && initial_capitals false nm'
  end.

(** The same scan, writing out what it reads: white space is dropped,
    the first code unit of a word is made upper case and every other one
    lower case. *)
Fixpoint pascal_scan (at_start : bool) (nm : jsstring) : jsstring :=
  match nm with
  | [] => []
  | c :: nm' =>
      if is_space c then pascal_scan true nm'
      else (if at_start then upper_ascii (lower_ascii c) else lower_ascii c)
           :: pascal_scan false nm'
  end.

(** [name.replace(/\s+/g, "")] *)
Definition remove_spaces (nm : jsstring) : jsstring :=
  replace_space_runs [] false nm.

(** The code units of the pattern [^[A-Za-z0-9-]*$]. *)
Definition is_path_safe (c : N) : bool :=
  is_upper c || is_lower c || is_digit c || (c =? hyphen).

Definition no_space (w : jsstring) : Prop := Forall (λ c, is_space c = false) w.
Definition all_space (g : jsstring) : Prop := Forall (λ c, is_space c = true) g.

(** ** Looking at a run

    [item_results] follows [download_loop] and notes, for every entry,
    whether its steps before the progress update succeeded in the state in
    which they ran. *)

Definition is_ok {A} (r : Outcome A) : bool :=
  match r with
  | Ok _ => true
  | _ => false
  end.

Definition item_start (n i : nat) (c : ComponentInfo) (st : State) : State :=
  add_event (EvLog (MsgItem (i + 1) n (name c) (slug c))) st.

Fixpoint item_results (rt : Runtime) (env : Env) (n i : nat)
  (items : list ComponentInfo) (st : State) : list (ComponentInfo * bool) :=
  match items with
  | [] => []
  | c :: rest =>
      (c, is_ok (fetch_and_store rt env c (item_start n i c st)).1)
      :: item_results rt env n (S i) rest (download_item rt env n i c st).2
  end.

Definition succeeded_slugs (results : list (ComponentInfo * bool)) : list jsstring :=
  (λ r, slug r.1) <$> filter (λ r, r.2 = true) results.

Definition failed_slugs (results : list (ComponentInfo * bool)) : list jsstring :=
  (λ r, slug r.1) <$> filter (λ r, r.2 = false) results.

(** A computation that leaves the progress object alone and does not end
    the process. *)
Definition quiet {A} (m : M A) : Prop :=
  ∀ st, the_progress (m st).2 = the_progress st ∧ ∀ code, (m st).1 ≠ Exit code.

(** A computation that changes nothing and does not end the process. *)
Definition stateless {A} (m : M A) : Prop :=
  ∀ st, (m st).2 = st ∧ ∀ code, (m st).1 ≠ Exit code.



Definition is_close (e : Event) : bool :=
  match e with
  | EvExec command => bool_decide (command = close_command)
  | _ => false
  end.

(** The announcement of the rate-limit delay (line 353); the delay itself
    follows it. *)
Definition is_rate_limit_wait (e : Event) : bool :=
  match e with
  | EvLog (MsgWaiting _) => true
  | _ => false
  end.

(** The commands the [switch] of [main] knows. *)
Definition known_command (args : list jsstring) : Prop :=
  ∃ command, args !! 0%nat = Some command
             ∧ (command = js "discover" ∨ command = js "download"
                ∨ command = js "all").

(** Writing [progress.json] is never rejected. *)
Definition progress_writable (env : Env) : Prop :=
  ∀ tr data, env_fs_fails env tr (OpWriteFile PROGRESS_FILE data) = false.

(** [progress.json] holds the progress object. *)
Definition persisted (rt : Runtime) (st : State) : Prop :=
  files st !! PROGRESS_FILE = Some (JSON_stringify_Progress rt (the_progress st)).

(** A progress record as a JSON value: what [JSON.parse] makes of a
    document that [saveProgress] wrote. *)
Definition progress_value (p : Progress) : value :=
  VObj [(js "completed", VArr (VStr <$> completed p));
        (js "failed", VArr (VStr <$> failed p));
        (js "lastUpdated", VStr (lastUpdated p))].

(** [progress.json] is at its declared type.  Line 95 returns
    [JSON.parse(data)] unchecked, as a [Progress]; the model follows the
    source for the documents of which that is true: a document, if there
    is one, that is not JSON, or that is the JSON text of a progress
    record, which the typed reader then answers.  On any other document
    (an object without [completed], a [failed] that is no array, ...) the
    source goes on with a value that is no [Progress], and the model does
    not say what it does. *)
Definition progress_at_type (rt : Runtime) (st : State) : Prop :=
  ∀ data, files st !! PROGRESS_FILE = Some data →
    match JSON_parse rt data with
    | Some v => ∃ p, v = progress_value p ∧ JSON_parse_Progress rt data = Some p
    | None => JSON_parse_Progress rt data = None
    end.

(** ** A concrete platform and concrete worlds

    Used to run the model: an ASCII platform, and worlds in which the
    browser tool answers as in the end-to-end scenario of the
    specification. *)

Module Demo.

(** JSON texts. *)
Definition json_string (s : jsstring) : jsstring :=
  quoted (flat_map (fun c => if c =? 34 then [92; 34] else [c]) s).

Definition json_object (fields : list (jsstring * jsstring)) : jsstring :=
  js "{" ++ join (js ",") ((fun kv => quoted kv.1 ++ js ":" ++ kv.2) <$> fields)
  ++ js "}".

Definition json_array (items : list jsstring) : jsstring :=
  js "[" ++ join (js ",") items ++ js "]".

Definition the_code : jsstring := js "export default function Navbar1(){}".
Definition shot_file : jsstring := js "/tmp/screenshot.png".

Definition code_json : jsstring :=
  json_object [(js "code", json_string the_code)].
Definition meta_json : jsstring :=
  json_object [(js "reactVersion", json_string (js "18"));
               (js "tailwindVersion", json_string (js "3"));
               (js "lastUpdated", json_string (js "2024-01-01"))].

Definition extracted (payload : jsstring) : jsstring :=
  js "Successfully extracted data: " ++ payload.

Definition ok_out : jsstring := json_object [(js "success", js "true")].
Definition code_out : jsstring :=
  json_object [(js "success", js "true");
               (js "message", json_string (extracted code_json))].
Definition meta_out : jsstring :=
  json_object [(js "success", js "true");
               (js "message", json_string (extracted meta_json))].
Definition shot_out : jsstring :=
  json_object [(js "success", js "true");
               (js "screenshot", json_string shot_file)].
(** A screenshot answer that names no file. *)
Definition blind_out : jsstring := ok_out.

(** [JSON.parse] on the texts above; every other text of the examples is
    not JSON. *)
Definition parse_text (text : jsstring) : option value :=
  if bool_decide (text = ok_out) then
    Some (VObj [(js "success", VBool true)])
  else if bool_decide (text = code_out) then
    Some (VObj [(js "success", VBool true);
                (js "message", VStr (extracted code_json))])
  else if bool_decide (text = meta_out) then
    Some (VObj [(js "success", VBool true);
                (js "message", VStr (extracted meta_json))])
  else if bool_decide (text = shot_out) then
    Some (VObj [(js "success", VBool true); (js "screenshot", VStr shot_file)])
  else if bool_decide (text = code_json) then
    Some (VObj [(js "code", VStr the_code)])
  else if bool_decide (text = meta_json) then
    Some (VObj [(js "reactVersion", VStr (js "18"));
                (js "tailwindVersion", VStr (js "3"));
                (js "lastUpdated", VStr (js "2024-01-01"))])
  else None.

(** [JSON.stringify] of a progress record (the strings of the examples
    need no escaping; the layout of the indentation is left out). *)
Definition stringify_progress (p : Progress) : jsstring :=
  json_object [(js "completed", json_array (json_string <$> completed p));
               (js "failed", json_array (json_string <$> failed p));
               (js "lastUpdated", json_string (lastUpdated p))].

Definition stringify_component (c : ComponentInfo) : jsstring :=
  json_object [(js "name", json_string (name c));
               (js "slug", json_string (slug c));
               (js "category", json_string (category c));
               (js "subcategory", json_string (subcategory c));
               (js "url", json_string (url c))].

Definition stringify_catalog (c : Catalog) : jsstring :=
  json_object [(js "totalComponents", js "0");
               (js "discoveredAt", json_string (discoveredAt c));
               (js "components",
                json_array (stringify_component <$> components c))].

(** [path.join] for segments without dots and slashes of their own: empty
    segments vanish, and the leading [./] is normalised away. *)
Definition join_path (segments : list jsstring) : jsstring :=
  let joined := join (js "/") (List.filter (fun s => negb (bool_decide (s = []))) segments) in
  if starts_with (js "./") joined then drop 2 joined else joined.

(** [parseInt] on a string of decimal digits. *)
Definition parse_int (s : jsstring) : option Z :=
  match s with
  | [] => None
  | _ =>
      if forallb is_digit s
      then Some (foldl (fun acc c => acc * 10 + Z.of_N (c - 48))%Z 0%Z s)
      else None
  end.

(** The platform of the examples.  Their disks hold no well-formed
    catalog or progress document, so the two typed readers always answer
    [None]. *)
Definition rt : Runtime := {|
  toUpperCase := List.map upper_ascii;
  toLowerCase := List.map lower_ascii;
  JSON_parse := parse_text;
  JSON_parse_Catalog := fun _ => None;
  JSON_parse_Progress := fun _ => None;
  JSON_stringify_Catalog := stringify_catalog;
  JSON_stringify_Progress := stringify_progress;
  path_join := join_path;
  parseInt := parse_int
|}.

(** How a world misbehaves. *)
Record Faults := {
  unreachable : list jsstring;    (* slugs whose page does not load *)
  no_screenshot_file : bool;      (* the screenshot answer names no file *)
  copy_rejected : bool;           (* [fs.copyFile] fails *)
  progress_unwritable : bool;     (* writing [progress.json] fails *)
  browser_down : bool             (* every browser command fails *)
}.

Definition world (f : Faults) : Env := {|
  env_exec := fun _ command =>
    if browser_down f then ExecRejected (js "spawn browser ENOENT")
    else if bool_decide
              (Exists (fun sl => command
                                 = navigate_command (BASE_URL ++ js "/react-components/" ++ sl))
                      (unreachable f))
    then ExecRejected (js "net::ERR_CONNECTION_RESET")
    else if includes command (js "code block") then ExecStdout code_out []
    else if includes command (js "Details panel") then ExecStdout meta_out []
    else if bool_decide (command = js "browser screenshot") then
      if no_screenshot_file f then ExecStdout blind_out []
      else ExecStdout shot_out [(shot_file, js "PNG")]
    else ExecStdout ok_out [];
  env_fs_fails := fun _ op =>
    match op with
    | OpCopyFile _ _ => copy_rejected f
    | OpWriteFile path _ =>
        progress_unwritable f && bool_decide (path = PROGRESS_FILE)
    | _ => false
    end;
  env_write_leaves := fun _ _ _ => None;
  env_now := fun tr => js "2024-01-01T00:00:00.000Z"
|}.

Definition no_faults : Faults := {|
  unreachable := []; no_screenshot_file := false; copy_rejected := false;
  progress_unwritable := false; browser_down := false |}.

(** The page of the second component does not load. *)
Definition second_unreachable : Faults := {|
  unreachable := [js "navbar-2"]; no_screenshot_file := false;
  copy_rejected := false; progress_unwritable := false; browser_down := false |}.

(** The page of the first component does not load, and [progress.json]
    cannot be written (a full or read-only disk). *)
Definition first_unreachable_disk_full : Faults := {|
  unreachable := [js "navbar-1"]; no_screenshot_file := false;
  copy_rejected := false; progress_unwritable := true; browser_down := false |}.

(** The page of the first component does not load. *)
Definition first_unreachable : Faults := {|
  unreachable := [js "navbar-1"]; no_screenshot_file := false;
  copy_rejected := false; progress_unwritable := false; browser_down := false |}.

(** The browser tool cannot be started. *)
Definition browser_is_down : Faults := {|
  unreachable := []; no_screenshot_file := false;
  copy_rejected := false; progress_unwritable := false; browser_down := true |}.

(** The screenshot answer of the browser tool names no file. *)
Definition screenshot_missing : Faults := {|
  unreachable := []; no_screenshot_file := true;
  copy_rejected := false; progress_unwritable := false; browser_down := false |}.

Definition item (n : jsstring) : ComponentInfo := {|
  name := js "Navbar " ++ n;
  slug := js "navbar-" ++ n;
  category := js "Marketing";
  subcategory := js "Navbars";
  url := BASE_URL ++ js "/react-components/navbar-" ++ n;
  metadata := None
|}.

Definition catalog_of (items : list ComponentInfo) : Catalog := {|
  totalComponents := Z.of_nat (length items);
  discoveredAt := js "2023-12-31T00:00:00.000Z";
  components := items
|}.

Definition empty_progress : Progress :=
  {| completed := []; failed := []; lastUpdated := [] |}.

(** A process that has done nothing yet, on an empty disk. *)
Definition start : State := {|
  trace := []; files := ∅;
  the_progress := empty_progress;
  the_catalog := catalog_of []
|}.

(** The same process on a disk whose two documents are damaged. *)
Definition damaged : State := {|
  trace := [];
  files := {[ CATALOG_FILE := js "{ totalComponents: "; PROGRESS_FILE := js "" ]};
  the_progress := empty_progress;
  the_catalog := catalog_of []
|}.

End Demo.

(** ** More of the source *)

(** The embedded object of an extraction message: text before it without
    an opening brace, text after it without a closing brace. *)
Definition embedded (before body after : jsstring) : jsstring :=
  before ++ [123] ++ body ++ [125] ++ after.

(** A name as [classify] reads it: a stem that does not end in white
    space or in a digit, then white space, then the digits of its
    number. *)
Definition stem_ok (w : jsstring) : Prop :=
  match last w with
  | Some c => is_space c = false ∧ is_digit c = false
  | None => True
  end.

Definition numbered (w g d : jsstring) : jsstring := w ++ g ++ d.

(** What a computation may do: [follows allowed I st st'] says that [st']
    comes after [st] by events that are all [allowed], and that the
    catalog object still satisfies [I] if it did; a computation
    [respects] this when every run of it does, without ending the
    process. *)
Definition follows (allowed : Event → Prop) (I : Catalog → Prop)
  (st st' : State) : Prop :=
  (∃ evs, trace st' = trace st ++ evs ∧ Forall allowed evs)
  ∧ (I (the_catalog st) → I (the_catalog st')).

Definition respects (allowed : Event → Prop) (I : Catalog → Prop) {A}
  (m : M A) : Prop :=
  ∀ st, follows allowed I st (m st).2 ∧ ∀ code, (m st).1 ≠ Exit code.

(** The commands of the download phase that do not depend on the
    component. *)
Definition react_tab_command : jsstring := act_command (js "click the React tab").
Definition image_tab_command : jsstring := act_command (js "click the Image tab").
Definition screenshot_command : jsstring := js "browser screenshot".
Definition extract_code_command : jsstring :=
  extract_command
    (js "get the text content from the code block element - the complete source code shown in the pre or code element")
    [js "code"].
Definition extract_metadata_command : jsstring :=
  extract_command
    (js "get category, last updated date, react version, and tailwind version from the Details panel")
    [js "category"; js "lastUpdated"; js "reactVersion"; js "tailwindVersion"].

(** The commands of the discovery phase. *)
Definition listing_command : jsstring := navigate_command LISTING_URL.
Definition next_page_command : jsstring :=
  act_command (js "click the next page button").
Definition extract_categories_command : jsstring :=
  extract_command
    (js "get all category names and subcategory names from the left sidebar navigation")
    [js "categories"].
Definition extract_components_command : jsstring :=
  extract_command
    (js "get all component names from the component cards visible on this page")
    [js "components"].

(** Everything the download phase may do for the entries [items]: talk,
    wait, send one of its five fixed commands or navigate to the page of
    an entry, read or write [progress.json], and make the directory, the
    source file and the image of an entry. *)
Definition download_event (rt : Runtime) (items : list ComponentInfo)
  (e : Event) : Prop :=
  match e with
  | EvExec command =>
      command ∈ [react_tab_command; extract_code_command;
                 extract_metadata_command; image_tab_command;
                 screenshot_command]
      ∨ ∃ c, c ∈ items ∧ command = navigate_command (componentUrl c)
  | EvFs (OpReadFile path) => path = PROGRESS_FILE
  | EvFs (OpWriteFile path _) =>
      path = PROGRESS_FILE ∨ ∃ c, c ∈ items ∧ path = componentPath rt c
  | EvFs (OpMkdir path) => ∃ c, c ∈ items ∧ path = categoryDir rt c
  | EvFs (OpCopyFile _ dst) => ∃ c, c ∈ items ∧ dst = imagePath rt c
  | EvExit _ => False
  | EvLog _ | EvError _ | EvDelay _ => True
  end.

(** Everything the discovery phase may do: talk, wait, send one of its
    four commands, and write [catalog.json]. *)
Definition discovery_event (e : Event) : Prop :=
  match e with
  | EvExec command =>
      command ∈ [listing_command; extract_categories_command;
                 extract_components_command; next_page_command]
  | EvFs (OpWriteFile path _) => path = CATALOG_FILE
  | EvFs _ => False
  | EvExit _ => False
  | EvLog _ | EvError _ | EvDelay _ => True
  end.

(** An entry as discovery makes it (lines 200-228). *)
Definition discovered_entry (rt : Runtime) (c : ComponentInfo) : Prop :=
  slug c = nameToSlug rt (name c)
  ∧ url c = componentUrl c
  ∧ (category c, subcategory c) = classify (name c)
  ∧ metadata c = None.

Definition discovered_catalog (rt : Runtime) (catalog : Catalog) : Prop :=
  Forall (discovered_entry rt) (components catalog).

(** [discoverComponents] in two parts: the visit (lines 150-248), after
    the catalog object has been made, and the closing steps (lines
    250-254). *)
Definition discover_visit (rt : Runtime) (env : Env) (maxPages : Z) : M unit :=
  console_log (MsgNavigatingTo LISTING_URL);;
  browserCommand rt env (navigate_command LISTING_URL);;
  delay 3000;;
  console_log MsgExtractingCategories;;
  categoriesResult ← browserCommand rt env
    (extract_command
       (js "get all category names and subcategory names from the left sidebar navigation")
       [js "categories"]);
  message ← get categoriesResult (js "message");
  console_log (MsgCategories message);;
  discover_pages rt env (Z.to_nat maxPages) 1 maxPages.

Definition discover_finish (rt : Runtime) (env : Env) : M Catalog :=
  modify_catalog recount;;
  catalog ← get_catalog;
  saveCatalog rt env catalog;;
  console_log (MsgDiscoveryComplete (totalComponents catalog));;
  ret catalog.

(** The state in which the visit begins: the two opening lines have been
    printed and the catalog object is fresh. *)
Definition discover_entry (env : Env) (maxPages : Z) (st : State) : State :=
  let st1 := add_event (EvLog (MsgTarget maxPages))
               (add_event (EvLog MsgStartDiscovery) st) in
  set_catalog {| totalComponents := 0; discoveredAt := env_now env (trace st1);
                 components := [] |} st1.


(** [item.name || item] (line 188), for an item that has properties;
    [null] and [undefined] have none. *)
Definition is_nullish (v : value) : bool :=
  match v with
  | VUndefined | VNull => true
  | _ => false
  end.

Definition name_or_item (item : value) : value :=
  match item with
  | VObj fields => or_else (assoc (js "name") fields) item
  | _ => item
  end.

(** The page a line of output announces (line 162), if it announces
    one. *)
Definition page_log (e : Event) : option (Z * Z) :=
  match e with
  | EvLog (MsgPage page maxPages) => Some (page, maxPages)
  | _ => None
  end.

(** An event that announces no page. *)
Definition silent (e : Event) : Prop := page_log e = None.

(** The pages [from], [from + 1], ... of a loop of [turns] turns. *)
Definition pages_from (turns : nat) (from maxPages : Z) : list (Z * Z) :=
  (λ k, ((from + Z.of_nat k)%Z, maxPages)) <$> seq 0 turns.

(** ** A second platform

    Used to run the model where the first platform cannot: a browser tool
    that refuses a command or reports the cards of a page, and a
    [JSON.parse] that reads back the documents the program wrote. *)

Module Replay.

(** Answers that refuse: with a reason, and with none. *)
Definition refused_out : jsstring :=
  Demo.json_object [(js "success", js "false");
                    (js "error", Demo.json_string (js "Element not found"))].
Definition mute_out : jsstring := Demo.json_object [(js "success", js "false")].

(** The cards of a page: the names as running text. *)
Definition cards_text : jsstring := js "Navbar 1, Navbar 2".
Definition cards_json : jsstring :=
  Demo.json_object [(js "components", Demo.json_string cards_text)].
Definition cards_out : jsstring :=
  Demo.json_object [(js "success", js "true");
                    (js "message", Demo.json_string (Demo.extracted cards_json))].

(** An answer whose message holds no object. *)
Definition vague_text : jsstring := js "The page shows no cards".
Definition vague_out : jsstring :=
  Demo.json_object [(js "success", js "true");
                    (js "message", Demo.json_string vague_text)].

(** The names of a page as a JSON array: of a string and an object, and
    of [null] and a string. *)
Definition names_array : jsstring :=
  Demo.json_array [Demo.json_string (js "Navbar 1");
                   Demo.json_object [(js "name", Demo.json_string (js "Navbar 2"))]].
Definition holed_array : jsstring :=
  Demo.json_array [js "null"; Demo.json_string (js "Navbar 3")].

(** The progress records of the examples; the typed reader undoes
    [JSON.stringify] on them, and no other text is a progress
    document. *)
Definition stamped (done bad : list jsstring) : Progress :=
  {| completed := done; failed := bad;
     lastUpdated := js "2024-01-01T00:00:00.000Z" |}.

Definition known_progress : list Progress :=
  [stamped [] [];
   stamped [js "navbar-1"] [];
   stamped [js "navbar-1"; js "navbar-2"] []].

Definition parse_progress (text : jsstring) : option Progress :=
  List.find (λ p, bool_decide (Demo.stringify_progress p = text)) known_progress.

(** [JSON.parse]: a progress document is read as the value of its
    record. *)
Definition parse_text (text : jsstring) : option value :=
  if bool_decide (text = refused_out) then
    Some (VObj [(js "success", VBool false);
                (js "error", VStr (js "Element not found"))])
  else if bool_decide (text = mute_out) then
    Some (VObj [(js "success", VBool false)])
  else if bool_decide (text = cards_out) then
    Some (VObj [(js "success", VBool true);
                (js "message", VStr (Demo.extracted cards_json))])
  else if bool_decide (text = cards_json) then
    Some (VObj [(js "components", VStr cards_text)])
  else if bool_decide (text = vague_out) then
    Some (VObj [(js "success", VBool true); (js "message", VStr vague_text)])
  else if bool_decide (text = names_array) then
    Some (VArr [VStr (js "Navbar 1"); VObj [(js "name", VStr (js "Navbar 2"))]])
  else if bool_decide (text = holed_array) then
    Some (VArr [VNull; VStr (js "Navbar 3")])
  else match parse_progress text with
       | Some p => Some (progress_value p)
       | None => Demo.parse_text text
       end.

(** The catalog of the examples. *)
Definition two_navbars : Catalog :=
  Demo.catalog_of [Demo.item (js "1"); Demo.item (js "2")].

(** [JSON.stringify] of a catalog; [decimal] prints a natural number. *)
Fixpoint digits (fuel : nat) (n : N) : jsstring :=
  match fuel with
  | O => []
  | S k => if n <? 10 then [48 + n] else digits k (n / 10) ++ [48 + n mod 10]
  end.

Definition decimal (z : Z) : jsstring :=
  digits (S (N.to_nat (Z.to_N z))) (Z.to_N z).

Definition stringify_catalog (c : Catalog) : jsstring :=
  Demo.json_object
    [(js "totalComponents", decimal (totalComponents c));
     (js "discoveredAt", Demo.json_string (discoveredAt c));
     (js "components",
      Demo.json_array (Demo.stringify_component <$> components c))].

(** The typed reader of the catalog undoes [JSON.stringify] on the
    catalog of the examples. *)
Definition parse_catalog (text : jsstring) : option Catalog :=
  if bool_decide (text = stringify_catalog two_navbars) then Some two_navbars
  else None.

Definition rt : Runtime := {|
  toUpperCase := List.map upper_ascii;
  toLowerCase := List.map lower_ascii;
  JSON_parse := parse_text;
  JSON_parse_Catalog := parse_catalog;
  JSON_parse_Progress := parse_progress;
  JSON_stringify_Catalog := stringify_catalog;
  JSON_stringify_Progress := Demo.stringify_progress;
  path_join := Demo.join_path;
  parseInt := Demo.parse_int
|}.

(** A world in which nothing is rejected; the browser tool answers the
    extraction of the categories, the extraction of the cards and the
    click on the React tab as told, and every other command as in the
    first platform. *)
Record Answers := {
  to_categories : jsstring;
  to_cards : jsstring;
  to_react_tab : jsstring
}.

Definition world (a : Answers) : Env := {|
  env_exec := fun tr command =>
    if bool_decide (command = extract_categories_command)
    then ExecStdout (to_categories a) []
    else if bool_decide (command = extract_components_command)
    then ExecStdout (to_cards a) []
    else if bool_decide (command = react_tab_command)
    then ExecStdout (to_react_tab a) []
    else env_exec (Demo.world Demo.no_faults) tr command;
  env_fs_fails := fun _ _ => false;
  env_write_leaves := fun _ _ _ => None;
  env_now := fun _ => js "2024-01-01T00:00:00.000Z"
|}.

Definition with_cards : Answers :=
  {| to_categories := Demo.ok_out; to_cards := cards_out;
     to_react_tab := Demo.ok_out |}.
Definition vague : Answers :=
  {| to_categories := Demo.ok_out; to_cards := vague_out;
     to_react_tab := Demo.ok_out |}.
Definition refusing : Answers :=
  {| to_categories := Demo.ok_out; to_cards := cards_out;
     to_react_tab := refused_out |}.
Definition mute : Answers :=
  {| to_categories := Demo.ok_out; to_cards := cards_out;
     to_react_tab := mute_out |}.
Definition no_sidebar : Answers :=
  {| to_categories := refused_out; to_cards := cards_out;
     to_react_tab := Demo.ok_out |}.

(** The same browser on a disk that has filled up: every write is
    rejected after the file has been opened and emptied. *)
Definition full_disk : Env := {|
  env_exec := env_exec (world with_cards);
  env_fs_fails := fun _ op =>
    match op with
    | OpReadFile _ => false
    | _ => true
    end;
  env_write_leaves := fun _ _ _ => Some [];
  env_now := fun _ => js "2024-01-01T00:00:00.000Z"
|}.

(** A process that has done nothing yet, on a disk that holds the
    progress record [p]. *)
Definition resumed (p : Progress) : State := {|
  trace := [];
  files := {[ PROGRESS_FILE := Demo.stringify_progress p ]};
  the_progress := Demo.empty_progress;
  the_catalog := Demo.catalog_of []
|}.

End Replay.
(** * Properties *)

(** ** Code units *)

(** Decides a goal about the class of a code unit by splitting every
    comparison. *)
Ltac chars :=
  cbv beta delta [is_path_safe is_upper is_lower is_digit is_space
    upper_ascii lower_ascii in_range hyphen] in *;
  repeat (match goal with
    | |- context [?a <=? ?b] => destruct (N.leb_spec a b)
    | |- context [?a <? ?b] => destruct (N.ltb_spec a b)
    | |- context [?a =? ?b] => destruct (N.eqb_spec a b)
    | H : context [?a <=? ?b] |- _ => destruct (N.leb_spec a b)
    | H : context [?a <? ?b] |- _ => destruct (N.ltb_spec a b)
    | H : context [?a =? ?b] |- _ => destruct (N.eqb_spec a b)
    end; simpl in *; try congruence; try lia);
  simpl in *; try congruence; try lia.

Lemma upper_is_plain c : is_upper c = true → c < 128 ∧ is_space c = false ∧ c ≠ hyphen.
Proof. intros H. repeat split; chars. Qed.

Lemma lower_is_plain c : is_lower c = true → c < 128 ∧ is_space c = false ∧ c ≠ hyphen.
Proof. intros H. repeat split; chars. Qed.

Lemma digit_is_plain c : is_digit c = true → c < 128 ∧ is_space c = false ∧ c ≠ hyphen.
Proof. intros H. repeat split; chars. Qed.

Lemma lower_of_upper c : is_upper c = true → upper_ascii (lower_ascii c) = c.
Proof. intros H. chars. Qed.

Lemma lower_ascii_lower c : is_lower c = true → lower_ascii c = c.
Proof. intros H. chars. Qed.

Lemma lower_ascii_digit c : is_digit c = true → lower_ascii c = c ∧ upper_ascii c = c.
Proof. intros H. split; chars. Qed.

Lemma lower_ascii_space c : is_space c = true → lower_ascii c = c.
Proof. intros H. chars. Qed.

(** ** [sanitizeFilename] *)

Lemma class_members a :
  In a class_a_z_0_9_hyphen ↔ is_lower a || is_digit a || (a =? hyphen) = true.
Proof.
  split.
  - revert a. apply forallb_forall. vm_compute. reflexivity.
  - intros H. unfold class_a_z_0_9_hyphen.
    rewrite !in_app_iff, !in_map_iff.
    destruct (is_lower a) eqn:Hl; [left | destruct (is_digit a) eqn:Hd; [right; left | right; right]].
    + exists (N.to_nat a). split; [lia |]. apply in_seq. chars.
    + exists (N.to_nat a). split; [lia |]. apply in_seq. chars.
    + simpl in H. left. chars.
Qed.

Lemma filter_filter_same {A} (f : A → bool) (l : list A) :
  List.filter f (List.filter f l) = List.filter f l.
Proof.
  induction l as [|x l IH]; simpl; [reflexivity |].
  destruct (f x) eqn:Hx; simpl; [rewrite Hx, IH |]; auto.
Qed.

Section Sanitize.

Variable rt : Runtime.

(** On ASCII strings the platform's [toUpperCase] is the ASCII one. *)
Hypothesis toUpperCase_ascii :
  ∀ s, Forall (λ c, c < 128) s → toUpperCase rt s = List.map upper_ascii s.

Lemma canonicalize_ascii c : c < 128 → canonicalize rt c = upper_ascii c.
Proof.
  intros Hc. unfold canonicalize.
  rewrite toUpperCase_ascii by (constructor; [exact Hc | constructor]).
  simpl. destruct (N.leb_spec 128 c); [lia | reflexivity].
Qed.

Lemma canonicalize_other c : 128 ≤ c → 128 ≤ canonicalize rt c.
Proof.
  intros Hc. unfold canonicalize.
  destruct (toUpperCase rt [c]) as [|cu [|? ?]]; try exact Hc.
  destruct (N.leb_spec 128 c); [| lia].
  destruct (N.ltb_spec cu 128); simpl; lia.
Qed.

(** With the [i] flag the class [[a-z0-9-]] matches exactly the letters,
    digits and the hyphen of ASCII. *)
Lemma class_matches_i_spec c :
  class_matches_i rt class_a_z_0_9_hyphen c = is_path_safe c.
Proof.
  apply Bool.eq_iff_eq_true. unfold class_matches_i.
  rewrite existsb_exists. split.
  - intros (a & Ha & Heq). apply class_members in Ha.
    apply N.eqb_eq in Heq.
    assert (a < 128) as Ha128 by chars.
    rewrite (canonicalize_ascii a Ha128) in Heq.
    destruct (N.lt_ge_cases c 128) as [Hc | Hc].
    + rewrite (canonicalize_ascii c Hc) in Heq. chars.
    + pose proof (canonicalize_other c Hc) as Hge. rewrite <- Heq in Hge. chars.
  - intros Hc. exists (lower_ascii c). split.
    + apply class_members. chars.
    + apply N.eqb_eq.
      rewrite !canonicalize_ascii by chars. chars.
Qed.

Lemma sanitizeFilename_filter x :
  sanitizeFilename rt x = List.filter is_path_safe x.
Proof. unfold sanitizeFilename. apply List.filter_ext, class_matches_i_spec. Qed.

(** C7. [sanitizeFilename] is a total function; applying it twice is
    applying it once, and every code unit of its result is an ASCII
    letter, a digit or the hyphen (the result matches [^[A-Za-z0-9-]*$]). *)
Theorem sanitizeFilename_idempotent_and_clean (x : jsstring) :
  sanitizeFilename rt (sanitizeFilename rt x) = sanitizeFilename rt x
  ∧ Forall (λ c, is_path_safe c = true) (sanitizeFilename rt x).
Proof.
  split.
  - unfold sanitizeFilename. apply filter_filter_same.
  - rewrite sanitizeFilename_filter. apply Forall_forall.
    intros c Hc. apply list_elem_of_In, filter_In in Hc. tauto.
Qed.

End Sanitize.

(** The statement of C7 on the ASCII platform, for a segment with code
    units of every kind. *)
Lemma sanitizeFilename_witness :
  sanitizeFilename Demo.rt (sanitizeFilename Demo.rt (js "Application UI/../x_9-a"))
  = sanitizeFilename Demo.rt (js "Application UI/../x_9-a")
  ∧ Forall (λ c, is_path_safe c = true)
      (sanitizeFilename Demo.rt (js "Application UI/../x_9-a")).
Proof.
  apply (sanitizeFilename_idempotent_and_clean Demo.rt).
  intros s _. reflexivity.
Defined.

(** ** [nameToSlug] and [toPascalCase] *)

Lemma replace_plain rep w :
  no_space w → replace_space_runs rep false w = w.
Proof.
  induction 1 as [|c w Hc Hw IH]; [reflexivity |].
  simpl. rewrite Hc, IH. reflexivity.
Qed.

Lemma split_on_nonempty sep s : split_on sep s ≠ [].
Proof.
  destruct s as [|c s]; simpl; [discriminate |].
  destruct (c =? sep); [discriminate |].
  destruct (split_on sep s); discriminate.
Qed.

Lemma forallb_Forall_iff {A} (f : A → bool) l :
  forallb f l = true ↔ Forall (λ x, f x = true) l.
Proof. rewrite forallb_forall, Forall_forall. setoid_rewrite list_elem_of_In. tauto. Qed.

Lemma capitalized_inv w :
  is_capitalized w = true →
  ∃ c r, w = c :: r ∧ is_upper c = true ∧ Forall (λ x, is_lower x = true) r.
Proof.
  destruct w as [|c r]; simpl; [discriminate |].
  intros H. apply andb_true_iff in H as [Hc Hr].
  apply forallb_Forall_iff in Hr. eauto.
Qed.

Lemma gap_inv g :
  is_gap g = true → g ≠ [] ∧ all_space g.
Proof.
  destruct g as [|c r]; simpl; [discriminate |].
  intros H. apply andb_true_iff in H as [Hc Hr].
  apply forallb_Forall_iff in Hr. split; [discriminate |]. constructor; assumption.
Qed.

Lemma number_inv d :
  is_number d = true → d ≠ [] ∧ Forall (λ x, is_digit x = true) d.
Proof.
  destruct d as [|c r]; simpl; [discriminate |].
  intros H. apply andb_true_iff in H as [Hc Hr].
  apply forallb_Forall_iff in Hr. split; [discriminate |]. constructor; assumption.
Qed.

(** [name.replace(/\s+/g, "")] keeps what is no white space; the casing
    of that is what [pascal_scan] may change, and it changes none exactly
    when the casing is initial capitals only. *)
Lemma casefold_pascal_scan h b nm :
  plain_name nm →
  casefold (pascal_scan h nm) = casefold (replace_space_runs [] b nm).
Proof.
  intros Hp. revert h b. induction Hp as [|c nm [Hc Hh] Hp IH]; intros h b;
    [reflexivity |].
  cbn [pascal_scan replace_space_runs]. destruct (is_space c) eqn:Hs.
  - destruct b; cbn [app]; apply IH.
  - unfold casefold in *. cbn [List.map]. rewrite (IH false false). f_equal.
    destruct Hc as [Hc | Hc]; [| congruence].
    destruct h; chars.
Qed.

Lemma pascal_scan_exact h b nm :
  plain_name nm →
  pascal_scan h nm = replace_space_runs [] b nm ↔ initial_capitals h nm = true.
Proof.
  intros Hp. revert h b. induction Hp as [|c nm [Hc Hh] Hp IH]; intros h b;
    [simpl; tauto |].
  cbn [pascal_scan replace_space_runs initial_capitals].
  destruct (is_space c) eqn:Hs.
  - destruct b; cbn [app]; apply IH.
  - destruct Hc as [Hc | Hc]; [| congruence].
    rewrite andb_true_iff, <- (IH false false). split.
    + intros H. injection H as H1 H2. split; [| exact H2].
      clear -H1 Hc. destruct h; chars.
    + intros [H1 H2]. rewrite H2. f_equal.
      clear -H1 Hc. destruct h; chars.
Qed.

(** The names of the claim are plain, and a well-formed one has initial
    capitals only. *)
Lemma loosely_formed_plain parts num :
  loosely_formed parts = true → is_number num = true →
  plain_name (assemble parts num).
Proof.
  intros Hp Hn. apply number_inv in Hn as [_ Hn].
  unfold loosely_formed in Hp. apply forallb_Forall_iff in Hp.
  induction Hp as [|[w g] parts Hwg Hp IH]; cbn [assemble].
  - eapply Forall_impl; [exact Hn |]. intros x Hx.
    destruct (digit_is_plain x Hx) as (H1 & _ & H3). auto.
  - cbn [fst snd] in Hwg. apply andb_true_iff in Hwg as [Hw Hg].
    apply forallb_Forall_iff in Hg.
    destruct (capitalized_inv w Hw) as (c & r & -> & Hc & Hr).
    unfold plain_name. rewrite !Forall_app. split; [| split; [| exact IH]].
    + constructor.
      * destruct (upper_is_plain c Hc) as (H1 & _ & H3). auto.
      * eapply Forall_impl; [exact Hr |]. intros x Hx.
        destruct (lower_is_plain x Hx) as (H1 & _ & H3). auto.
    + eapply Forall_impl; [exact Hg |]. intros x Hx. split; [auto |].
      intros ->. vm_compute in Hx. discriminate Hx.
Qed.

Lemma initial_capitals_number h num :
  Forall (λ x, is_digit x = true) num → initial_capitals h num = true.
Proof.
  intros Hn. revert h. induction Hn as [|c num Hc Hn IH]; intros h; [reflexivity |].
  cbn [initial_capitals]. rewrite (IH false), andb_true_r.
  destruct (digit_is_plain c Hc) as (_ & -> & _).
  clear -Hc. destruct h; chars.
Qed.

Lemma initial_capitals_lower r t :
  Forall (λ x, is_lower x = true) r →
  initial_capitals false (r ++ t) = initial_capitals false t.
Proof.
  induction 1 as [|c r Hc Hr IH]; [reflexivity |].
  cbn [app initial_capitals]. rewrite IH.
  destruct (lower_is_plain c Hc) as (_ & -> & _).
  replace (is_upper c) with false by (clear -Hc; chars). reflexivity.
Qed.

Lemma initial_capitals_gap h g t :
  all_space g → g ≠ [] →
  initial_capitals h (g ++ t) = initial_capitals true t.
Proof.
  intros Hg. revert h. induction Hg as [|c g Hc Hg IH]; intros h Hne; [congruence |].
  cbn [app initial_capitals]. rewrite Hc.
  destruct g as [|d g]; [reflexivity |]. apply IH. discriminate.
Qed.

Lemma well_formed_initial_capitals parts num :
  well_formed_parts parts = true → is_number num = true →
  initial_capitals true (assemble parts num) = true.
Proof.
  intros Hp Hn. apply number_inv in Hn as [_ Hn].
  unfold well_formed_parts in Hp. apply forallb_Forall_iff in Hp.
  induction Hp as [|[w g] parts Hwg Hp IH]; cbn [assemble].
  - apply initial_capitals_number, Hn.
  - cbn [fst snd] in Hwg. apply andb_true_iff in Hwg as [Hw Hg].
    apply gap_inv in Hg as [Hgne Hg].
    destruct (capitalized_inv w Hw) as (c & r & -> & Hc & Hr).
    cbn [app initial_capitals]. destruct (upper_is_plain c Hc) as (_ & -> & _).
    replace (is_lower c) with false by (clear -Hc; chars). cbn [negb andb].
    rewrite initial_capitals_lower by exact Hr.
    rewrite initial_capitals_gap by assumption. exact IH.
Qed.

Section RoundTrip.

Variable rt : Runtime.

(** On ASCII strings the platform's [toUpperCase] is the ASCII one; so is
    [toLowerCase], also between white space of any kind. *)
Hypothesis toUpperCase_ascii :
  ∀ s, Forall (λ c, c < 128) s → toUpperCase rt s = List.map upper_ascii s.
Hypothesis toLowerCase_plain :
  ∀ s, Forall (λ c, c < 128 ∨ is_space c = true) s →
       toLowerCase rt s = List.map lower_ascii s.

Lemma capitalize_empty : capitalize rt [] = [].
Proof. unfold capitalize. cbn [take drop]. rewrite toUpperCase_ascii by constructor. reflexivity. Qed.

Lemma capitalize_cons c p :
  c < 128 → capitalize rt (c :: p) = upper_ascii c :: p.
Proof.
  intros Hc. unfold capitalize. cbn [take drop].
  rewrite toUpperCase_ascii by (constructor; [exact Hc | constructor]). reflexivity.
Qed.

(** The parts of the slug of a plain name, capitalized and joined, are
    what [pascal_scan] writes; the second equation leaves the first part
    as it is, for the induction. *)
Lemma pascal_of_slug nm :
  plain_name nm →
  (∀ b, concat (capitalize rt <$>
                  split_on hyphen
                    (replace_space_runs [hyphen] b (List.map lower_ascii nm)))
        = pascal_scan true nm)
  ∧ match split_on hyphen
            (replace_space_runs [hyphen] false (List.map lower_ascii nm)) with
    | p :: ps => p ++ concat (capitalize rt <$> ps)
    | [] => []
    end = pascal_scan false nm.
Proof.
  induction 1 as [|c nm [Hc Hh] Hp [IH1 IH2]].
  - split; [intros b |]; cbn; [rewrite capitalize_empty |]; reflexivity.
  - cbn [List.map replace_space_runs pascal_scan].
    destruct (is_space c) eqn:Hs.
    + rewrite (lower_ascii_space c Hs), Hs. split.
      * intros [|]; cbn [app]; [apply IH1 |].
        cbn [split_on]. rewrite N.eqb_refl. cbn [fmap list_fmap concat].
        rewrite capitalize_empty. apply IH1.
      * cbn [app split_on]. rewrite N.eqb_refl. cbn [app]. apply IH1.
    + destruct Hc as [Hc | Hc]; [| congruence].
      assert (is_space (lower_ascii c) = false) as Hs' by (clear -Hs Hc; chars).
      assert (lower_ascii c ≠ hyphen) as Hh' by (clear -Hh Hc; chars).
      assert (lower_ascii c < 128) as Hc' by (clear -Hc; chars).
      rewrite Hs'. cbn [split_on].
      destruct (N.eqb_spec (lower_ascii c) hyphen) as [| _]; [contradiction |].
      destruct (split_on hyphen _) as [|p ps] eqn:Hsplit;
        [exfalso; exact (split_on_nonempty _ _ Hsplit) |].
      split; [intros _ |]; cbn [fmap list_fmap concat app].
      * rewrite capitalize_cons by exact Hc'. cbn [app]. f_equal. exact IH2.
      * f_equal. exact IH2.
Qed.

(** C6.  Take a name whose code units are ASCII or white space, none of
    them the hyphen: so every name composed of capitalized words and a
    trailing number, with or without white space between them.  The slug
    of the name converted back to display form is the name without its
    white space, in casing-normalized form; and it is exactly the name
    without its white space when, and only when, the casing of the name
    is initial capitals only, which is so whenever the words are
    capitalized and followed by white space. *)
Theorem toPascalCase_nameToSlug :
  (∀ nm,
     plain_name nm →
     casefold (toPascalCase rt (nameToSlug rt nm)) = casefold (remove_spaces nm)
     ∧ (toPascalCase rt (nameToSlug rt nm) = remove_spaces nm
        ↔ initial_capitals true nm = true))
  ∧ (∀ parts num,
       loosely_formed parts = true → is_number num = true →
       plain_name (assemble parts num)
       ∧ (well_formed_parts parts = true →
          toPascalCase rt (nameToSlug rt (assemble parts num))
          = remove_spaces (assemble parts num))).
Proof.
  assert (∀ nm, plain_name nm →
                toPascalCase rt (nameToSlug rt nm) = pascal_scan true nm) as Hscan.
  { intros nm Hp. unfold toPascalCase, nameToSlug.
    rewrite toLowerCase_plain by (eapply Forall_impl; [exact Hp |]; intros x Hx; apply Hx).
    change (js "-") with [hyphen]. apply (pascal_of_slug nm Hp). }
  split.
  - intros nm Hp. rewrite (Hscan nm Hp). unfold remove_spaces.
    split; [apply casefold_pascal_scan, Hp | apply pascal_scan_exact, Hp].
  - intros parts num Hl Hn.
    pose proof (loosely_formed_plain parts num Hl Hn) as Hp.
    split; [exact Hp |]. intros Hw.
    rewrite (Hscan _ Hp). unfold remove_spaces.
    apply pascal_scan_exact; [exact Hp |].
    apply well_formed_initial_capitals; assumption.
Qed.

End RoundTrip.

(** C6 at ["Application Shell 1"], which becomes ["ApplicationShell1"];
    at names without white space before the number; and at a name whose
    second word is not set off, where only the casing-normalized forms
    agree. *)
Lemma toPascalCase_nameToSlug_witness :
  let back nm := toPascalCase Demo.rt (nameToSlug Demo.rt nm) in
  assemble [(js "Application", js " "); (js "Shell", js " ")] (js "1")
  = js "Application Shell 1"
  ∧ back (js "Application Shell 1") = js "ApplicationShell1"
  ∧ back (js "Navbar1") = remove_spaces (js "Navbar1")
  ∧ back (js "Hero Header12") = remove_spaces (js "Hero Header12")
  ∧ casefold (back (js "HeroHeader 12")) = casefold (remove_spaces (js "HeroHeader 12"))
  ∧ back (js "HeroHeader 12") ≠ remove_spaces (js "HeroHeader 12").
Proof.
  cbv zeta.
  pose proof (toPascalCase_nameToSlug Demo.rt (λ s _, eq_refl) (λ s _, eq_refl))
    as [Hany Hformed].
  split; [reflexivity |]. split; [| split; [| split; [| split]]].
  - refine (proj2 (Hformed [(js "Application", js " "); (js "Shell", js " ")] (js "1")
                     eq_refl eq_refl) eq_refl).
  - apply (Hany (js "Navbar1")); [| reflexivity].
    repeat constructor; vm_compute; congruence.
  - apply (Hany (js "Hero Header12")); [| reflexivity].
    repeat constructor; vm_compute; congruence.
  - apply (Hany (js "HeroHeader 12")).
    repeat constructor; vm_compute; congruence.
  - intros Heq. apply (Hany (js "HeroHeader 12")) in Heq;
      [discriminate Heq | repeat constructor; vm_compute; congruence].
Defined.

(** ** Running computations *)

Lemma run_bind {A B} (m : M A) (k : A → M B) (st : State) :
  (m ≫= k) st =
  match m st with
  | (Ok a, st') => k a st'
  | (Throw e, st') => (Throw e, st')
  | (Exit c, st') => (Exit c, st')
  end.
Proof. reflexivity. Qed.

Lemma run_try_catch {A} (m : M A) (h : exn → M A) (st : State) :
  try_catch m h st =
  match m st with
  | (Throw e, st') => h e st'
  | r => r
  end.
Proof. reflexivity. Qed.

(** A rejected write removes no file. *)
Lemma rejected_write_keeps env path data tr st other :
  is_Some (files st !! other) →
  is_Some (files (rejected_write env path data tr st) !! other).
Proof.
  intros Hs. unfold rejected_write. cbn [files set_files].
  destruct (env_write_leaves env tr path data) as [part |]; [| exact Hs].
  rewrite lookup_insert_is_Some.
  destruct (decide (path = other)) as [-> | Hne]; [left; reflexivity |].
  right. split; [exact Hne | exact Hs].
Qed.

(** A rejected write touches no other file. *)
Lemma rejected_write_others env path data tr st other :
  other ≠ path →
  files (rejected_write env path data tr st) !! other = files st !! other.
Proof.
  intros Hne. unfold rejected_write. cbn [files set_files].
  destruct (env_write_leaves env tr path data) as [part |]; [| reflexivity].
  apply lookup_insert_ne. congruence.
Qed.

(** What [writeFile] does, case by case. *)
Lemma writeFile_cases env path data st :
  let st1 := add_event (EvFs (OpWriteFile path data)) st in
  writeFile env path data st =
  if env_fs_fails env (trace st) (OpWriteFile path data)
  then (Throw (FsError (OpWriteFile path data)),
        rejected_write env path data (trace st) st1)
  else (Ok tt, set_files (<[path := data]> (files st)) st1).
Proof.
  cbv zeta. unfold writeFile, fs_call, store.
  destruct (env_fs_fails env (trace st) _); reflexivity.
Qed.

(** ** The persistence layer *)

Section Persistence.

Variable rt : Runtime.
Variable env : Env.

(** What [readFile] does, case by case. *)
Lemma readFile_cases path st :
  let st1 := add_event (EvFs (OpReadFile path)) st in
  readFile env path st =
  if env_fs_fails env (trace st) (OpReadFile path)
  then (Throw (FsError (OpReadFile path)), st1)
  else match files st !! path with
       | Some data => (Ok data, st1)
       | None => (Throw (FsError (OpReadFile path)), st1)
       end.
Proof.
  unfold readFile. rewrite run_bind. unfold fs_call.
  destruct (env_fs_fails env (trace st) (OpReadFile path)); reflexivity.
Qed.

(** C8. [loadCatalog] and [loadProgress] never fail.  When the document
    cannot be read (the file is missing, or the read is rejected) or is
    not JSON, [loadCatalog] answers a fresh catalog with [totalComponents]
    0 and no components, and [loadProgress] a fresh record with empty
    [completed] and [failed]; both are stamped with the current time. *)
Theorem load_never_fails (st : State) :
  let st1 := add_event (EvFs (OpReadFile CATALOG_FILE)) st in
  let st2 := add_event (EvFs (OpReadFile PROGRESS_FILE)) st in
  (∃ c, (loadCatalog rt env st).1 = Ok c)
  ∧ (∃ p, (loadProgress rt env st).1 = Ok p)
  ∧ (((∃ e, (readFile env CATALOG_FILE st).1 = Throw e)
      ∨ (∃ data, (readFile env CATALOG_FILE st).1 = Ok data
                 ∧ JSON_parse_Catalog rt data = None)) →
     loadCatalog rt env st
     = (Ok {| totalComponents := 0;
              discoveredAt := env_now env (trace st1);
              components := [] |}, st1))
  ∧ (((∃ e, (readFile env PROGRESS_FILE st).1 = Throw e)
      ∨ (∃ data, (readFile env PROGRESS_FILE st).1 = Ok data
                 ∧ JSON_parse_Progress rt data = None)) →
     loadProgress rt env st
     = (Ok {| completed := []; failed := [];
              lastUpdated := env_now env (trace st2) |}, st2)).
Proof.
  cbv zeta. unfold loadCatalog, loadProgress.
  rewrite !run_try_catch, !run_bind, !readFile_cases.
  repeat split.
  - destruct (env_fs_fails env (trace st) (OpReadFile CATALOG_FILE)); [eexists; reflexivity |].
    destruct (files st !! CATALOG_FILE) as [data|]; [| eexists; reflexivity].
    destruct (JSON_parse_Catalog rt data); eexists; reflexivity.
  - destruct (env_fs_fails env (trace st) (OpReadFile PROGRESS_FILE)); [eexists; reflexivity |].
    destruct (files st !! PROGRESS_FILE) as [data|]; [| eexists; reflexivity].
    destruct (JSON_parse_Progress rt data); eexists; reflexivity.
  - intros H.
    destruct (env_fs_fails env (trace st) (OpReadFile CATALOG_FILE)); [reflexivity |].
    destruct (files st !! CATALOG_FILE) as [data|]; [| reflexivity].
    destruct H as [[e He] | (d & Hd & Hp)]; simpl in *; [discriminate |].
    injection Hd as <-. rewrite Hp. reflexivity.
  - intros H.
    destruct (env_fs_fails env (trace st) (OpReadFile PROGRESS_FILE)); [reflexivity |].
    destruct (files st !! PROGRESS_FILE) as [data|]; [| reflexivity].
    destruct H as [[e He] | (d & Hd & Hp)]; simpl in *; [discriminate |].
    injection Hd as <-. rewrite Hp. reflexivity.
Qed.

End Persistence.

(** C8 on an empty disk (both files are missing) and on a disk where both
    documents are damaged. *)
Lemma load_never_fails_witness :
  (loadCatalog Demo.rt (Demo.world Demo.no_faults) Demo.start).1
  = Ok {| totalComponents := 0;
          discoveredAt := js "2024-01-01T00:00:00.000Z";
          components := [] |}
  ∧ (loadProgress Demo.rt (Demo.world Demo.no_faults) Demo.start).1
    = Ok {| completed := []; failed := [];
            lastUpdated := js "2024-01-01T00:00:00.000Z" |}
  ∧ (loadCatalog Demo.rt (Demo.world Demo.no_faults) Demo.damaged).1
    = Ok {| totalComponents := 0;
            discoveredAt := js "2024-01-01T00:00:00.000Z";
            components := [] |}
  ∧ (loadProgress Demo.rt (Demo.world Demo.no_faults) Demo.damaged).1
    = Ok {| completed := []; failed := [];
            lastUpdated := js "2024-01-01T00:00:00.000Z" |}.
Proof.
  destruct (load_never_fails Demo.rt (Demo.world Demo.no_faults) Demo.start)
    as (_ & _ & Hc & Hp).
  destruct (load_never_fails Demo.rt (Demo.world Demo.no_faults) Demo.damaged)
    as (_ & _ & Hc' & Hp').
  split; [| split; [| split]].
  - rewrite Hc; [reflexivity |]. left. eexists. reflexivity.
  - rewrite Hp; [reflexivity |]. left. eexists. reflexivity.
  - rewrite Hc'; [reflexivity |]. right. eexists. split; reflexivity.
  - rewrite Hp'; [reflexivity |]. right. eexists. split; reflexivity.
Defined.

(** ** The work set *)

#[local] Set Warnings "-clear-no-such-hyp".

Lemma length_filter_complement {A} (P Q : A → Prop)
  `{∀ x, Decision (P x)} `{∀ x, Decision (Q x)} (l : list A) :
  (∀ x, P x ↔ ¬ Q x) →
  (length (filter P l) + length (filter Q l) = length l)%nat.
Proof.
  intros HPQ. induction l as [|x l IH]; [reflexivity |].
  rewrite !filter_cons.
  destruct (decide (P x)) as [HP | HP], (decide (Q x)) as [HQ | HQ]; simpl.
  - apply HPQ in HP. contradiction.
  - lia.
  - lia.
  - exfalso. apply HP, HPQ, HQ.
Qed.

(** For a catalog without repeated slugs, the entries whose slug is in
    a set are as many as the slugs of the catalog in that set. *)
Lemma length_filter_slugs (S : gset (list N)) (l : list ComponentInfo) :
  NoDup (slug <$> l) →
  length (filter (λ c, slug c ∈ S) l)
  = size ((list_to_set (slug <$> l) : gset (list N)) ∩ S).
Proof.
  induction l as [|c l IH]; intros Hnd.
  - simpl. rewrite intersection_empty_l_L, size_empty. reflexivity.
  - rewrite fmap_cons in Hnd. apply NoDup_cons in Hnd as [Hc Hnd].
    rewrite filter_cons, fmap_cons, list_to_set_cons.
    destruct (decide (slug c ∈ S)) as [Hin | Hout].
    + replace (({[slug c]} ∪ list_to_set (slug <$> l)) ∩ S)
        with ({[slug c]} ∪ ((list_to_set (slug <$> l) : gset (list N)) ∩ S))
        by set_solver.
      rewrite size_union by set_solver.
      rewrite size_singleton. simpl. rewrite IH by exact Hnd. reflexivity.
    + replace (({[slug c]} ∪ list_to_set (slug <$> l)) ∩ S)
        with ((list_to_set (slug <$> l) : gset (list N)) ∩ S)
        by set_solver.
      apply IH, Hnd.
Qed.

(** ** What the steps of one component leave alone *)

Create HintDb quiet.

Lemma quiet_ret {A} (a : A) : quiet (mret a).
Proof. intros st. split; [reflexivity | discriminate]. Qed.

Lemma quiet_throw {A} (e : exn) : quiet (@throw A e).
Proof. intros st. split; [reflexivity | discriminate]. Qed.

Lemma quiet_bind {A B} (m : M A) (k : A → M B) :
  quiet m → (∀ a, quiet (k a)) → quiet (m ≫= k).
Proof.
  intros Hm Hk st. rewrite run_bind.
  destruct (Hm st) as [Hp Hx]. destruct (m st) as [[a | e | c] st1]; simpl in *.
  - destruct (Hk a st1) as [Hp' Hx']. split; [congruence | exact Hx'].
  - split; [exact Hp | discriminate].
  - exfalso. apply (Hx c). reflexivity.
Qed.

Lemma quiet_try_catch {A} (m : M A) (h : exn → M A) :
  quiet m → (∀ e, quiet (h e)) → quiet (try_catch m h).
Proof.
  intros Hm Hh st. rewrite run_try_catch.
  destruct (Hm st) as [Hp Hx]. destruct (m st) as [[a | e | c] st1]; simpl in *.
  - split; [exact Hp | discriminate].
  - destruct (Hh e st1) as [Hp' Hx']. split; [congruence | exact Hx'].
  - split; [exact Hp | exact Hx].
Qed.

Lemma quiet_emit (e : Event) : quiet (emit e).
Proof. intros st. split; [reflexivity | discriminate]. Qed.

Lemma quiet_console_log m : quiet (console_log m).
Proof. apply quiet_emit. Qed.

Lemma quiet_console_error m : quiet (console_error m).
Proof. apply quiet_emit. Qed.

Lemma quiet_delay ms : quiet (delay ms).
Proof. apply quiet_emit. Qed.

Lemma quiet_get v k : quiet (get v k).
Proof. destruct v; first [apply quiet_throw | apply quiet_ret]. Qed.

Lemma quiet_match_json v : quiet (match_json v).
Proof. destruct v; first [apply quiet_throw | apply quiet_ret]. Qed.

#[export] Hint Resolve quiet_ret quiet_throw quiet_emit quiet_console_log
  quiet_console_error quiet_delay quiet_get quiet_match_json : quiet.
#[export] Hint Extern 2 (quiet (_ ≫= _)) => apply quiet_bind; [| intros ?] : quiet.
#[export] Hint Extern 2 (quiet (try_catch _ _)) =>
  apply quiet_try_catch; [| intros ?] : quiet.
#[export] Hint Extern 3 (quiet (match ?x with _ => _ end)) => destruct x : quiet.

Section Quiet.

Variable rt : Runtime.
Variable env : Env.

Lemma quiet_execAsync command : quiet (execAsync env command).
Proof.
  intros st. unfold execAsync.
  destruct (env_exec env (trace st) command); split; try reflexivity; discriminate.
Qed.

Lemma quiet_fs_call op : quiet (fs_call env op).
Proof.
  intros st. unfold fs_call.
  destruct (env_fs_fails env (trace st) op); split; try reflexivity; discriminate.
Qed.

Lemma quiet_contents path op : quiet (contents path op).
Proof.
  intros st. unfold contents.
  destruct (files st !! path); split; try reflexivity; discriminate.
Qed.

Lemma quiet_store path data : quiet (store path data).
Proof. intros st. split; [reflexivity | discriminate]. Qed.

Lemma quiet_parse text : quiet (parse rt text).
Proof. unfold parse. destruct (JSON_parse rt text); auto with quiet. Qed.

Hint Resolve quiet_execAsync quiet_fs_call quiet_contents quiet_store
  quiet_parse : quiet.

Lemma quiet_writeFile path data : quiet (writeFile env path data).
Proof.
  intros st. rewrite writeFile_cases. cbv zeta.
  destruct (env_fs_fails env (trace st) _); cbn [fst snd];
    (split; [reflexivity | discriminate]).
Qed.

Lemma quiet_copyFile src dst : quiet (copyFile env src dst).
Proof. unfold copyFile. destruct src; auto 6 with quiet. Qed.

Lemma quiet_browserCommand command : quiet (browserCommand rt env command).
Proof. unfold browserCommand. auto 12 with quiet. Qed.

Hint Resolve quiet_writeFile quiet_copyFile quiet_browserCommand : quiet.

Lemma quiet_retrieve c : quiet (retrieve rt env c).
Proof. unfold retrieve. auto 40 with quiet. Qed.

Lemma quiet_write_source c r : quiet (write_source rt env c r).
Proof. unfold write_source, metadataHeader, ensureDir, mkdir. auto 20 with quiet. Qed.

Lemma quiet_copy_screenshot c r : quiet (copy_screenshot rt env c r).
Proof. unfold copy_screenshot. auto with quiet. Qed.

Hint Resolve quiet_retrieve quiet_write_source quiet_copy_screenshot : quiet.

(** The steps of one component do not touch the progress object and do
    not end the process: they succeed or throw. *)
Lemma quiet_fetch_and_store c : quiet (fetch_and_store rt env c).
Proof. unfold fetch_and_store. auto with quiet. Qed.

End Quiet.

(** ** One turn of the download loop *)

Lemma run_console_log m st : console_log m st = (Ok tt, add_event (EvLog m) st).
Proof. reflexivity. Qed.

Lemma run_console_error m st : console_error m st = (Ok tt, add_event (EvError m) st).
Proof. reflexivity. Qed.

Lemma run_delay ms st : delay ms st = (Ok tt, add_event (EvDelay ms) st).
Proof. reflexivity. Qed.

Lemma run_modify_progress f st :
  modify_progress f st = (Ok tt, set_progress (f (the_progress st)) st).
Proof. reflexivity. Qed.

Lemma run_get_progress st : get_progress st = (Ok (the_progress st), st).
Proof. reflexivity. Qed.

Lemma run_ret {A} (a : A) st : (mret a : M A) st = (Ok a, st).
Proof. reflexivity. Qed.

Lemma run_process_exit {A} code st :
  @process_exit A code st = (Exit code, add_event (EvExit code) st).
Proof. reflexivity. Qed.

(** Runs the straight-line part of a computation. *)
Ltac run :=
  repeat first
    [ rewrite run_bind
    | rewrite run_console_log
    | rewrite run_console_error
    | rewrite run_delay
    | rewrite run_modify_progress
    | rewrite run_get_progress
    | rewrite run_ret
    | rewrite run_process_exit ].

Section DownloadTurn.

Variable rt : Runtime.
Variable env : Env.

(** What [saveProgress] does: the object is stamped, then written. *)
Lemma saveProgress_run st :
  let p := stamp (env_now env (trace st)) (the_progress st) in
  let op := OpWriteFile PROGRESS_FILE (JSON_stringify_Progress rt p) in
  let st1 := add_event (EvFs op) (set_progress p st) in
  saveProgress rt env st =
  if env_fs_fails env (trace st) op
  then (Throw (FsError op),
        rejected_write env PROGRESS_FILE (JSON_stringify_Progress rt p) (trace st) st1)
  else (Ok tt,
        set_files (<[PROGRESS_FILE := JSON_stringify_Progress rt p]> (files st)) st1).
Proof.
  cbv zeta. unfold saveProgress.
  rewrite run_bind. unfold now at 1. cbv iota beta.
  rewrite run_bind, run_modify_progress, run_bind, run_get_progress, writeFile_cases.
  reflexivity.
Qed.

Lemma saveProgress_ok st :
  progress_writable env →
  ∃ st', saveProgress rt env st = (Ok tt, st')
         ∧ the_progress st' = stamp (env_now env (trace st)) (the_progress st)
         ∧ persisted rt st'
         ∧ trace st' = trace st
             ++ [EvFs (OpWriteFile PROGRESS_FILE
                         (JSON_stringify_Progress rt (the_progress st')))].
Proof.
  intros Hw. rewrite saveProgress_run. cbv zeta. rewrite Hw.
  eexists. split; [reflexivity |]. split; [reflexivity |]. split; [| reflexivity].
  unfold persisted. simpl. apply lookup_insert_eq.
Qed.

(** The turn of an entry whose steps throw: the slug goes to [failed],
    progress is saved, and the turn ends normally. *)
Lemma download_item_failure n i c st e st1 :
  progress_writable env →
  fetch_and_store rt env c (item_start n i c st) = (Throw e, st1) →
  ∃ st', download_item rt env n i c st = (Ok tt, st')
         ∧ completed (the_progress st') = completed (the_progress st)
         ∧ failed (the_progress st') = failed (the_progress st) ++ [slug c]
         ∧ persisted rt st'.
Proof.
  intros Hw Hf.
  pose proof (quiet_fetch_and_store rt env c (item_start n i c st)) as [Hp _].
  rewrite Hf in Hp. simpl in Hp.
  unfold download_item. rewrite run_bind, run_console_log.
  fold (item_start n i c st).
  rewrite run_try_catch, run_bind, Hf. run.
  match goal with |- context [saveProgress rt env ?s] =>
    destruct (saveProgress_ok s Hw) as (st' & Hs & Hp' & Hpers & _) end.
  rewrite Hs. exists st'. split; [reflexivity |].
  rewrite Hp'. simpl. rewrite Hp. simpl. auto.
Qed.

(** The turn of an entry whose steps succeed: the slug goes to
    [completed], progress is saved, and the turn ends normally. *)
Lemma download_item_success n i c st st1 :
  progress_writable env →
  fetch_and_store rt env c (item_start n i c st) = (Ok tt, st1) →
  ∃ st', download_item rt env n i c st = (Ok tt, st')
         ∧ completed (the_progress st') = completed (the_progress st) ++ [slug c]
         ∧ failed (the_progress st') = failed (the_progress st)
         ∧ persisted rt st'.
Proof.
  intros Hw Hf.
  pose proof (quiet_fetch_and_store rt env c (item_start n i c st)) as [Hp _].
  rewrite Hf in Hp. simpl in Hp.
  unfold download_item. rewrite run_bind, run_console_log.
  fold (item_start n i c st).
  rewrite run_try_catch, run_bind, Hf. run.
  match goal with |- context [saveProgress rt env ?s] =>
    destruct (saveProgress_ok s Hw) as (st' & Hs & Hp' & Hpers & _) end.
  rewrite Hs. unfold when.
  destruct (Z.of_nat i <? Z.of_nat n - 1)%Z.
  - run. eexists. split; [reflexivity |]. simpl. rewrite Hp'. simpl. rewrite Hp.
    unfold persisted in *. simpl. rewrite Hpers, Hp'. auto.
  - exists st'. split; [reflexivity |].
    rewrite Hp'. simpl. rewrite Hp. simpl. auto.
Qed.

(** Either way the turn ends normally. *)
Lemma download_item_turn n i c st :
  progress_writable env →
  ∃ st', download_item rt env n i c st = (Ok tt, st')
         ∧ persisted rt st'
         ∧ let ok := is_ok (fetch_and_store rt env c (item_start n i c st)).1 in
           completed (the_progress st')
           = completed (the_progress st) ++ (if ok then [slug c] else [])
           ∧ failed (the_progress st')
             = failed (the_progress st) ++ (if ok then [] else [slug c]).
Proof.
  intros Hw.
  pose proof (quiet_fetch_and_store rt env c (item_start n i c st)) as [_ Hx].
  destruct (fetch_and_store rt env c (item_start n i c st)) as [[[] | e | code] st1] eqn:Hf.
  - destruct (download_item_success n i c st st1 Hw Hf) as (st' & H1 & H2 & H3 & H4).
    exists st'. simpl. rewrite H2, H3, app_nil_r. auto.
  - destruct (download_item_failure n i c st e st1 Hw Hf) as (st' & H1 & H2 & H3 & H4).
    exists st'. simpl. rewrite H2, H3, app_nil_r. auto.
  - exfalso. apply (Hx code). reflexivity.
Qed.

End DownloadTurn.

(** ** The download loop and the whole run *)

Lemma succeeded_slugs_cons c (ok : bool) results :
  succeeded_slugs ((c, ok) :: results)
  = (if ok then [slug c] else []) ++ succeeded_slugs results.
Proof.
  unfold succeeded_slugs. rewrite filter_cons. simpl.
  destruct ok; case_decide; simpl in *; done.
Qed.

Lemma failed_slugs_cons c (ok : bool) results :
  failed_slugs ((c, ok) :: results)
  = (if ok then [] else [slug c]) ++ failed_slugs results.
Proof.
  unfold failed_slugs. rewrite filter_cons. simpl.
  destruct ok; case_decide; simpl in *; done.
Qed.

Lemma succeeded_slugs_all results :
  Forall (λ r, r.2 = true) results →
  succeeded_slugs results = slug <$> (fst <$> results).
Proof.
  induction 1 as [|[c ok] results Hok _ IH]; [reflexivity |].
  simpl in Hok. subst ok. rewrite succeeded_slugs_cons, IH. reflexivity.
Qed.

Section DownloadRun.

Variable rt : Runtime.
Variable env : Env.
Hypothesis writable : progress_writable env.

Lemma download_loop_run n i items st :
  ∃ st', download_loop rt env n i items st = (Ok tt, st')
         ∧ let results := item_results rt env n i items st in
           fst <$> results = items
           ∧ completed (the_progress st')
             = completed (the_progress st) ++ succeeded_slugs results
           ∧ failed (the_progress st')
             = failed (the_progress st) ++ failed_slugs results
           ∧ (items ≠ [] → persisted rt st').
Proof.
  revert i st. induction items as [|c rest IH]; intros i st.
  - exists st. simpl. rewrite !app_nil_r. tauto.
  - destruct (download_item_turn rt env n i c st writable)
      as (st1 & Hturn & Hpers & Hc & Hf).
    destruct (IH (S i) st1) as (st' & Hloop & Hfst & Hc' & Hf' & Hpers').
    exists st'. cbn [download_loop item_results].
    rewrite run_bind, Hturn. split; [exact Hloop |].
    cbv zeta. cbn [snd fst].
    rewrite succeeded_slugs_cons, failed_slugs_cons, fmap_cons. cbn [fst].
    rewrite Hfst, Hc', Hf', Hc, Hf, <- !app_assoc.
    repeat split; try reflexivity.
    intros _. destruct rest as [|c' rest'].
    + simpl in Hloop. injection Hloop as <-. exact Hpers.
    + apply Hpers'. discriminate.
Qed.

(** [loadProgress] always answers. *)
Lemma loadProgress_answers st : ∃ p, (loadProgress rt env st).1 = Ok p.
Proof.
  unfold loadProgress. rewrite run_try_catch, run_bind, readFile_cases. cbv zeta.
  destruct (env_fs_fails env (trace st) _); [eexists; reflexivity |].
  destruct (files st !! PROGRESS_FILE) as [data |]; [| eexists; reflexivity].
  destruct (JSON_parse_Progress rt data); eexists; reflexivity.
Qed.

(** The prologue never fails; it leaves the loaded record as the progress
    object and answers the work set computed from it. *)
Lemma download_prologue_run catalog st :
  ∃ p0 st0,
    download_prologue rt env catalog st = (Ok (remaining_of catalog p0), st0)
    ∧ the_progress st0 = p0.
Proof.
  unfold download_prologue. run.
  match goal with |- context [loadProgress rt env ?s] =>
    destruct (loadProgress_answers s) as [p0 Hp0] end.
  destruct (loadProgress rt env _) as [r st1]. simpl in Hp0. subst r.
  run. exists p0. eexists. split; reflexivity.
Qed.

(** The record the prologue works from is the one [loadProgress] gave. *)
Lemma download_prologue_loads catalog st p0 st0 :
  download_prologue rt env catalog st = (Ok (remaining_of catalog p0), st0) →
  the_progress st0 = p0 →
  (loadProgress rt env
     (add_event (EvLog (MsgTotal (totalComponents catalog)))
        (add_event (EvLog MsgStartDownload) st))).1 = Ok (the_progress st0).
Proof.
  intros Hpro _. revert Hpro. unfold download_prologue. run.
  match goal with |- context [loadProgress rt env ?s] =>
    destruct (loadProgress_answers s) as [p Hp] end.
  destruct (loadProgress rt env _) as [r st1]. simpl in Hp. subst r.
  run. intros H. injection H as _ <-. reflexivity.
Qed.

Lemma downloadComponents_run catalog st :
  ∃ p0 st0 st',
    download_prologue rt env catalog st = (Ok (remaining_of catalog p0), st0)
    ∧ the_progress st0 = p0
    ∧ downloadComponents rt env catalog st = (Ok tt, st')
    ∧ let remaining := remaining_of catalog p0 in
      let results := item_results rt env (length remaining) 0 remaining st0 in
      fst <$> results = remaining
      ∧ completed (the_progress st') = completed p0 ++ succeeded_slugs results
      ∧ failed (the_progress st') = failed p0 ++ failed_slugs results
      ∧ (remaining ≠ [] → persisted rt st').
Proof.
  destruct (download_prologue_run catalog st) as (p0 & st0 & Hpro & Hp0).
  destruct (download_loop_run (length (remaining_of catalog p0)) 0
              (remaining_of catalog p0) st0)
    as (st1 & Hloop & Hfst & Hc & Hf & Hpers).
  exists p0, st0. eexists. split; [exact Hpro |]. split; [exact Hp0 |].
  unfold downloadComponents. rewrite run_bind, Hpro, run_bind, Hloop.
  unfold download_epilogue. run. split; [reflexivity |].
  cbv zeta. rewrite Hp0 in Hc, Hf.
  split; [exact Hfst |]. split; [exact Hc |]. split; [exact Hf |].
  intros Hne. exact (Hpers Hne).
Qed.

End DownloadRun.

Section Isolation.

Variable rt : Runtime.
Variable env : Env.

(** The turn of an entry whose steps throw is the save of the handler. *)
Lemma download_item_handler n i c st e st1 :
  fetch_and_store rt env c (item_start n i c st) = (Throw e, st1) →
  download_item rt env n i c st
  = saveProgress rt env
      (set_progress (push_failed (slug c) (the_progress st))
         (add_event (EvError (MsgFailed e)) st1)).
Proof.
  intros Hf.
  pose proof (quiet_fetch_and_store rt env c (item_start n i c st)) as [Hp _].
  rewrite Hf in Hp. cbn [snd item_start add_event the_progress] in Hp.
  unfold download_item. rewrite run_bind, run_console_log.
  fold (item_start n i c st). rewrite run_try_catch, run_bind, Hf.
  rewrite run_bind, run_console_error, run_bind, run_modify_progress.
  cbn [add_event the_progress]. rewrite Hp. reflexivity.
Qed.

(** What the typed reader answers on a document at its declared type is
    what [JSON.parse] answers. *)
Lemma loadProgress_at_type st data v :
  progress_at_type rt st →
  files st !! PROGRESS_FILE = Some data →
  JSON_parse rt data = Some v →
  ∀ st1 p, files st1 = files st → (loadProgress rt env st1).1 = Ok p →
           env_fs_fails env (trace st1) (OpReadFile PROGRESS_FILE) = false →
           v = progress_value p.
Proof.
  intros Htype Hfile Hparse st1 p Hsame Hload Hread.
  specialize (Htype data Hfile). rewrite Hparse in Htype.
  destruct Htype as (p' & -> & Htyped).
  revert Hload. unfold loadProgress.
  rewrite run_try_catch, run_bind, readFile_cases. cbv zeta.
  rewrite Hread, Hsame, Hfile, Htyped. cbn [fst]. intros H. injection H as <-.
  reflexivity.
Qed.

(** C2, as the code has it.  When the steps of an entry throw, whatever
    the error, the handler appends the slug of that entry to [failed] and
    saves progress, and that save is not guarded.  If the write is
    accepted, the slug of that entry and no other has been appended to
    [failed], nothing to [completed], progress is on disk and the turn
    ends normally.  If the write is rejected, the turn throws the error
    of the write, the loop ends with it at once, whatever entries remain,
    and a loop that throws ends the run.  So, provided that writing
    [progress.json] is never rejected and that the document on disk is
    at its declared type, a whole run ends normally: it works from the
    record [JSON.parse] answered, and it has appended every remaining
    slug once, to [completed] if its steps succeeded and to [failed] if
    not, and has saved the result. *)
Theorem failure_is_isolated :
  (∀ n i c st e st1,
     fetch_and_store rt env c (item_start n i c st) = (Throw e, st1) →
     let at_save := trace st1 ++ [EvError (MsgFailed e)] in
     let p := stamp (env_now env at_save) (push_failed (slug c) (the_progress st)) in
     let write := OpWriteFile PROGRESS_FILE (JSON_stringify_Progress rt p) in
     (env_fs_fails env at_save write = false →
      ∃ st', download_item rt env n i c st = (Ok tt, st')
             ∧ completed (the_progress st') = completed (the_progress st)
             ∧ failed (the_progress st') = failed (the_progress st) ++ [slug c]
             ∧ persisted rt st')
     ∧ (env_fs_fails env at_save write = true →
        ∃ st', download_item rt env n i c st = (Throw (FsError write), st')
               ∧ ∀ rest, download_loop rt env n i (c :: rest) st
                         = (Throw (FsError write), st')))
  ∧ (∀ catalog st remaining st0 e st',
       download_prologue rt env catalog st = (Ok remaining, st0) →
       download_loop rt env (length remaining) 0 remaining st0 = (Throw e, st') →
       downloadComponents rt env catalog st = (Throw e, st'))
  ∧ (progress_writable env →
     ∀ catalog st,
       progress_at_type rt st →
       ∃ p0 st0 st',
         download_prologue rt env catalog st = (Ok (remaining_of catalog p0), st0)
         ∧ the_progress st0 = p0
         ∧ (∀ data v,
              files st !! PROGRESS_FILE = Some data →
              env_fs_fails env
                (trace st ++ [EvLog MsgStartDownload;
                              EvLog (MsgTotal (totalComponents catalog))])
                (OpReadFile PROGRESS_FILE) = false →
              JSON_parse rt data = Some v →
              v = progress_value p0)
         ∧ downloadComponents rt env catalog st = (Ok tt, st')
         ∧ let remaining := remaining_of catalog p0 in
           let results := item_results rt env (length remaining) 0 remaining st0 in
           fst <$> results = remaining
           ∧ completed (the_progress st') = completed p0 ++ succeeded_slugs results
           ∧ failed (the_progress st') = failed p0 ++ failed_slugs results
           ∧ (remaining ≠ [] → persisted rt st')).
Proof.
  split; [| split].
  - intros n i c st e st1 Hf. cbv zeta.
    rewrite (download_item_handler n i c st e st1 Hf), saveProgress_run. cbv zeta.
    cbn [trace add_event set_progress the_progress].
    split; intros Hw; rewrite Hw.
    + eexists. split; [reflexivity |].
      cbn [the_progress set_files add_event set_progress stamp push_failed
           completed failed].
      split; [reflexivity |]. split; [reflexivity |].
      unfold persisted. cbn [files set_files the_progress add_event set_progress].
      apply lookup_insert_eq.
    + eexists. split; [reflexivity |].
      intros rest. cbn [download_loop].
      rewrite run_bind, (download_item_handler n i c st e st1 Hf), saveProgress_run.
      cbv zeta. cbn [trace add_event set_progress the_progress]. rewrite Hw.
      reflexivity.
  - intros catalog st remaining st0 e st' Hpro Hloop.
    unfold downloadComponents. rewrite run_bind, Hpro, run_bind, Hloop. reflexivity.
  - intros Hw catalog st Htype.
    destruct (downloadComponents_run rt env Hw catalog st)
      as (p0 & st0 & st' & Hpro & Hp0 & Hrun & Hres).
    exists p0, st0, st'. split; [exact Hpro |]. split; [exact Hp0 |].
    split; [| split; [exact Hrun | exact Hres]].
    intros data v Hfile Hread Hparse.
    pose proof (download_prologue_loads rt env catalog st p0 st0 Hpro Hp0) as Hload.
    rewrite Hp0 in Hload.
    refine (loadProgress_at_type st data v Htype Hfile Hparse _ p0 _ Hload _).
    + reflexivity.
    + cbn [trace add_event]. rewrite <- app_assoc. exact Hread.
Qed.

End Isolation.

(** ** The work set of a run *)

Section WorkSet.

Variable rt : Runtime.
Variable env : Env.

(** Whatever a turn comes to, [completed] has grown by the slug exactly
    when the steps before the progress update succeeded; and a turn does
    not end the process. *)
Lemma download_item_completed n i c st :
  completed (the_progress (download_item rt env n i c st).2)
  = completed (the_progress st)
    ++ (if is_ok (fetch_and_store rt env c (item_start n i c st)).1
        then [slug c] else [])
  ∧ ∀ code, (download_item rt env n i c st).1 ≠ Exit code.
Proof.
  pose proof (quiet_fetch_and_store rt env c (item_start n i c st)) as [Hp Hx].
  unfold download_item. rewrite run_bind, run_console_log.
  fold (item_start n i c st). rewrite run_try_catch, run_bind.
  destruct (fetch_and_store rt env c (item_start n i c st)) as [[[] | e | code] st1];
    cbn [fst snd is_ok] in *; [| | exfalso; apply (Hx code); reflexivity].
  - run. rewrite saveProgress_run. cbv zeta.
    destruct (env_fs_fails env _ _).
    + run. rewrite saveProgress_run. cbv zeta.
      destruct (env_fs_fails env _ _); simpl; rewrite Hp;
        (split; [reflexivity | discriminate]).
    + unfold when. destruct (Z.of_nat i <? Z.of_nat n - 1)%Z; run; simpl;
        rewrite Hp; (split; [reflexivity | discriminate]).
  - run. rewrite saveProgress_run. cbv zeta.
    destruct (env_fs_fails env _ _); simpl; rewrite Hp, app_nil_r;
      (split; [reflexivity | discriminate]).
Qed.

Lemma item_results_entries n i items st :
  fst <$> item_results rt env n i items st = items.
Proof.
  revert i st. induction items as [|c rest IH]; intros i st; [reflexivity |].
  cbn [item_results]. rewrite fmap_cons, IH. reflexivity.
Qed.

(** In a loop that ends normally every entry had its turn, and
    [completed] has grown by the slugs of the entries whose steps
    succeeded. *)
Lemma download_loop_completed n i items st st' :
  download_loop rt env n i items st = (Ok tt, st') →
  completed (the_progress st')
  = completed (the_progress st)
    ++ succeeded_slugs (item_results rt env n i items st).
Proof.
  revert i st. induction items as [|c rest IH]; intros i st.
  - simpl. intros H. injection H as <-. rewrite app_nil_r. reflexivity.
  - cbn [download_loop item_results]. rewrite run_bind.
    destruct (download_item_completed n i c st) as [Hc Hx].
    destruct (download_item rt env n i c st) as [[[] | e | code] st1];
      cbn [fst snd] in *; try discriminate.
    intros Hloop. rewrite (IH _ _ Hloop), Hc, succeeded_slugs_cons, app_assoc.
    reflexivity.
Qed.

(** C1. The work set of a download run is made of the catalog entries
    whose slug is neither completed nor failed, in catalog order: there
    are as many as the catalog has entries, less those whose slug is in
    one of the two lists; none of them has its slug in either list; and
    for a catalog without repeated slugs the entries left out are as many
    as the slugs the catalog shares with the union of the two sets.  A
    run computes it in its prologue, from the record [loadProgress]
    gives. *)
Theorem remaining_of_spec :
  (∀ (catalog : Catalog) (progress : Progress),
     let remaining := remaining_of catalog progress in
     let resolved :=
       λ c, (slug c ∈ completed progress) ∨ (slug c ∈ failed progress) in
     let C : gset (list N) := list_to_set (completed progress) in
     let F : gset (list N) := list_to_set (failed progress) in
     length remaining
     = (length (components catalog)
        - length (filter resolved (components catalog)))%nat
     ∧ (∀ c, c ∈ remaining ↔
             c ∈ components catalog
             ∧ (slug c ∉ completed progress) ∧ (slug c ∉ failed progress))
     ∧ remaining `sublist_of` components catalog
     ∧ (NoDup (slug <$> components catalog) →
        length remaining
        = (length (components catalog)
           - size ((list_to_set (slug <$> components catalog) : gset (list N))
                   ∩ (C ∪ F)))%nat))
  ∧ (∀ (catalog : Catalog) (st : State),
       ∃ progress st0,
         (loadProgress rt env
            (add_event (EvLog (MsgTotal (totalComponents catalog)))
               (add_event (EvLog MsgStartDownload) st))).1 = Ok progress
         ∧ download_prologue rt env catalog st
           = (Ok (remaining_of catalog progress), st0)
         ∧ the_progress st0 = progress).
Proof.
  split.
  - intros catalog progress. cbv zeta.
    assert (length (remaining_of catalog progress)
            = length (components catalog)
              - length (filter (λ c, (slug c ∈ completed progress)
                                     ∨ (slug c ∈ failed progress))
                          (components catalog)))%nat as Hlen.
    { symmetry. apply Nat.add_sub_eq_r.
      apply length_filter_complement. intros c. tauto. }
    split; [exact Hlen |]. split; [| split].
    + intros c. unfold remaining_of. rewrite list_elem_of_filter. tauto.
    + apply sublist_filter.
    + intros Hnd. rewrite Hlen. f_equal.
      rewrite <- (length_filter_slugs _ _ Hnd). f_equal.
      apply list_filter_iff.
      intros c. rewrite elem_of_union, !elem_of_list_to_set. tauto.
  - intros catalog st.
    destruct (download_prologue_run rt env catalog st) as (p0 & st0 & Hpro & Hp0).
    exists p0, st0. split; [| split; assumption].
    rewrite (download_prologue_loads rt env catalog st p0 st0 Hpro Hp0), Hp0.
    reflexivity.
Qed.

(** C9.  The work set is computed once, in the prologue, from the
    progress record as loaded: every entry of the catalog whose slug that
    record does not hold is in it, entries that repeat a slug included.
    In a run that ends normally each entry of the set had its own turn
    whatever the turns before it appended, and [completed] has grown by
    the slugs of the entries whose steps succeeded; when all succeeded it
    has grown by the slugs of the work set, so that a slug carried by two
    entries is appended twice.  A run ends normally whenever
    [progress.json] can be written. *)
Theorem work_set_is_fixed (catalog : Catalog) (st : State) :
  ∃ p0 st0,
    download_prologue rt env catalog st = (Ok (remaining_of catalog p0), st0)
    ∧ the_progress st0 = p0
    ∧ let remaining := remaining_of catalog p0 in
      let results := item_results rt env (length remaining) 0 remaining st0 in
      fst <$> results = remaining
      ∧ (∀ s, s ∉ completed p0 → s ∉ failed p0 →
              filter (λ c, slug c = s) remaining
              = filter (λ c, slug c = s) (components catalog))
      ∧ (∀ st',
           downloadComponents rt env catalog st = (Ok tt, st') →
           completed (the_progress st') = completed p0 ++ succeeded_slugs results
           ∧ (Forall (λ r, r.2 = true) results →
              completed (the_progress st') = completed p0 ++ (slug <$> remaining)))
      ∧ (progress_writable env →
         ∃ st', downloadComponents rt env catalog st = (Ok tt, st')).
Proof.
  destruct (download_prologue_run rt env catalog st) as (p0 & st0 & Hpro & Hp0).
  exists p0, st0. split; [exact Hpro |]. split; [exact Hp0 |]. cbv zeta.
  split; [apply item_results_entries |]. split; [| split].
  - intros s Hs1 Hs2. unfold remaining_of. rewrite list_filter_filter.
    apply list_filter_iff. intros c. split; [tauto |].
    intros ->. tauto.
  - intros st' Hrun.
    assert (completed (the_progress st')
            = completed p0
              ++ succeeded_slugs
                   (item_results rt env (length (remaining_of catalog p0)) 0
                      (remaining_of catalog p0) st0)) as Hc.
    { revert Hrun. unfold downloadComponents. rewrite run_bind, Hpro, run_bind.
      destruct (download_loop rt env _ 0 _ st0) as [[[] | e | code] st1] eqn:Hloop;
        try discriminate.
      unfold download_epilogue. run. intros H. injection H as <-.
      simpl. rewrite (download_loop_completed _ _ _ _ _ Hloop), Hp0. reflexivity. }
    split; [exact Hc |].
    intros Hall. rewrite Hc, (succeeded_slugs_all _ Hall), item_results_entries.
    reflexivity.
  - intros Hw.
    destruct (downloadComponents_run rt env Hw catalog st)
      as (_ & _ & st' & _ & _ & Hrun & _).
    exists st'. exact Hrun.
Qed.

End WorkSet.

(** C1 on a catalog of three where the first slug is completed and the
    third failed: the second entry is the work set. *)
Lemma remaining_of_witness :
  let catalog := Demo.catalog_of [Demo.item (js "1"); Demo.item (js "2"); Demo.item (js "3")] in
  let progress := {| completed := [js "navbar-1"]; failed := [js "navbar-3"];
                     lastUpdated := [] |} in
  NoDup (slug <$> components catalog)
  ∧ remaining_of catalog progress = [Demo.item (js "2")]
  ∧ length (remaining_of catalog progress)
    = (3 - size ((list_to_set (slug <$> components catalog) : gset (list N))
                 ∩ (list_to_set (completed progress) ∪ list_to_set (failed progress))))%nat.
Proof.
  cbv zeta.
  assert (NoDup (slug <$> components
            (Demo.catalog_of [Demo.item (js "1"); Demo.item (js "2"); Demo.item (js "3")])))
    as Hnd.
  { apply (bool_decide_unpack _). vm_compute. exact I. }
  split; [exact Hnd |]. split; [vm_compute; reflexivity |].
  exact (proj2 (proj2 (proj2
           (proj1 (remaining_of_spec Demo.rt (Demo.world Demo.no_faults)) _ _))) Hnd).
Defined.

(** C9 on a catalog that lists the same component twice, in a world
    without faults: both entries get their turn and the slug is appended
    to [completed] twice. *)
Lemma work_set_is_fixed_witness :
  let env := Demo.world Demo.no_faults in
  let catalog := Demo.catalog_of [Demo.item (js "1"); Demo.item (js "1")] in
  progress_writable env
  ∧ ∃ st', downloadComponents Demo.rt env catalog Demo.start = (Ok tt, st')
           ∧ completed (the_progress st') = [js "navbar-1"; js "navbar-1"]
           ∧ failed (the_progress st') = [].
Proof.
  cbv zeta.
  assert (progress_writable (Demo.world Demo.no_faults)) as Hw.
  { intros tr data. reflexivity. }
  split; [exact Hw |].
  destruct (work_set_is_fixed Demo.rt (Demo.world Demo.no_faults)
              (Demo.catalog_of [Demo.item (js "1"); Demo.item (js "1")]) Demo.start)
    as (p0 & st0 & Hpro & Hp0 & _ & _ & Hdone & Hends).
  destruct (Hends Hw) as [st' Hrun].
  exists st'. split; [exact Hrun |].
  destruct (Hdone st' Hrun) as [_ Hall].
  assert (st0 = (download_prologue Demo.rt (Demo.world Demo.no_faults)
                   (Demo.catalog_of [Demo.item (js "1"); Demo.item (js "1")])
                   Demo.start).2) as Hst0
    by (rewrite Hpro; reflexivity).
  subst p0. rewrite Hst0 in Hall.
  split.
  - rewrite Hall; [vm_compute; reflexivity |].
    apply (bool_decide_unpack _). vm_compute. exact I.
  - vm_compute in Hrun. injection Hrun as <-. reflexivity.
Defined.

(** C2 as stated fails when [progress.json] cannot be written: the first
    entry fails, the write in the handler is rejected, and the error
    leaves the loop; the second entry never gets its turn. *)
Lemma failure_aborts_when_progress_unwritable :
  let c1 := Demo.item (js "1") in
  let c2 := Demo.item (js "2") in
  let gone := ExecError (js "net::ERR_CONNECTION_RESET") in
  let data := JSON_stringify_Progress Demo.rt
                {| completed := []; failed := [js "navbar-1"];
                   lastUpdated := js "2024-01-01T00:00:00.000Z" |} in
  let r := downloadComponents Demo.rt (Demo.world Demo.first_unreachable_disk_full)
             (Demo.catalog_of [c1; c2]) Demo.start in
  r.1 = Throw (FsError (OpWriteFile PROGRESS_FILE data))
  ∧ trace r.2 =
      [EvLog MsgStartDownload; EvLog (MsgTotal 2);
       EvFs (OpReadFile PROGRESS_FILE);
       EvLog (MsgAlreadyCompleted 0); EvLog (MsgFailedSoFar 0);
       EvLog (MsgRemaining 2);
       EvLog (MsgItem 1 2 (name c1) (slug c1));
       EvLog (MsgNavigating (componentUrl c1));
       EvExec (navigate_command (componentUrl c1));
       EvError (MsgBrowserCommandFailed gone);
       EvError (MsgFailed gone);
       EvFs (OpWriteFile PROGRESS_FILE data)].
Proof. vm_compute. repeat split. Qed.

(** C2 in the scenario of the specification: three entries, the page of
    the second does not load.  The run ends normally with the second slug
    in [failed] and the other two in [completed]; the source file and the
    image exist for the first and the third entry only.  And on two
    entries of which the page of the first does not load: where
    [progress.json] can be written the turn of the first ends normally
    with its slug in [failed]; where it cannot, the turn, the loop and the
    run throw the error of the write. *)
Lemma failure_is_isolated_witness :
  let env := Demo.world Demo.second_unreachable in
  let catalog := Demo.catalog_of
                   [Demo.item (js "1"); Demo.item (js "2"); Demo.item (js "3")] in
  let c1 := Demo.item (js "1") in
  let c2 := Demo.item (js "2") in
  let fine := Demo.world Demo.first_unreachable in
  let full := Demo.world Demo.first_unreachable_disk_full in
  let write := OpWriteFile PROGRESS_FILE
                 (JSON_stringify_Progress Demo.rt
                    {| completed := []; failed := [js "navbar-1"];
                       lastUpdated := js "2024-01-01T00:00:00.000Z" |}) in
  progress_writable env
  ∧ progress_at_type Demo.rt Demo.start
  ∧ (∃ st', downloadComponents Demo.rt env catalog Demo.start = (Ok tt, st')
            ∧ completed (the_progress st') = [js "navbar-1"; js "navbar-3"]
            ∧ failed (the_progress st') = [js "navbar-2"]
            ∧ persisted Demo.rt st'
            ∧ (λ path, bool_decide (is_Some (files st' !! path))) <$>
                [js "components/marketing/navbars/Navbar1.tsx";
                 js "components/marketing/navbars/Navbar1.png";
                 js "components/marketing/navbars/Navbar2.tsx";
                 js "components/marketing/navbars/Navbar2.png";
                 js "components/marketing/navbars/Navbar3.tsx";
                 js "components/marketing/navbars/Navbar3.png"]
              = [true; true; false; false; true; true])
  ∧ (∃ st', download_item Demo.rt fine 2 0 c1 Demo.start = (Ok tt, st')
            ∧ failed (the_progress st') = [js "navbar-1"])
  ∧ (∃ st', download_loop Demo.rt full 2 0 [c1; c2] Demo.start
            = (Throw (FsError write), st'))
  ∧ (downloadComponents Demo.rt full (Demo.catalog_of [c1; c2]) Demo.start).1
    = Throw (FsError write).
Proof.
  cbv zeta.
  assert (progress_writable (Demo.world Demo.second_unreachable)) as Hw.
  { intros tr data. reflexivity. }
  assert (progress_at_type Demo.rt Demo.start) as Ht.
  { intros data Hfile. discriminate Hfile. }
  split; [exact Hw |]. split; [exact Ht |]. split; [| split; [| split]].
  - destruct (proj2 (proj2 (failure_is_isolated Demo.rt _)) Hw
                (Demo.catalog_of
                   [Demo.item (js "1"); Demo.item (js "2"); Demo.item (js "3")])
                Demo.start Ht)
      as (p0 & st0 & st' & _ & _ & _ & Hrun & _ & _ & _ & Hpers).
    exists st'. split; [exact Hrun |].
    vm_compute in Hrun. injection Hrun as <-.
    split; [vm_compute; reflexivity |]. split; [vm_compute; reflexivity |].
    split; [vm_compute; reflexivity |].
    vm_compute. reflexivity.
  - destruct (proj1 (proj1 (failure_is_isolated Demo.rt
                              (Demo.world Demo.first_unreachable))
                       2%nat 0%nat (Demo.item (js "1")) Demo.start
                       (ExecError (js "net::ERR_CONNECTION_RESET"))
                       (fetch_and_store Demo.rt (Demo.world Demo.first_unreachable)
                          (Demo.item (js "1"))
                          (item_start 2 0 (Demo.item (js "1")) Demo.start)).2
                       ltac:(vm_compute; reflexivity)))
      as (st' & Hturn & _ & Hfailed & _); [reflexivity |].
    exists st'. split; [exact Hturn | exact Hfailed].
  - destruct (proj2 (proj1 (failure_is_isolated Demo.rt
                              (Demo.world Demo.first_unreachable_disk_full))
                       2%nat 0%nat (Demo.item (js "1")) Demo.start
                       (ExecError (js "net::ERR_CONNECTION_RESET"))
                       (fetch_and_store Demo.rt
                          (Demo.world Demo.first_unreachable_disk_full)
                          (Demo.item (js "1"))
                          (item_start 2 0 (Demo.item (js "1")) Demo.start)).2
                       ltac:(vm_compute; reflexivity)))
      as (st' & _ & Hloop); [reflexivity |].
    exists st'. exact (Hloop [Demo.item (js "2")]).
  - rewrite (proj1 (proj2 (failure_is_isolated Demo.rt
                             (Demo.world Demo.first_unreachable_disk_full)))
               (Demo.catalog_of [Demo.item (js "1"); Demo.item (js "2")]) Demo.start
               [Demo.item (js "1"); Demo.item (js "2")]
               (download_prologue Demo.rt (Demo.world Demo.first_unreachable_disk_full)
                  (Demo.catalog_of [Demo.item (js "1"); Demo.item (js "2")])
                  Demo.start).2
               (FsError (OpWriteFile PROGRESS_FILE
                 (JSON_stringify_Progress Demo.rt
                    {| completed := []; failed := [js "navbar-1"];
                       lastUpdated := js "2024-01-01T00:00:00.000Z" |})))
               (download_loop Demo.rt (Demo.world Demo.first_unreachable_disk_full) 2 0
                  [Demo.item (js "1"); Demo.item (js "2")]
                  (download_prologue Demo.rt
                     (Demo.world Demo.first_unreachable_disk_full)
                     (Demo.catalog_of [Demo.item (js "1"); Demo.item (js "2")])
                     Demo.start).2).2);
      [reflexivity | vm_compute; reflexivity | vm_compute; reflexivity].
Defined.

(** ** Files written before a failure *)

Section Artifacts.

Variable rt : Runtime.
Variable env : Env.

(** When [write_source] succeeds the source file is on disk, made of a
    header and the code. *)
Lemma write_source_ok c r st1 st2 :
  write_source rt env c r st1 = (Ok tt, st2) →
  ∃ header, files st2 !! componentPath rt c = Some (header ++ ToString (code r)).
Proof.
  unfold write_source, ensureDir, mkdir. rewrite run_bind. unfold fs_call at 1.
  destruct (env_fs_fails env (trace st1) _); [discriminate |].
  rewrite run_bind.
  destruct (metadataHeader c (details r) _) as [[header | e | code] st] eqn:Hh;
    try discriminate.
  rewrite run_bind, writeFile_cases. cbv zeta.
  destruct (env_fs_fails env (trace st) _); [discriminate |].
  rewrite run_console_log. intros H. injection H as <-.
  exists header. simpl. apply lookup_insert_eq.
Qed.

(** When [copy_screenshot] throws no file has changed. *)
Lemma copy_screenshot_throws c r st2 e st3 :
  copy_screenshot rt env c r st2 = (Throw e, st3) → files st3 = files st2.
Proof.
  unfold copy_screenshot, copyFile. rewrite run_bind.
  destruct (screenshotPath r) as [| | | | src | |];
    try (unfold throw; intros H; injection H as _ <-; reflexivity).
  rewrite run_bind. unfold fs_call.
  destruct (env_fs_fails env (trace st2) _).
  { intros H. injection H as _ <-. reflexivity. }
  rewrite run_bind. unfold contents. simpl.
  destruct (files st2 !! src).
  - unfold store. rewrite run_console_log. discriminate.
  - intros H. injection H as _ <-. reflexivity.
Qed.

(** C10.  The source file is written before the screenshot is copied.
    When the copy (or the message after it) throws, the turn puts the slug
    in [failed] and leaves [completed] alone, while the source file, which
    was on disk when the copy began, is still there when the turn is
    over.  When [progress.json] can be written the turn ends normally and
    the failure is saved. *)
Theorem source_file_survives_failure (n i : nat) (c : ComponentInfo)
  (st st1 st2 st3 : State) (r : Retrieved) (e : exn) :
  retrieve rt env c (item_start n i c st) = (Ok r, st1) →
  write_source rt env c r st1 = (Ok tt, st2) →
  copy_screenshot rt env c r st2 = (Throw e, st3) →
  let st' := (download_item rt env n i c st).2 in
  is_Some (files st2 !! componentPath rt c)
  ∧ is_Some (files st' !! componentPath rt c)
  ∧ failed (the_progress st') = failed (the_progress st) ++ [slug c]
  ∧ completed (the_progress st') = completed (the_progress st)
  ∧ (progress_writable env →
     download_item rt env n i c st = (Ok tt, st') ∧ persisted rt st').
Proof.
  intros Hr Hw Hc.
  assert (fetch_and_store rt env c (item_start n i c st) = (Throw e, st3)) as Hf.
  { unfold fetch_and_store. rewrite run_bind, Hr, run_bind, Hw. exact Hc. }
  destruct (write_source_ok c r st1 st2 Hw) as [header Hfile].
  pose proof (copy_screenshot_throws c r st2 e st3 Hc) as Hfiles.
  pose proof (quiet_fetch_and_store rt env c (item_start n i c st)) as [Hp _].
  rewrite Hf in Hp. simpl in Hp.
  assert (download_item rt env n i c st
          = saveProgress rt env
              (set_progress (push_failed (slug c) (the_progress st3))
                 (add_event (EvError (MsgFailed e)) st3))) as Hturn.
  { unfold download_item. rewrite run_bind, run_console_log.
    fold (item_start n i c st). rewrite run_try_catch, run_bind, Hf.
    run. reflexivity. }
  cbv zeta. rewrite Hturn, saveProgress_run. cbv zeta.
  split; [rewrite Hfile; eauto |].
  destruct (env_fs_fails env _ _) eqn:Hfail.
  - split; [apply rejected_write_keeps; simpl; rewrite Hfiles, Hfile; eauto |].
    simpl. rewrite Hp.
    split; [reflexivity |]. split; [reflexivity |].
    intros Hwr. rewrite Hwr in Hfail. discriminate.
  - simpl. rewrite Hp.
    split; [| split; [reflexivity | split; [reflexivity |]]].
    + rewrite lookup_insert_is_Some', Hfiles, Hfile. eauto.
    + intros _. split; [reflexivity |].
      unfold persisted. simpl. apply lookup_insert_eq.
Qed.

End Artifacts.

(** C10 in a world where the screenshot answer names no file: the copy
    throws, the slug is in [failed], and [Navbar1.tsx] is on disk without
    [Navbar1.png]. *)
Lemma source_file_survives_failure_witness :
  let env := Demo.world Demo.screenshot_missing in
  let c := Demo.item (js "1") in
  let st' := (download_item Demo.rt env 1 0 c Demo.start).2 in
  (fetch_and_store Demo.rt env c (item_start 1 0 c Demo.start)).1
  = Throw (TypeError (js "src"))
  ∧ componentPath Demo.rt c = js "components/marketing/navbars/Navbar1.tsx"
  ∧ is_Some (files st' !! js "components/marketing/navbars/Navbar1.tsx")
  ∧ files st' !! js "components/marketing/navbars/Navbar1.png" = None
  ∧ failed (the_progress st') = [js "navbar-1"]
  ∧ completed (the_progress st') = [].
Proof.
  cbv zeta. split; [vm_compute; reflexivity |]. split; [vm_compute; reflexivity |].
  pose (env := Demo.world Demo.screenshot_missing).
  pose (c := Demo.item (js "1")).
  pose (s1 := retrieve Demo.rt env c (item_start 1 0 c Demo.start)).
  pose (r := {| code := VStr Demo.the_code;
                details := VObj [(js "reactVersion", VStr (js "18"));
                                 (js "tailwindVersion", VStr (js "3"));
                                 (js "lastUpdated", VStr (js "2024-01-01"))];
                screenshotPath := VUndefined |}).
  pose (s2 := write_source Demo.rt env c r s1.2).
  pose (s3 := copy_screenshot Demo.rt env c r s2.2).
  destruct (source_file_survives_failure Demo.rt env 1 0 c
              Demo.start s1.2 s2.2 s3.2 r (TypeError (js "src")))
    as (_ & Hsome & Hfailed & Hcompleted & _).
  - vm_compute. reflexivity.
  - vm_compute. reflexivity.
  - vm_compute. reflexivity.
  - split; [| split; [| split]].
    + exact Hsome.
    + vm_compute. reflexivity.
    + exact Hfailed.
    + exact Hcompleted.
Defined.

(** ** The entry point *)

Section EntryPoint.

Variable rt : Runtime.
Variable env : Env.

(** Loading reads the file once, whatever comes of it. *)
Lemma loadProgress_run st :
  ∃ p, loadProgress rt env st
       = (Ok p, add_event (EvFs (OpReadFile PROGRESS_FILE)) st).
Proof.
  unfold loadProgress. rewrite run_try_catch, run_bind, readFile_cases. cbv zeta.
  destruct (env_fs_fails env (trace st) _); [eexists; reflexivity |].
  destruct (files st !! PROGRESS_FILE) as [data |]; [| eexists; reflexivity].
  destruct (JSON_parse_Progress rt data); eexists; reflexivity.
Qed.

Lemma loadCatalog_run st :
  ∃ c, loadCatalog rt env st
       = (Ok c, add_event (EvFs (OpReadFile CATALOG_FILE)) st).
Proof.
  unfold loadCatalog. rewrite run_try_catch, run_bind, readFile_cases. cbv zeta.
  destruct (env_fs_fails env (trace st) _); [eexists; reflexivity |].
  destruct (files st !! CATALOG_FILE) as [data |]; [| eexists; reflexivity].
  destruct (JSON_parse_Catalog rt data); eexists; reflexivity.
Qed.


(** The [download] command on a catalog without components. *)
Lemma dispatch_download_empty rest st catalog st1 :
  loadCatalog rt env st = (Ok catalog, st1) →
  components catalog = [] →
  dispatch rt env (js "download" :: rest) st
  = (Exit 1, add_event (EvExit 1) (add_event (EvError MsgNoComponents) st1)).
Proof.
  intros Hload Hempty. unfold dispatch. cbn [lookup list_lookup].
  rewrite bool_decide_eq_false_2 by (vm_compute; congruence).
  rewrite bool_decide_eq_true_2 by reflexivity.
  rewrite run_bind, Hload, Hempty. simpl length.
  rewrite bool_decide_eq_true_2 by reflexivity.
  run. reflexivity.
Qed.


(** A process that exits inside the [switch] is gone. *)
Lemma main_after_exit args st code st1 :
  dispatch rt env args st = (Exit code, st1) →
  main rt env args st = (Exit code, st1).
Proof.
  intros Hd. unfold main. rewrite run_try_catch, run_bind, Hd. reflexivity.
Qed.


End EntryPoint.



(** ** Closing the browser *)

Lemma stateless_ret {A} (a : A) : stateless (mret a).
Proof. intros st. split; [reflexivity | discriminate]. Qed.

Lemma stateless_throw {A} (e : exn) : stateless (@throw A e).
Proof. intros st. split; [reflexivity | discriminate]. Qed.

Lemma stateless_bind {A B} (m : M A) (k : A → M B) :
  stateless m → (∀ a, stateless (k a)) → stateless (m ≫= k).
Proof.
  intros Hm Hk st. rewrite run_bind.
  destruct (Hm st) as [Hs Hx]. destruct (m st) as [[a | e | c] st1]; simpl in *; subst st1.
  - apply Hk.
  - split; [reflexivity | discriminate].
  - exfalso. apply (Hx c). reflexivity.
Qed.

Lemma stateless_get v k : stateless (get v k).
Proof. destruct v; first [apply stateless_throw | apply stateless_ret]. Qed.

Lemma stateless_parse rt text : stateless (parse rt text).
Proof.
  unfold parse. destruct (JSON_parse rt text);
    first [apply stateless_throw | apply stateless_ret].
Qed.

Section Closing.

Variable rt : Runtime.
Variable env : Env.

(** What [browserCommand] makes of the answer of the tool (lines 53-59)
    changes nothing. *)
Lemma stateless_answer stdout :
  stateless
    (result ← parse rt stdout;
     success ← get result (js "success");
     if negb (truthy success) then
       e ← get result (js "error");
       m ← get result (js "message");
       throw (Error (error_message (or_else e m)))
     else ret result).
Proof.
  apply stateless_bind; [apply stateless_parse |]. intros result.
  apply stateless_bind; [apply stateless_get |]. intros success.
  destruct (negb (truthy success)); [| apply stateless_ret].
  apply stateless_bind; [apply stateless_get |]. intros e.
  apply stateless_bind; [apply stateless_get |]. intros m.
  apply stateless_throw.
Qed.

(** Every [browserCommand] starts by running the command; it succeeds or
    throws. *)
Lemma browserCommand_starts command st :
  (∃ rest, trace (browserCommand rt env command st).2
           = trace st ++ EvExec command :: rest)
  ∧ ∀ code, (browserCommand rt env command st).1 ≠ Exit code.
Proof.
  split; [| apply quiet_browserCommand].
  unfold browserCommand. rewrite run_try_catch, run_bind. unfold execAsync.
  destruct (env_exec env (trace st) command) as [m | out written].
  - run. exists [EvError (MsgBrowserCommandFailed (ExecError m))].
    simpl. rewrite <- app_assoc. reflexivity.
  - match goal with |- context [(parse rt out ≫= ?k) ?s] =>
      destruct (stateless_answer out s) as [Hs Hx];
      destruct ((parse rt out ≫= k) s) as [[v | e | c] s'] end;
      cbn [snd fst] in Hs, Hx; subst s'.
    + exists []. reflexivity.
    + run. exists [EvError (MsgBrowserCommandFailed e)].
      simpl. rewrite <- app_assoc. reflexivity.
    + exfalso. apply (Hx c). reflexivity.
Qed.

(** The handler of [main] (lines 418-424): the error is reported, the
    close command is attempted, whatever it does is dropped, and the
    process exits with status 1. *)
Lemma main_handler_run (e : exn) st1 :
  ∃ st' rest,
    (console_error (MsgFatal e);;
     try_catch (browserCommand rt env close_command;; ret tt) (fun _ => ret tt);;
     process_exit 1 : M unit) st1 = (Exit 1, st')
    ∧ trace st' = trace st1
                  ++ EvError (MsgFatal e) :: EvExec close_command :: rest
                  ++ [EvExit 1].
Proof.
  run. rewrite run_try_catch, run_bind.
  destruct (browserCommand_starts close_command (add_event (EvError (MsgFatal e)) st1))
    as [[rest Htr] Hx].
  destruct (browserCommand rt env close_command _) as [[v | e' | c] s2];
    simpl in Htr; [| | exfalso; apply (Hx c); reflexivity];
    run; eexists; exists rest; (split; [reflexivity |]);
    simpl; rewrite Htr, <- !app_assoc; reflexivity.
Qed.

(** C4, as the code has it.  When the [switch] returns, the close command
    is the next thing attempted; if it succeeds the process ends normally,
    and if it fails the failure is reported as fatal, the close is
    attempted once more and the process exits with status 1.  When the
    [switch] throws, the error is reported, the close is attempted, its
    own failure is swallowed, and the process exits with status 1.  A
    process that exits inside the [switch] is gone at once: an unknown or
    absent command prints the usage and exits with status 1, and the
    [download] command with an empty catalog reports and exits with status
    1, neither attempting the close. *)
Theorem close_on_exit_paths :
  (∀ args st st1,
     dispatch rt env args st = (Ok tt, st1) →
     ∃ rest, trace (main rt env args st).2
             = trace st1 ++ EvExec close_command :: rest)
  ∧ (∀ args st st1 v st2,
       dispatch rt env args st = (Ok tt, st1) →
       browserCommand rt env close_command st1 = (Ok v, st2) →
       main rt env args st = (Ok tt, add_event (EvLog MsgAllDone) st2))
  ∧ (∀ args st st1 e st2,
       dispatch rt env args st = (Ok tt, st1) →
       browserCommand rt env close_command st1 = (Throw e, st2) →
       (main rt env args st).1 = Exit 1
       ∧ ∃ rest, trace (main rt env args st).2
                 = trace st2
                   ++ EvError (MsgFatal e) :: EvExec close_command :: rest
                   ++ [EvExit 1])
  ∧ (∀ args st e st1,
       dispatch rt env args st = (Throw e, st1) →
       (main rt env args st).1 = Exit 1
       ∧ ∃ rest, trace (main rt env args st).2
                 = trace st1
                   ++ EvError (MsgFatal e) :: EvExec close_command :: rest
                   ++ [EvExit 1])
  ∧ (∀ args st code st1,
       dispatch rt env args st = (Exit code, st1) →
       main rt env args st = (Exit code, st1))
  ∧ (∀ args st,
       ¬ known_command args →
       dispatch rt env args st
       = (Exit 1, add_event (EvExit 1) (add_event (EvLog MsgUsage) st)))
  ∧ (∀ rest st catalog st1,
       loadCatalog rt env st = (Ok catalog, st1) →
       components catalog = [] →
       dispatch rt env (js "download" :: rest) st
       = (Exit 1, add_event (EvExit 1) (add_event (EvError MsgNoComponents) st1))).
Proof.
  assert (∀ args st e st1 st2,
            dispatch rt env args st = (Ok tt, st1) →
            browserCommand rt env close_command st1 = (Throw e, st2) →
            (main rt env args st).1 = Exit 1
            ∧ ∃ rest, trace (main rt env args st).2
                      = trace st2
                        ++ EvError (MsgFatal e) :: EvExec close_command :: rest
                        ++ [EvExit 1]) as Hclose_fails.
  { intros args st e st1 st2 Hd Hc.
    unfold main. rewrite run_try_catch, run_bind, Hd, run_bind, Hc.
    destruct (main_handler_run e st2) as (st' & rest & Hrun & Htr).
    rewrite Hrun. split; [reflexivity |]. exists rest. exact Htr. }
  split; [| split; [| split; [| split; [| split; [| split]]]]].
  - intros args st st1 Hd.
    destruct (browserCommand_starts close_command st1) as [[rest Htr] Hx].
    destruct (browserCommand rt env close_command st1) as [[v | e | c] st2] eqn:Hc;
      simpl in Htr.
    + unfold main. rewrite run_try_catch, run_bind, Hd, run_bind, Hc. run.
      exists (rest ++ [EvLog MsgAllDone]). simpl.
      rewrite Htr, <- app_assoc. reflexivity.
    + destruct (Hclose_fails args st e st1 st2 Hd Hc) as [_ [rest' Htr']].
      rewrite Htr', Htr, <- app_assoc. simpl. eauto.
    + exfalso. apply (Hx c). reflexivity.
  - intros args st st1 v st2 Hd Hc.
    unfold main. rewrite run_try_catch, run_bind, Hd, run_bind, Hc. run. reflexivity.
  - intros args st st1 e st2. apply Hclose_fails.
  - intros args st e st1 Hd.
    unfold main. rewrite run_try_catch, run_bind, Hd.
    destruct (main_handler_run e st1) as (st' & rest & Hrun & Htr).
    rewrite Hrun. split; [reflexivity |]. exists rest. exact Htr.
  - apply main_after_exit.
  - intros args st Hunknown. unfold dispatch.
    destruct (args !! 0%nat) as [command |] eqn:Hcmd; [| run; reflexivity].
    repeat (case_bool_decide;
            [exfalso; apply Hunknown; exists command; split; [exact Hcmd | tauto] |]).
    run. reflexivity.
  - apply dispatch_download_empty.
Qed.

End Closing.

(** C4 as stated fails on the two exits inside the [switch]: without a
    command, with an unknown command, and with the [download] command on
    an empty disk, the process exits with status 1 and no close command
    was ever sent. *)
Lemma exits_without_closing :
  let run := λ args, main Demo.rt (Demo.world Demo.no_faults) args Demo.start in
  (run []).1 = Exit 1
  ∧ trace (run []).2 = [EvLog MsgUsage; EvExit 1]
  ∧ (run [js "help"]).1 = Exit 1
  ∧ trace (run [js "help"]).2 = [EvLog MsgUsage; EvExit 1]
  ∧ (run [js "download"]).1 = Exit 1
  ∧ trace (run [js "download"]).2
    = [EvFs (OpReadFile CATALOG_FILE); EvError MsgNoComponents; EvExit 1]
  ∧ existsb is_close (trace (run [js "download"]).2) = false.
Proof. vm_compute. repeat split. Qed.

(** C4 on three runs of the [all] command and one of an unknown command:
    in a world without faults the close follows the [switch]; when the
    browser tool cannot be started the [switch] throws, the close is
    attempted and fails, and the process exits with status 1 all the
    same. *)
Lemma close_on_exit_paths_witness :
  let fine := Demo.world Demo.no_faults in
  let down := Demo.world Demo.browser_is_down in
  let gone := ExecError (js "spawn browser ENOENT") in
  (∃ rest, trace (main Demo.rt fine [js "all"] Demo.start).2
           = trace (dispatch Demo.rt fine [js "all"] Demo.start).2
             ++ EvExec close_command :: rest)
  ∧ (main Demo.rt down [js "all"] Demo.start).1 = Exit 1
  ∧ (∃ rest, trace (main Demo.rt down [js "all"] Demo.start).2
             = trace (dispatch Demo.rt down [js "all"] Demo.start).2
               ++ EvError (MsgFatal gone) :: EvExec close_command :: rest
               ++ [EvExit 1])
  ∧ dispatch Demo.rt fine [js "help"] Demo.start
    = (Exit 1, add_event (EvExit 1) (add_event (EvLog MsgUsage) Demo.start)).
Proof.
  cbv zeta.
  destruct (close_on_exit_paths Demo.rt (Demo.world Demo.no_faults))
    as (Hok & _ & _ & _ & _ & Hunknown & _).
  destruct (close_on_exit_paths Demo.rt (Demo.world Demo.browser_is_down))
    as (_ & _ & _ & Hthrow & _).
  split; [| split; [| split]].
  - apply Hok. vm_compute. reflexivity.
  - refine (proj1 (Hthrow [js "all"] Demo.start
                     (ExecError (js "spawn browser ENOENT")) _ _)).
    vm_compute. reflexivity.
  - refine (proj2 (Hthrow [js "all"] Demo.start
                     (ExecError (js "spawn browser ENOENT")) _ _)).
    vm_compute. reflexivity.
  - apply Hunknown. intros (command & Hcmd & Hor).
    injection Hcmd as <-.
    destruct Hor as [H | [H | H]]; vm_compute in H; discriminate H.
Defined.

(** ** The rate-limit delay *)

Section RateLimit.

Variable rt : Runtime.
Variable env : Env.
Hypothesis writable : progress_writable env.

(** After the steps of an entry that is not the last one have succeeded,
    the turn ends with the rate-limit delay. *)
Lemma successful_turn_waits n i c st st1 :
  fetch_and_store rt env c (item_start n i c st) = (Ok tt, st1) →
  (i < n - 1)%nat →
  ∃ saved,
    trace (download_item rt env n i c st).2
    = trace st1 ++ [EvFs (OpWriteFile PROGRESS_FILE saved);
                    EvLog (MsgWaiting DELAY_MS); EvDelay DELAY_MS].
Proof.
  intros Hf Hi.
  unfold download_item. rewrite run_bind, run_console_log.
  fold (item_start n i c st).
  rewrite run_try_catch, run_bind, Hf. run.
  match goal with |- context [saveProgress rt env ?s] =>
    destruct (saveProgress_ok rt env s writable) as (st' & Hs & _ & _ & Htr) end.
  rewrite Hs. unfold when.
  replace (Z.of_nat i <? Z.of_nat n - 1)%Z with true
    by (symmetry; apply Z.ltb_lt; lia).
  run. eexists. simpl. rewrite Htr, <- !app_assoc. reflexivity.
Qed.

(** After the steps of an entry have thrown, the turn ends with the write
    of [progress.json]: there is no delay before the next turn. *)
Lemma failed_turn_does_not_wait n i c st e st1 :
  fetch_and_store rt env c (item_start n i c st) = (Throw e, st1) →
  ∃ saved,
    trace (download_item rt env n i c st).2
    = trace st1 ++ [EvError (MsgFailed e);
                    EvFs (OpWriteFile PROGRESS_FILE saved)].
Proof.
  intros Hf.
  unfold download_item. rewrite run_bind, run_console_log.
  fold (item_start n i c st).
  rewrite run_try_catch, run_bind, Hf. run.
  match goal with |- context [saveProgress rt env ?s] =>
    destruct (saveProgress_ok rt env s writable) as (st' & Hs & _ & _ & Htr) end.
  rewrite Hs. eexists. cbn [snd]. rewrite Htr. cbn [trace set_progress add_event].
  rewrite <- app_assoc. reflexivity.
Qed.

End RateLimit.

(** C5 at a catalog of two whose first page does not load: the turn of
    the first entry ends with the write of [progress.json], and the turn
    of the second entry follows at once; the run has no rate-limit delay
    at all. *)
Lemma no_delay_after_failed_item :
  let c1 := Demo.item (js "1") in
  let c2 := Demo.item (js "2") in
  let gone := ExecError (js "net::ERR_CONNECTION_RESET") in
  let saved := JSON_stringify_Progress Demo.rt
                 {| completed := []; failed := [js "navbar-1"];
                    lastUpdated := js "2024-01-01T00:00:00.000Z" |} in
  let r := downloadComponents Demo.rt (Demo.world Demo.first_unreachable)
             (Demo.catalog_of [c1; c2]) Demo.start in
  r.1 = Ok tt
  ∧ take 15 (trace r.2) =
      [EvLog MsgStartDownload; EvLog (MsgTotal 2);
       EvFs (OpReadFile PROGRESS_FILE);
       EvLog (MsgAlreadyCompleted 0); EvLog (MsgFailedSoFar 0);
       EvLog (MsgRemaining 2);
       EvLog (MsgItem 1 2 (name c1) (slug c1));
       EvLog (MsgNavigating (componentUrl c1));
       EvExec (navigate_command (componentUrl c1));
       EvError (MsgBrowserCommandFailed gone);
       EvError (MsgFailed gone);
       EvFs (OpWriteFile PROGRESS_FILE saved);
       EvLog (MsgItem 2 2 (name c2) (slug c2));
       EvLog (MsgNavigating (componentUrl c2));
       EvExec (navigate_command (componentUrl c2))]
  ∧ existsb is_rate_limit_wait (trace r.2) = false
  ∧ failed (the_progress r.2) = [js "navbar-1"]
  ∧ completed (the_progress r.2) = [js "navbar-2"].
Proof. vm_compute. repeat split. Qed.

(** * Further properties *)

(** ** Strings *)

Lemma upto_last_absent c t :
  Forall (λ x, x ≠ c) t → upto_last c t = None.
Proof.
  induction 1 as [|y t Hy _ IH]; [reflexivity |].
  simpl. rewrite IH. destruct (N.eqb_spec y c); [contradiction | reflexivity].
Qed.

Lemma upto_last_app c s t :
  Forall (λ x, x ≠ c) t → upto_last c (s ++ c :: t) = Some (s ++ [c]).
Proof.
  intros Ht. induction s as [|x s IH]; simpl.
  - rewrite (upto_last_absent c t Ht), N.eqb_refl. reflexivity.
  - rewrite IH. reflexivity.
Qed.

Lemma match_braces_skip before s :
  Forall (λ x, x ≠ 123) before → match_braces (before ++ s) = match_braces s.
Proof.
  induction 1 as [|x before Hx _ IH]; [reflexivity |].
  simpl. destruct (N.eqb_spec x 123); [contradiction | exact IH].
Qed.

(** X1.  The object embedded in an extraction message is found whole:
    when no opening brace comes before it and no closing brace after it,
    the match is the text from its opening to its closing brace, inner
    braces included; and a message without an opening brace, or without a
    closing brace, has no match. *)
Theorem match_braces_extracts :
  (∀ before body after,
     Forall (λ x, x ≠ 123) before →
     Forall (λ x, x ≠ 125) after →
     match_braces (embedded before body after) = Some ([123] ++ body ++ [125]))
  ∧ (∀ s, Forall (λ x, x ≠ 123) s → match_braces s = None)
  ∧ (∀ s, Forall (λ x, x ≠ 125) s → match_braces s = None).
Proof.
  split; [| split].
  - intros before body after Hb Ha. unfold embedded.
    rewrite match_braces_skip by exact Hb.
    cbn [app match_braces]. rewrite N.eqb_refl.
    change (body ++ 125 :: after) with (body ++ 125 :: after).
    rewrite upto_last_app by exact Ha. reflexivity.
  - induction 1 as [|x s Hx _ IH]; [reflexivity |].
    simpl. destruct (N.eqb_spec x 123); [contradiction | exact IH].
  - induction 1 as [|x s Hx Hs IH]; [reflexivity |].
    simpl. rewrite IH, (upto_last_absent 125 s Hs).
    destruct (x =? 123); reflexivity.
Qed.

(** X1 on the message of the end-to-end scenario. *)
Lemma match_braces_extracts_witness :
  match_braces (js "Successfully extracted data: " ++ Demo.code_json ++ js " (1 field)")
  = Some Demo.code_json.
Proof.
  exact (proj1 match_braces_extracts
           (js "Successfully extracted data: ")
           (removelast (drop 1 Demo.code_json))
           (js " (1 field)")
           ltac:(apply (bool_decide_unpack _); vm_compute; exact I)
           ltac:(apply (bool_decide_unpack _); vm_compute; exact I)).
Defined.

Lemma split_on_app sep a b :
  split_on sep (a ++ sep :: b) = split_on sep a ++ split_on sep b.
Proof.
  induction a as [|c a IH]; simpl.
  - rewrite N.eqb_refl. reflexivity.
  - rewrite IH. destruct (c =? sep); [reflexivity |].
    pose proof (split_on_nonempty sep a) as Hne.
    destruct (split_on sep a) as [|p ps]; [congruence | reflexivity].
Qed.

Lemma split_on_parts sep s :
  Forall (Forall (λ c, c ≠ sep)) (split_on sep s).
Proof.
  induction s as [|c s IH]; simpl.
  - repeat constructor.
  - destruct (N.eqb_spec c sep); [constructor; [constructor | exact IH] |].
    destruct (split_on sep s) as [|p ps]; [repeat constructor; assumption |].
    apply Forall_cons in IH as [Hp Hps].
    constructor; [constructor; assumption | exact Hps].
Qed.

Lemma split_on_ascii sep s :
  Forall (λ c, c < 128) s → Forall (Forall (λ c, c < 128)) (split_on sep s).
Proof.
  induction 1 as [|c s Hc Hs IH]; simpl.
  - repeat constructor.
  - destruct (c =? sep); [constructor; [constructor | exact IH] |].
    destruct (split_on sep s) as [|p ps]; [repeat constructor; assumption |].
    apply Forall_cons in IH as [Hp Hps].
    constructor; [constructor; assumption | exact Hps].
Qed.

Section PascalCase.

Variable rt : Runtime.

Hypothesis toUpperCase_ascii :
  ∀ s, Forall (λ c, c < 128) s → toUpperCase rt s = List.map upper_ascii s.

Lemma capitalize_no_hyphen part :
  Forall (λ c, c < 128) part → Forall (λ c, c ≠ hyphen) part →
  Forall (λ c, c ≠ hyphen) (capitalize rt part).
Proof.
  intros Ha Hh. unfold capitalize. destruct part as [|c part]; cbn [take drop].
  - rewrite toUpperCase_ascii by constructor. constructor.
  - apply Forall_cons in Ha as [Hc Ha]. apply Forall_cons in Hh as [Hc' Hh].
    rewrite toUpperCase_ascii by (constructor; [exact Hc | constructor]).
    simpl. constructor; [chars | exact Hh].
Qed.

(** X2.  [toPascalCase] works part by part: the display form of two
    slugs joined by a hyphen is the display form of the first followed by
    that of the second; and the display form of an ASCII slug holds no
    hyphen. *)
Theorem toPascalCase_by_parts :
  (∀ a b, toPascalCase rt (a ++ hyphen :: b) = toPascalCase rt a ++ toPascalCase rt b)
  ∧ (∀ sl, Forall (λ c, c < 128) sl →
           Forall (λ c, c ≠ hyphen) (toPascalCase rt sl)).
Proof.
  split.
  - intros a b. unfold toPascalCase.
    rewrite split_on_app, fmap_app, concat_app. reflexivity.
  - intros sl Hsl. unfold toPascalCase.
    pose proof (split_on_parts hyphen sl) as Hparts.
    pose proof (split_on_ascii hyphen sl Hsl) as Hascii.
    induction Hparts as [|p ps Hp _ IH]; [constructor |].
    apply Forall_cons in Hascii as [Hpa Hpsa].
    rewrite fmap_cons. cbn [concat]. apply Forall_app. split.
    + apply capitalize_no_hyphen; assumption.
    + apply IH, Hpsa.
Qed.

End PascalCase.

(** X2 on ["application-shell-1"]. *)
Lemma toPascalCase_by_parts_witness :
  toPascalCase Demo.rt (js "application-shell-1") = js "ApplicationShell1"
  ∧ Forall (λ c, c ≠ hyphen) (toPascalCase Demo.rt (js "application-shell-1")).
Proof.
  split; [reflexivity |].
  apply (proj2 (toPascalCase_by_parts Demo.rt (λ s _, eq_refl))).
  apply (bool_decide_unpack _). vm_compute. exact I.
Defined.

Lemma replace_space_runs_clean rep b s :
  no_space rep → no_space (replace_space_runs rep b s).
Proof.
  intros Hrep. revert b. induction s as [|c s IH]; intros b; simpl; [constructor |].
  destruct (is_space c) eqn:Hc.
  - apply Forall_app. split; [destruct b; [constructor | exact Hrep] | apply IH].
  - constructor; [exact Hc | apply IH].
Qed.

(** X3.  A slug holds no white space, whatever the name; and a name
    whose lower-case form holds no white space is its own slug, lower
    case. *)
Theorem nameToSlug_no_space (rt : Runtime) :
  (∀ nm, no_space (nameToSlug rt nm))
  ∧ (∀ nm, no_space (toLowerCase rt nm) → nameToSlug rt nm = toLowerCase rt nm).
Proof.
  split.
  - intros nm. unfold nameToSlug. apply replace_space_runs_clean.
    repeat constructor.
  - intros nm Hnm. unfold nameToSlug. apply replace_plain, Hnm.
Qed.

(** X3 on a name without white space. *)
Lemma nameToSlug_no_space_witness :
  nameToSlug Demo.rt (js "Navbar1") = js "navbar1".
Proof.
  apply (proj2 (nameToSlug_no_space Demo.rt)).
  apply (bool_decide_unpack _). vm_compute. exact I.
Defined.

(** ** Classification *)

Lemma drop_while_all p a b :
  Forall (λ c, p c = true) a → drop_while p (a ++ b) = drop_while p b.
Proof. induction 1 as [|c a Hc _ IH]; simpl; [reflexivity |]. rewrite Hc. exact IH. Qed.

Lemma drop_while_stop p s :
  match s with c :: _ => p c = false | [] => True end → drop_while p s = s.
Proof. destruct s as [|c s]; simpl; [reflexivity |]. intros ->. reflexivity. Qed.

Lemma reverse_head_last (w : jsstring) :
  match reverse w with c :: _ => last w = Some c | [] => w = [] end.
Proof.
  destruct w as [|x w _] using rev_ind; [reflexivity |].
  rewrite reverse_app. simpl. rewrite last_snoc. reflexivity.
Qed.

(** The stem of a numbered name is what is left without its number. *)
Lemma strip_trailing_number_numbered w g d :
  stem_ok w → Forall (λ c, is_space c = true) g → is_number d = true →
  strip_trailing_number (numbered w g d) = w.
Proof.
  intros Hw Hg Hd. apply number_inv in Hd as [Hdne Hd].
  unfold strip_trailing_number, numbered.
  rewrite !reverse_app.
  assert (∃ c r, reverse d = c :: r ∧ is_digit c = true) as (c & r & Hrev & Hc).
  { pose proof (reverse_head_last d) as H. destruct (reverse d) as [|c r].
    - congruence.
    - exists c, r. split; [reflexivity |].
      apply last_Some_elem_of in H.
      rewrite Forall_forall in Hd. apply Hd, H. }
  rewrite <- !app_assoc. rewrite Hrev at 1. cbn [app]. rewrite Hc.
  rewrite drop_while_all by (apply Forall_reverse; exact Hd).
  pose proof (reverse_head_last w) as Hlast. unfold stem_ok in Hw.
  assert (drop_while is_digit (reverse g ++ reverse w) = reverse g ++ reverse w) as ->.
  { apply drop_while_stop.
    destruct (reverse g) as [|x rg] eqn:Hrg; simpl.
    - destruct (reverse w) as [|y rw]; [exact I |]. rewrite Hlast in Hw. apply Hw.
    - assert (x ∈ reverse g) as Hx by (rewrite Hrg; left).
      rewrite elem_of_reverse in Hx. rewrite Forall_forall in Hg.
      specialize (Hg x Hx). chars. }
  rewrite drop_while_all by (apply Forall_reverse; exact Hg).
  rewrite drop_while_stop.
  - apply reverse_involutive.
  - destruct (reverse w) as [|y rw]; [exact I |]. rewrite Hlast in Hw. apply Hw.
Qed.

(** X4.  The category and the subcategory of a component do not depend
    on its number, nor on the white space before it: two names with the
    same stem are classified alike.  The category is one of the three the
    source knows, and a stem that matches no rule is itself the
    subcategory (trimmed), under ["Unknown"]. *)
Theorem classify_ignores_number :
  (∀ w g d g' d',
     stem_ok w →
     Forall (λ c, is_space c = true) g → is_number d = true →
     Forall (λ c, is_space c = true) g' → is_number d' = true →
     classify (numbered w g d) = classify (numbered w g' d'))
  ∧ (∀ nm, (classify nm).1 = js "Application UI"
           ∨ (classify nm).1 = js "Marketing"
           ∨ ((classify nm).1 = js "Unknown"
              ∧ (classify nm).2 = trim (strip_trailing_number nm))).
Proof.
  split.
  - intros w g d g' d' Hw Hg Hd Hg' Hd'. unfold classify.
    rewrite !strip_trailing_number_numbered by assumption. reflexivity.
  - intros nm. unfold classify.
    repeat (destruct (includes _ _); [simpl; auto; fail |]).
    right. right. split; reflexivity.
Qed.

(** X4 on two navigation bars. *)
Lemma classify_ignores_number_witness :
  classify (js "Navbar 1") = classify (js "Navbar  27")
  ∧ classify (js "Navbar 1") = (js "Marketing", js "Navbars").
Proof.
  split; [| reflexivity].
  apply (proj1 classify_ignores_number (js "Navbar") (js " ") (js "1") (js "  ") (js "27")).
  - split; reflexivity.
  - apply (bool_decide_unpack _). vm_compute. exact I.
  - reflexivity.
  - apply (bool_decide_unpack _). vm_compute. exact I.
  - reflexivity.
Defined.

(** ** More on [sanitizeFilename] *)

Section SanitizeMore.

Variable rt : Runtime.

Hypothesis toUpperCase_ascii :
  ∀ s, Forall (λ c, c < 128) s → toUpperCase rt s = List.map upper_ascii s.

Lemma filter_fixed {A} (f : A → bool) (l : list A) :
  List.filter f l = l ↔ Forall (λ x, f x = true) l.
Proof.
  split.
  - intros H. rewrite <- H. apply Forall_forall. intros x Hx.
    apply list_elem_of_In, filter_In in Hx. tauto.
  - induction 1 as [|x l Hx _ IH]; simpl; [reflexivity |]. rewrite Hx, IH. reflexivity.
Qed.

(** X5.  [sanitizeFilename] keeps the letters, digits and hyphens of its
    argument, in order, and nothing else: it leaves a string alone exactly
    when the string is made of such code units only, it works piece by
    piece, and it removes every path separator and dot. *)
Theorem sanitizeFilename_keeps_safe :
  (∀ x, sanitizeFilename rt x = x ↔ Forall (λ c, is_path_safe c = true) x)
  ∧ (∀ x y, sanitizeFilename rt (x ++ y) = sanitizeFilename rt x ++ sanitizeFilename rt y)
  ∧ (∀ x c, is_path_safe c = true →
            sanitizeFilename rt (x ++ [c]) = sanitizeFilename rt x ++ [c])
  ∧ (∀ x c, is_path_safe c = false →
            sanitizeFilename rt (x ++ [c]) = sanitizeFilename rt x).
Proof.
  split; [| split; [| split]].
  - intros x. rewrite (sanitizeFilename_filter rt toUpperCase_ascii). apply filter_fixed.
  - intros x y. rewrite !(sanitizeFilename_filter rt toUpperCase_ascii).
    apply List.filter_app.
  - intros x c Hc. rewrite !(sanitizeFilename_filter rt toUpperCase_ascii).
    rewrite List.filter_app. simpl. rewrite Hc. reflexivity.
  - intros x c Hc. rewrite !(sanitizeFilename_filter rt toUpperCase_ascii).
    rewrite List.filter_app. simpl. rewrite Hc. apply app_nil_r.
Qed.

End SanitizeMore.

(** X5 on a category that would escape the output directory. *)
Lemma sanitizeFilename_keeps_safe_witness :
  sanitizeFilename Demo.rt (js "../../etc") = js "etc"
  ∧ sanitizeFilename Demo.rt (js "application-ui") = js "application-ui".
Proof.
  split; [reflexivity |].
  apply (proj1 (sanitizeFilename_keeps_safe Demo.rt (λ s _, eq_refl))).
  apply (bool_decide_unpack _). vm_compute. exact I.
Defined.

(** ** [browserCommand] *)

Section BrowserCommand.

Variable rt : Runtime.
Variable env : Env.

(** [browserCommand], answer by answer. *)
Lemma browserCommand_cases command st :
  let st1 := add_event (EvExec command) st in
  let failed e s := (Throw e, add_event (EvError (MsgBrowserCommandFailed e)) s) in
  browserCommand rt env command st =
  match env_exec env (trace st) command with
  | ExecRejected m => failed (ExecError m) st1
  | ExecStdout out written =>
      let st2 := set_files (foldl (fun f pd => <[pd.1 := pd.2]> f) (files st1) written) st1 in
      match JSON_parse rt out with
      | None => failed (SyntaxError out) st2
      | Some (VObj fields) =>
          if truthy (assoc (js "success") fields) then (Ok (VObj fields), st2)
          else failed (Error (error_message
                                (or_else (assoc (js "error") fields)
                                         (assoc (js "message") fields)))) st2
      | Some VUndefined | Some VNull => failed (TypeError (js "success")) st2
      | Some _ => failed (Error []) st2
      end
  end.
Proof.
  cbv zeta. unfold browserCommand. rewrite run_try_catch, run_bind. unfold execAsync.
  destruct (env_exec env (trace st) command) as [m | out written]; [reflexivity |].
  unfold parse. destruct (JSON_parse rt out) as [v |]; [| reflexivity].
  destruct v as [| | b | n | s | items | fields]; try reflexivity.
  cbv [mbind M_bind bind get ret].
  destruct (truthy (assoc (js "success") fields)); reflexivity.
Qed.

(** X6.  [browserCommand] runs its command exactly once, with no retry.
    It answers only an object that [JSON.parse] made of the standard
    output of the tool and whose [success] property is truthy, and then
    prints nothing; every failure (a rejected process, output that is not
    JSON, an answer without truthy [success]) is reported on the error
    stream once and thrown on to the caller. *)
Theorem browserCommand_outcomes (command : jsstring) (st : State) :
  (∀ v st',
     browserCommand rt env command st = (Ok v, st') →
     ∃ out written fields,
       env_exec env (trace st) command = ExecStdout out written
       ∧ JSON_parse rt out = Some v
       ∧ v = VObj fields
       ∧ truthy (assoc (js "success") fields) = true
       ∧ trace st' = trace st ++ [EvExec command])
  ∧ (∀ e st',
       browserCommand rt env command st = (Throw e, st') →
       trace st' = trace st ++ [EvExec command; EvError (MsgBrowserCommandFailed e)])
  ∧ (∀ code, (browserCommand rt env command st).1 ≠ Exit code)
  ∧ the_progress (browserCommand rt env command st).2 = the_progress st
  ∧ the_catalog (browserCommand rt env command st).2 = the_catalog st.
Proof.
  rewrite browserCommand_cases. cbv zeta.
  destruct (env_exec env (trace st) command) as [m | out written] eqn:Hx.
  { split; [discriminate |]. split; [| split; [discriminate | split; reflexivity]].
    intros e st' H. injection H as <- <-. simpl. rewrite <- app_assoc. reflexivity. }
  destruct (JSON_parse rt out) as [v |] eqn:Hp.
  2: { split; [discriminate |]. split; [| split; [discriminate | split; reflexivity]].
       intros e st' H. injection H as <- <-. simpl. rewrite <- app_assoc. reflexivity. }
  destruct v as [| | b | n | s | items | fields];
    try (split; [discriminate |]; split; [| split; [discriminate | split; reflexivity]];
         intros e st' H; injection H as <- <-; simpl; rewrite <- app_assoc; reflexivity).
  destruct (truthy (assoc (js "success") fields)) eqn:Hs.
  - split; [| split; [discriminate | split; [discriminate | split; reflexivity]]].
    intros v st' H. injection H as <- <-. exists out, written, fields.
    split; [reflexivity |]. split; [exact Hp |]. split; [reflexivity |].
    split; [exact Hs | reflexivity].
  - split; [discriminate |]. split; [| split; [discriminate | split; reflexivity]].
    intros e st' H. injection H as <- <-. simpl. rewrite <- app_assoc. reflexivity.
Qed.

(** X7.  When the tool answers an object whose [success] is not truthy,
    the error thrown carries the [error] property of the answer if it is
    truthy and its [message] property otherwise; with neither, the message
    is that of [new Error(undefined)], the empty string. *)
Theorem browserCommand_error_message (command : jsstring) (st : State)
  (out : jsstring) (written : list (jsstring * jsstring))
  (fields : list (jsstring * value)) :
  env_exec env (trace st) command = ExecStdout out written →
  JSON_parse rt out = Some (VObj fields) →
  truthy (assoc (js "success") fields) = false →
  (browserCommand rt env command st).1
  = Throw (Error (error_message (or_else (assoc (js "error") fields)
                                         (assoc (js "message") fields))))
  ∧ (truthy (assoc (js "error") fields) = true →
     (browserCommand rt env command st).1
     = Throw (Error (ToString (assoc (js "error") fields))))
  ∧ (assoc (js "error") fields = VUndefined →
     assoc (js "message") fields = VUndefined →
     (browserCommand rt env command st).1 = Throw (Error [])).
Proof.
  intros Hx Hp Hs. rewrite browserCommand_cases. cbv zeta.
  rewrite Hx, Hp, Hs. cbn [fst]. split; [reflexivity |]. split.
  - intros He. unfold or_else. rewrite He.
    destruct (assoc (js "error") fields); try reflexivity. discriminate He.
  - intros -> ->. reflexivity.
Qed.

End BrowserCommand.

(** ** What a computation may do *)

Create HintDb respects.

Section Respects.

Variable allowed : Event → Prop.
Variable inv : Catalog → Prop.

Lemma follows_refl st : follows allowed inv st st.
Proof. split; [exists []; rewrite app_nil_r; split; [reflexivity | constructor] | tauto]. Qed.

Lemma follows_trans st1 st2 st3 :
  follows allowed inv st1 st2 → follows allowed inv st2 st3 → follows allowed inv st1 st3.
Proof.
  intros [(evs1 & Ht1 & Ha1) Hi1] [(evs2 & Ht2 & Ha2) Hi2]. split; [| tauto].
  exists (evs1 ++ evs2). rewrite Ht2, Ht1, app_assoc.
  split; [reflexivity | apply Forall_app; tauto].
Qed.

Lemma follows_event e st : allowed e → follows allowed inv st (add_event e st).
Proof.
  intros He. split; [| tauto].
  exists [e]. split; [reflexivity | repeat constructor; exact He].
Qed.

Lemma follows_files f st : follows allowed inv st (set_files f st).
Proof. split; [exists []; rewrite app_nil_r; split; [reflexivity | constructor] | tauto]. Qed.

Lemma follows_progress p st : follows allowed inv st (set_progress p st).
Proof. split; [exists []; rewrite app_nil_r; split; [reflexivity | constructor] | tauto]. Qed.

Lemma respects_ret {A} (a : A) : respects allowed inv (mret a).
Proof. intros st. split; [apply follows_refl | discriminate]. Qed.

Lemma respects_ret' {A} (a : A) : respects allowed inv (ret a).
Proof. apply respects_ret. Qed.

Lemma respects_throw {A} (e : exn) : respects allowed inv (@throw A e).
Proof. intros st. split; [apply follows_refl | discriminate]. Qed.

Lemma respects_bind {A B} (m : M A) (k : A → M B) :
  respects allowed inv m → (∀ a, respects allowed inv (k a)) →
  respects allowed inv (m ≫= k).
Proof.
  intros Hm Hk st. rewrite run_bind.
  destruct (Hm st) as [Hf Hx]. destruct (m st) as [[a | e | c] st1]; cbn [fst snd] in *.
  - destruct (Hk a st1) as [Hf' Hx']. split; [eapply follows_trans; eassumption | exact Hx'].
  - split; [exact Hf | discriminate].
  - exfalso. apply (Hx c). reflexivity.
Qed.

Lemma respects_try_catch {A} (m : M A) (h : exn → M A) :
  respects allowed inv m → (∀ e, respects allowed inv (h e)) →
  respects allowed inv (try_catch m h).
Proof.
  intros Hm Hh st. rewrite run_try_catch.
  destruct (Hm st) as [Hf Hx]. destruct (m st) as [[a | e | c] st1]; cbn [fst snd] in *.
  - split; [exact Hf | discriminate].
  - destruct (Hh e st1) as [Hf' Hx']. split; [eapply follows_trans; eassumption | exact Hx'].
  - exfalso. apply (Hx c). reflexivity.
Qed.

Lemma respects_emit e : allowed e → respects allowed inv (emit e).
Proof. intros He st. split; [apply follows_event, He | discriminate]. Qed.

Lemma respects_console_log m : allowed (EvLog m) → respects allowed inv (console_log m).
Proof. apply respects_emit. Qed.

Lemma respects_console_error m : allowed (EvError m) → respects allowed inv (console_error m).
Proof. apply respects_emit. Qed.

Lemma respects_delay ms : allowed (EvDelay ms) → respects allowed inv (delay ms).
Proof. apply respects_emit. Qed.

Lemma respects_when b m : respects allowed inv m → respects allowed inv (when b m).
Proof. intros Hm. destruct b; [exact Hm | apply respects_ret]. Qed.

Lemma respects_get v k : respects allowed inv (get v k).
Proof. destruct v; first [apply respects_throw | apply respects_ret]. Qed.

Lemma respects_match_json v : respects allowed inv (match_json v).
Proof. destruct v; first [apply respects_throw | apply respects_ret]. Qed.

Lemma respects_optional_substring v : respects allowed inv (optional_substring v).
Proof. destruct v; first [apply respects_throw | apply respects_ret]. Qed.

Lemma respects_parse rt text : respects allowed inv (parse rt text).
Proof.
  unfold parse. destruct (JSON_parse rt text);
    first [apply respects_throw | apply respects_ret].
Qed.

Lemma respects_execAsync env command :
  allowed (EvExec command) → respects allowed inv (execAsync env command).
Proof.
  intros He st. unfold execAsync.
  destruct (env_exec env (trace st) command); cbn [fst snd].
  - split; [apply follows_event, He | discriminate].
  - split; [| discriminate].
    eapply follows_trans; [apply follows_event, He | apply follows_files].
Qed.

Lemma respects_fs_call env op :
  allowed (EvFs op) → respects allowed inv (fs_call env op).
Proof.
  intros He st. unfold fs_call.
  destruct (env_fs_fails env (trace st) op);
    (split; [apply follows_event, He | discriminate]).
Qed.

Lemma respects_contents path op : respects allowed inv (contents path op).
Proof.
  intros st. unfold contents.
  destruct (files st !! path); (split; [apply follows_refl | discriminate]).
Qed.

Lemma respects_store path data : respects allowed inv (store path data).
Proof. intros st. split; [apply follows_files | discriminate]. Qed.

Lemma respects_now env : respects allowed inv (now env).
Proof. intros st. split; [apply follows_refl | discriminate]. Qed.

Lemma respects_get_progress : respects allowed inv get_progress.
Proof. intros st. split; [apply follows_refl | discriminate]. Qed.

Lemma respects_modify_progress f : respects allowed inv (modify_progress f).
Proof. intros st. split; [apply follows_progress | discriminate]. Qed.

Lemma respects_get_catalog : respects allowed inv get_catalog.
Proof. intros st. split; [apply follows_refl | discriminate]. Qed.

Lemma respects_modify_catalog f :
  (∀ c, inv c → inv (f c)) → respects allowed inv (modify_catalog f).
Proof.
  intros Hf st. split; [| discriminate]. split.
  - exists []. rewrite app_nil_r. split; [reflexivity | constructor].
  - apply Hf.
Qed.

Lemma respects_for_each {A} (f : A → M unit) l :
  (∀ x, respects allowed inv (f x)) → respects allowed inv (for_each f l).
Proof.
  intros Hf. induction l as [|x l IH]; [apply respects_ret |].
  cbn [for_each]. apply respects_bind; [apply Hf | intros _; exact IH].
Qed.

Lemma respects_map_M {A B} (f : A → M B) l :
  (∀ x, respects allowed inv (f x)) → respects allowed inv (map_M f l).
Proof.
  intros Hf. induction l as [|x l IH]; [apply respects_ret |].
  cbn [map_M]. apply respects_bind; [apply Hf | intros y].
  apply respects_bind; [exact IH | intros ys; apply respects_ret].
Qed.

End Respects.

#[export] Hint Resolve respects_ret respects_ret' respects_throw respects_get
  respects_match_json respects_optional_substring respects_parse
  respects_contents respects_store respects_now respects_get_progress
  respects_modify_progress respects_get_catalog : respects.
#[export] Hint Extern 2 (respects _ _ (_ ≫= _)) =>
  apply respects_bind; [| intros ?] : respects.
#[export] Hint Extern 2 (respects _ _ (try_catch _ _)) =>
  apply respects_try_catch; [| intros ?] : respects.
#[export] Hint Extern 2 (respects _ _ (when _ _)) => apply respects_when : respects.
#[export] Hint Extern 2 (respects _ _ (console_log _)) =>
  apply respects_console_log; constructor : respects.
#[export] Hint Extern 2 (respects _ _ (console_error _)) =>
  apply respects_console_error; constructor : respects.
#[export] Hint Extern 2 (respects _ _ (delay _)) =>
  apply respects_delay; constructor : respects.
#[export] Hint Extern 3 (respects _ _ (match ?x with _ => _ end)) =>
  destruct x : respects.

Section RespectsMore.

Variable rt : Runtime.
Variable env : Env.
Variable allowed : Event → Prop.
Variable inv : Catalog → Prop.

Hypothesis talk : ∀ e, allowed (EvError (MsgBrowserCommandFailed e)).

Lemma respects_browserCommand command :
  allowed (EvExec command) → respects allowed inv (browserCommand rt env command).
Proof.
  intros He. unfold browserCommand.
  apply respects_try_catch.
  - apply respects_bind; [apply respects_execAsync, He | intros out].
    auto 12 with respects.
  - intros e. apply respects_bind; [apply respects_console_error, talk | intros _].
    apply respects_throw.
Qed.

Lemma respects_writeFile path data :
  allowed (EvFs (OpWriteFile path data)) →
  respects allowed inv (writeFile env path data).
Proof.
  intros He st. rewrite writeFile_cases. cbv zeta.
  destruct (env_fs_fails env (trace st) _); cbn [fst snd];
    (split; [| discriminate]);
    (split; [exists [EvFs (OpWriteFile path data)]; split; [reflexivity |];
             constructor; [exact He | constructor]
            | intros H; exact H]).
Qed.

End RespectsMore.

(** ** The footprint of the download phase *)

(** Solves the side condition that an event is allowed. *)
Ltac allowed_event :=
  cbn [download_event discovery_event];
  first
    [ constructor; fail
    | reflexivity
    | left; reflexivity
    | left; solve [repeat first [apply list_elem_of_here | apply list_elem_of_further]]
    | solve [repeat first [apply list_elem_of_here | apply list_elem_of_further]]
    | right; eexists; split; [eassumption | reflexivity]
    | eexists; split; [eassumption | reflexivity] ].

(** One step through the structure of a computation; [tac] is tried on
    what the step does not know. *)
Ltac respects_step tac :=
  lazymatch goal with
  | |- respects _ _ (mbind _ _) => apply respects_bind; [| intros ?]
  | |- respects _ _ (try_catch _ _) => apply respects_try_catch; [| intros ?]
  | |- respects _ _ (when _ _) => apply respects_when
  | |- respects _ _ (console_log _) => apply respects_console_log; constructor
  | |- respects _ _ (console_error _) => apply respects_console_error; constructor
  | |- respects _ _ (delay _) => apply respects_delay; constructor
  | |- respects _ _ (get _ _) => apply respects_get
  | |- respects _ _ (match_json _) => apply respects_match_json
  | |- respects _ _ (optional_substring _) => apply respects_optional_substring
  | |- respects _ _ (parse _ _) => apply respects_parse
  | |- respects _ _ (ret _) => apply respects_ret'
  | |- respects _ _ (mret _) => apply respects_ret
  | |- respects _ _ (throw _) => apply respects_throw
  | |- respects _ _ (modify_progress _) => apply respects_modify_progress
  | |- respects _ _ get_progress => apply respects_get_progress
  | |- respects _ _ get_catalog => apply respects_get_catalog
  | |- respects _ _ (contents _ _) => apply respects_contents
  | |- respects _ _ (store _ _) => apply respects_store
  | |- respects _ _ (now _) => apply respects_now
  | |- respects _ _ (match ?x with _ => _ end) => destruct x
  | _ => tac
  end.

Section Footprint.

Variable rt : Runtime.
Variable env : Env.
Variable items : list ComponentInfo.

Lemma download_talk e :
  download_event rt items (EvError (MsgBrowserCommandFailed e)).
Proof. exact Logic.I. Qed.

Lemma respects_saveProgress :
  respects (download_event rt items) (λ _, True) (saveProgress rt env).
Proof.
  unfold saveProgress.
  repeat respects_step ltac:(apply respects_writeFile; allowed_event).
Qed.

Lemma respects_retrieve c :
  c ∈ items → respects (download_event rt items) (λ _, True) (retrieve rt env c).
Proof.
  intros Hc. unfold retrieve.
  repeat respects_step
    ltac:(apply (respects_browserCommand rt env _ _ download_talk); allowed_event).
Qed.

Lemma respects_write_source c r :
  c ∈ items →
  respects (download_event rt items) (λ _, True) (write_source rt env c r).
Proof.
  intros Hc. unfold write_source, ensureDir, mkdir, metadataHeader.
  repeat respects_step
    ltac:(first [ apply respects_fs_call; allowed_event
                | apply respects_writeFile; allowed_event ]).
Qed.

Lemma respects_copy_screenshot c r :
  c ∈ items →
  respects (download_event rt items) (λ _, True) (copy_screenshot rt env c r).
Proof.
  intros Hc. unfold copy_screenshot, copyFile.
  repeat respects_step ltac:(apply respects_fs_call; allowed_event).
Qed.

Lemma respects_download_item n i c :
  c ∈ items →
  respects (download_event rt items) (λ _, True) (download_item rt env n i c).
Proof.
  intros Hc. unfold download_item, fetch_and_store.
  repeat respects_step
    ltac:(first [ apply respects_retrieve; exact Hc
                | apply respects_write_source; exact Hc
                | apply respects_copy_screenshot; exact Hc
                | apply respects_saveProgress ]).
Qed.

Lemma respects_download_loop n i rest :
  rest ⊆ items →
  respects (download_event rt items) (λ _, True) (download_loop rt env n i rest).
Proof.
  revert i. induction rest as [|c rest IH]; intros i Hsub; [apply respects_ret' |].
  cbn [download_loop]. apply respects_bind.
  - apply respects_download_item, Hsub. left.
  - intros _. apply IH. intros x Hx. apply Hsub. right. exact Hx.
Qed.

End Footprint.

Lemma navigate_command_inj t1 t2 :
  navigate_command t1 = navigate_command t2 → t1 = t2.
Proof.
  unfold navigate_command, quoted. intros H.
  apply app_inv_head in H. apply app_inv_head in H.
  apply app_inv_tail in H. exact H.
Qed.

Lemma componentUrl_inj c1 c2 : componentUrl c1 = componentUrl c2 → slug c1 = slug c2.
Proof.
  unfold componentUrl. intros H.
  apply app_inv_head in H. apply app_inv_head in H. exact H.
Qed.

(** A navigation is none of the five fixed commands of the download
    phase. *)
Lemma navigate_not_fixed t :
  navigate_command t ∉ [react_tab_command; extract_code_command;
                        extract_metadata_command; image_tab_command;
                        screenshot_command].
Proof.
  intros H. apply list_elem_of_In in H. cbn [In] in H.
  destruct H as [H | [H | [H | [H | [H | []]]]]];
    symmetry in H; cbv in H; discriminate H.
Qed.

Section FootprintOfARun.

Variable rt : Runtime.
Variable env : Env.

(** A run of the orchestrator, measured against the work set its
    prologue computed. *)
Lemma downloadComponents_follows catalog st p0 st0 :
  download_prologue rt env catalog st = (Ok (remaining_of catalog p0), st0) →
  follows (download_event rt (remaining_of catalog p0)) (λ _, True) st
    (downloadComponents rt env catalog st).2
  ∧ ∀ code, (downloadComponents rt env catalog st).1 ≠ Exit code.
Proof.
  intros Hpro.
  set (allowed := download_event rt (remaining_of catalog p0)).
  assert (respects allowed (λ _, True) (download_prologue rt env catalog)) as Hprologue.
  { unfold download_prologue, loadProgress, readFile.
    repeat respects_step ltac:(apply respects_fs_call; allowed_event). }
  assert (respects allowed (λ _, True) download_epilogue) as Hepilogue.
  { unfold download_epilogue. repeat respects_step fail. }
  unfold downloadComponents. rewrite run_bind.
  destruct (Hprologue st) as [Hf0 _]. rewrite Hpro in *. cbn [fst snd] in Hf0.
  rewrite run_bind.
  destruct (respects_download_loop rt env (remaining_of catalog p0)
              (length (remaining_of catalog p0)) 0 (remaining_of catalog p0)
              (λ x Hx, Hx) st0) as [Hf1 Hx1].
  destruct (download_loop rt env _ 0 _ st0) as [[[] | e | code] st1];
    cbn [fst snd] in *.
  - destruct (Hepilogue st1) as [Hf2 Hx2].
    split; [| exact Hx2].
    eapply follows_trans; [exact Hf0 |]. eapply follows_trans; eassumption.
  - split; [| discriminate]. eapply follows_trans; eassumption.
  - exfalso. apply (Hx1 code). reflexivity.
Qed.

Lemma downloadComponents_never_exits catalog st code :
  (downloadComponents rt env catalog st).1 ≠ Exit code.
Proof.
  destruct (download_prologue_run rt env catalog st) as (p0 & st0 & Hpro & _).
  apply (downloadComponents_follows catalog st p0 st0 Hpro).
Qed.

(** X8.  The footprint of a download run.  Every event of a run is a
    line of output, a wait, one of the five fixed browser commands, a
    navigation to the page of an entry of the work set, a read or a write
    of [progress.json], or the making of the directory, the source file
    or the image of an entry of the work set; the run never ends the
    process.  In particular no entry whose slug the loaded progress
    already holds, completed or failed, is navigated to again. *)
Theorem download_footprint (catalog : Catalog) (st : State) :
  ∃ p0 st0 evs,
    download_prologue rt env catalog st = (Ok (remaining_of catalog p0), st0)
    ∧ the_progress st0 = p0
    ∧ trace (downloadComponents rt env catalog st).2 = trace st ++ evs
    ∧ Forall (download_event rt (remaining_of catalog p0)) evs
    ∧ (∀ c, c ∈ components catalog →
            slug c ∈ completed p0 ∨ slug c ∈ failed p0 →
            EvExec (navigate_command (componentUrl c)) ∉ evs)
    ∧ (∀ code, (downloadComponents rt env catalog st).1 ≠ Exit code).
Proof.
  destruct (download_prologue_run rt env catalog st) as (p0 & st0 & Hpro & Hp0).
  destruct (downloadComponents_follows catalog st p0 st0 Hpro) as [Hf Hx].
  destruct Hf as [(evs & Htr & Hall) _].
  exists p0, st0, evs.
  split; [exact Hpro |]. split; [exact Hp0 |]. split; [exact Htr |].
  split; [exact Hall |]. split; [| exact Hx].
  intros c Hc Hdone Hin.
  rewrite Forall_forall in Hall. specialize (Hall _ Hin).
  cbn [download_event] in Hall. destruct Hall as [Hfixed | (c' & Hc' & Heq)].
  - exact (navigate_not_fixed _ Hfixed).
  - apply navigate_command_inj, componentUrl_inj in Heq.
    unfold remaining_of in Hc'. apply list_elem_of_filter in Hc' as [[Hn1 Hn2] _].
    rewrite <- Heq in Hn1, Hn2. tauto.
Qed.

End FootprintOfARun.

(** ** Progress over a run *)

Section ProgressGrows.

Variable rt : Runtime.
Variable env : Env.

(** A turn appends to [failed] nothing or the slug of its entry. *)
Lemma download_item_failed n i c st :
  failed (the_progress (download_item rt env n i c st).2) = failed (the_progress st)
  ∨ failed (the_progress (download_item rt env n i c st).2)
    = failed (the_progress st) ++ [slug c].
Proof.
  pose proof (quiet_fetch_and_store rt env c (item_start n i c st)) as [Hp Hx].
  unfold download_item. rewrite run_bind, run_console_log.
  fold (item_start n i c st). rewrite run_try_catch, run_bind.
  destruct (fetch_and_store rt env c (item_start n i c st)) as [[[] | e | code] st1];
    cbn [fst snd] in *; [| | exfalso; apply (Hx code); reflexivity].
  - run. rewrite saveProgress_run. cbv zeta.
    destruct (env_fs_fails env _ _).
    + run. rewrite saveProgress_run. cbv zeta.
      destruct (env_fs_fails env _ _); simpl; rewrite Hp; right; reflexivity.
    + unfold when. destruct (Z.of_nat i <? Z.of_nat n - 1)%Z; run; simpl;
        rewrite Hp; left; reflexivity.
  - run. rewrite saveProgress_run. cbv zeta.
    destruct (env_fs_fails env _ _); simpl; rewrite Hp; right; reflexivity.
Qed.

Lemma download_loop_grows n i items st :
  completed (the_progress st)
    `prefix_of` completed (the_progress (download_loop rt env n i items st).2)
  ∧ failed (the_progress st)
      `prefix_of` failed (the_progress (download_loop rt env n i items st).2).
Proof.
  revert i st. induction items as [|c rest IH]; intros i st; [split; reflexivity |].
  cbn [download_loop]. rewrite run_bind.
  destruct (download_item_completed rt env n i c st) as [Hc _].
  pose proof (download_item_failed n i c st) as Hf.
  destruct (download_item rt env n i c st) as [[[] | e | code] st1]; cbn [fst snd] in *.
  - destruct (IH (S i) st1) as [IHc IHf]. split.
    + etransitivity; [| exact IHc]. rewrite Hc. apply prefix_app_r. reflexivity.
    + etransitivity; [| exact IHf].
      destruct Hf as [-> | ->]; [reflexivity | apply prefix_app_r; reflexivity].
  - split.
    + rewrite Hc. apply prefix_app_r. reflexivity.
    + destruct Hf as [-> | ->]; [reflexivity | apply prefix_app_r; reflexivity].
  - split.
    + rewrite Hc. apply prefix_app_r. reflexivity.
    + destruct Hf as [-> | ->]; [reflexivity | apply prefix_app_r; reflexivity].
Qed.

(** X9.  Progress is append-only.  However a download run ends, by
    completion or by an error that escapes it, the [completed] and
    [failed] lists it leaves begin with the lists of the record it
    loaded: no slug is ever removed from a list or moved to the
    other. *)
Theorem progress_only_grows (catalog : Catalog) (st : State) :
  ∃ p0 st0,
    download_prologue rt env catalog st = (Ok (remaining_of catalog p0), st0)
    ∧ the_progress st0 = p0
    ∧ completed p0
        `prefix_of` completed (the_progress (downloadComponents rt env catalog st).2)
    ∧ failed p0
        `prefix_of` failed (the_progress (downloadComponents rt env catalog st).2).
Proof.
  destruct (download_prologue_run rt env catalog st) as (p0 & st0 & Hpro & Hp0).
  exists p0, st0. split; [exact Hpro |]. split; [exact Hp0 |].
  unfold downloadComponents. rewrite run_bind, Hpro, run_bind.
  destruct (download_loop_grows (length (remaining_of catalog p0)) 0
              (remaining_of catalog p0) st0) as [Hc Hf].
  rewrite Hp0 in Hc, Hf.
  destruct (download_loop rt env _ 0 _ st0) as [[[] | e | code] st1];
    cbn [fst snd] in *; split; assumption.
Qed.

End ProgressGrows.

(** ** Resuming *)

Lemma filter_none {A} (P : A → Prop) `{∀ x, Decision (P x)} (l : list A) :
  (∀ x, x ∈ l → ¬ P x) → filter P l = [].
Proof.
  induction l as [|x l IH]; intros Hl; [reflexivity |].
  rewrite filter_cons_False by (apply Hl; left).
  apply IH. intros y Hy. apply Hl. right. exact Hy.
Qed.

Lemma result_slug_recorded c ok results :
  (c, ok) ∈ results →
  slug c ∈ succeeded_slugs results ∨ slug c ∈ failed_slugs results.
Proof.
  intros Hin. destruct ok; [left | right].
  - unfold succeeded_slugs. apply list_elem_of_fmap. exists (c, true).
    split; [reflexivity |]. apply list_elem_of_filter. split; [reflexivity | exact Hin].
  - unfold failed_slugs. apply list_elem_of_fmap. exists (c, false).
    split; [reflexivity |]. apply list_elem_of_filter. split; [reflexivity | exact Hin].
Qed.

Section Resume.

Variable rt : Runtime.
Variable env : Env.
Hypothesis writable : progress_writable env.

Lemma progress_value_inj p q : progress_value p = progress_value q → p = q.
Proof.
  assert (∀ a b : list jsstring, VStr <$> a = VStr <$> b → a = b) as Hinj.
  { induction a as [|x a IH]; intros [|y b] H; try discriminate H; [reflexivity |].
    cbn [fmap list_fmap] in H. injection H as -> H. f_equal. exact (IH b H). }
  destruct p, q. unfold progress_value. cbn [completed failed lastUpdated].
  intros H. injection H as Hc Hf ->.
  apply Hinj in Hc as ->. apply Hinj in Hf as ->. reflexivity.
Qed.

(** X10.  When [progress.json] can be written and the document on disk
    is at its declared type, a download run resolves its whole catalog:
    afterwards every entry has its slug in [completed] or in [failed], so
    that the work set computed from the progress the run leaves is empty;
    and the lists of the record that [JSON.parse] read from the disk are
    the beginnings of the lists the run leaves. *)
Theorem run_resolves_catalog (catalog : Catalog) (st : State) :
  progress_at_type rt st →
  let final := the_progress (downloadComponents rt env catalog st).2 in
  (∀ c, c ∈ components catalog → slug c ∈ completed final ∨ slug c ∈ failed final)
  ∧ remaining_of catalog final = []
  ∧ (∀ data p,
       files st !! PROGRESS_FILE = Some data →
       env_fs_fails env
         (trace st ++ [EvLog MsgStartDownload;
                       EvLog (MsgTotal (totalComponents catalog))])
         (OpReadFile PROGRESS_FILE) = false →
       JSON_parse rt data = Some (progress_value p) →
       completed p `prefix_of` completed final
       ∧ failed p `prefix_of` failed final).
Proof.
  intros Htype. cbv zeta.
  destruct (downloadComponents_run rt env writable catalog st)
    as (p0 & st0 & st' & Hpro & Hp0 & Hrun & Hfst & Hc & Hf & _).
  rewrite Hrun. cbn [snd]. cbv zeta in Hfst, Hc, Hf.
  assert (∀ c, c ∈ components catalog →
               slug c ∈ completed (the_progress st') ∨ slug c ∈ failed (the_progress st'))
    as Hall.
  { intros c Hin. rewrite Hc, Hf, !elem_of_app.
    destruct (decide (slug c ∈ completed p0)) as [? | Hn1]; [tauto |].
    destruct (decide (slug c ∈ failed p0)) as [? | Hn2]; [tauto |].
    assert (c ∈ remaining_of catalog p0) as Hrem.
    { unfold remaining_of. apply list_elem_of_filter. tauto. }
    rewrite <- Hfst in Hrem. apply list_elem_of_fmap in Hrem as ([c' ok] & -> & Hres).
    destruct (result_slug_recorded _ _ _ Hres); tauto. }
  split; [exact Hall |]. split.
  - unfold remaining_of. apply filter_none.
    intros c Hin [Hn1 Hn2]. destruct (Hall c Hin); contradiction.
  - intros data p Hfile Hread Hparse.
    pose proof (download_prologue_loads rt env catalog st p0 st0 Hpro Hp0) as Hload.
    rewrite Hp0 in Hload.
    assert (progress_value p = progress_value p0) as Heq.
    { refine (loadProgress_at_type rt env st data _ Htype Hfile Hparse _ p0 _ Hload _).
      - reflexivity.
      - cbn [trace add_event]. rewrite <- app_assoc. exact Hread. }
    apply progress_value_inj in Heq as ->. rewrite Hc, Hf.
    split; apply prefix_app_r; reflexivity.
Qed.

End Resume.

(** ** Saving and loading *)

Section SaveAndLoad.

Variable rt : Runtime.
Variable env : Env.

Lemma loadProgress_reads st text p :
  files st !! PROGRESS_FILE = Some text →
  env_fs_fails env (trace st) (OpReadFile PROGRESS_FILE) = false →
  JSON_parse_Progress rt text = Some p →
  loadProgress rt env st = (Ok p, add_event (EvFs (OpReadFile PROGRESS_FILE)) st).
Proof.
  intros Hfile Hread Hparse.
  unfold loadProgress. rewrite run_try_catch, run_bind, readFile_cases. cbv zeta.
  rewrite Hread, Hfile, Hparse. reflexivity.
Qed.

Lemma loadCatalog_reads st text c :
  files st !! CATALOG_FILE = Some text →
  env_fs_fails env (trace st) (OpReadFile CATALOG_FILE) = false →
  JSON_parse_Catalog rt text = Some c →
  loadCatalog rt env st = (Ok c, add_event (EvFs (OpReadFile CATALOG_FILE)) st).
Proof.
  intros Hfile Hread Hparse.
  unfold loadCatalog. rewrite run_try_catch, run_bind, readFile_cases. cbv zeta.
  rewrite Hread, Hfile, Hparse. reflexivity.
Qed.

(** X11.  What [saveProgress] saves, [loadProgress] loads.  A save
    keeps [completed] and [failed] and stamps the record with the current
    time; when it succeeds, a later process that finds the same
    [progress.json], can read it, and whose [JSON.parse] undoes
    [JSON.stringify] on it, loads exactly the record saved.  When the
    write is rejected the record in memory has been stamped all the same,
    and no file other than [progress.json] has changed; what is left of
    [progress.json] itself is up to the file system. *)
Theorem saved_progress_is_loaded (st st1 : State) :
  (saveProgress rt env st = (Ok tt, st1) →
   completed (the_progress st1) = completed (the_progress st)
   ∧ failed (the_progress st1) = failed (the_progress st)
   ∧ lastUpdated (the_progress st1) = env_now env (trace st)
   ∧ ∀ st2,
       files st2 !! PROGRESS_FILE = files st1 !! PROGRESS_FILE →
       env_fs_fails env (trace st2) (OpReadFile PROGRESS_FILE) = false →
       JSON_parse_Progress rt (JSON_stringify_Progress rt (the_progress st1))
       = Some (the_progress st1) →
       (loadProgress rt env st2).1 = Ok (the_progress st1))
  ∧ (∀ e, saveProgress rt env st = (Throw e, st1) →
          the_progress st1 = stamp (env_now env (trace st)) (the_progress st)
          ∧ ∀ path, path ≠ PROGRESS_FILE → files st1 !! path = files st !! path).
Proof.
  rewrite saveProgress_run. cbv zeta.
  destruct (env_fs_fails env (trace st) _); split; try discriminate.
  - intros e H. injection H as _ <-. split; [reflexivity |].
    intros path Hne. rewrite rejected_write_others by exact Hne. reflexivity.
  - intros H. injection H as <-. cbn [the_progress set_files add_event set_progress stamp
                                   completed failed lastUpdated].
    split; [reflexivity |]. split; [reflexivity |]. split; [reflexivity |].
    intros st2 Hfile Hread Hparse.
    cbn [files set_files] in Hfile. rewrite lookup_insert_eq in Hfile.
    rewrite (loadProgress_reads st2 _ _ Hfile Hread Hparse). reflexivity.
Qed.

(** X12.  What [saveCatalog] saves, [loadCatalog] loads: after a
    successful save, which reports the number of components, a later
    process that finds the same [catalog.json], can read it, and whose
    [JSON.parse] undoes [JSON.stringify] on it, loads the catalog saved;
    a rejected write reports nothing and changes no file other than
    [catalog.json], of which the file system may have left anything. *)
Theorem saved_catalog_is_loaded (catalog : Catalog) (st st1 : State) :
  (saveCatalog rt env catalog st = (Ok tt, st1) →
   trace st1 = trace st
               ++ [EvFs (OpWriteFile CATALOG_FILE (JSON_stringify_Catalog rt catalog));
                   EvLog (MsgCatalogSaved (length (components catalog)))]
   ∧ ∀ st2,
       files st2 !! CATALOG_FILE = files st1 !! CATALOG_FILE →
       env_fs_fails env (trace st2) (OpReadFile CATALOG_FILE) = false →
       JSON_parse_Catalog rt (JSON_stringify_Catalog rt catalog) = Some catalog →
       (loadCatalog rt env st2).1 = Ok catalog)
  ∧ (∀ e, saveCatalog rt env catalog st = (Throw e, st1) →
          trace st1 = trace st
              ++ [EvFs (OpWriteFile CATALOG_FILE (JSON_stringify_Catalog rt catalog))]
          ∧ ∀ path, path ≠ CATALOG_FILE → files st1 !! path = files st !! path).
Proof.
  unfold saveCatalog. rewrite run_bind, writeFile_cases. cbv zeta.
  destruct (env_fs_fails env (trace st) _); split; try discriminate.
  - intros e H. injection H as _ <-. split; [reflexivity |].
    intros path Hne. rewrite rejected_write_others by exact Hne. reflexivity.
  - rewrite run_console_log. intros H. injection H as <-.
    split; [simpl; rewrite <- app_assoc; reflexivity |].
    intros st2 Hfile Hread Hparse.
    cbn [files set_files add_event] in Hfile. rewrite lookup_insert_eq in Hfile.
    rewrite (loadCatalog_reads st2 _ _ Hfile Hread Hparse). reflexivity.
Qed.

(** A run whose loaded progress covers the catalog has nothing to do. *)
Lemma covered_run_is_idle catalog st p0 :
  (loadProgress rt env
     (add_event (EvLog (MsgTotal (totalComponents catalog)))
        (add_event (EvLog MsgStartDownload) st))).1 = Ok p0 →
  remaining_of catalog p0 = [] →
  downloadComponents rt env catalog st
  = (Ok tt,
     set_progress p0
       (fold_left (λ s e, add_event e s)
          [EvLog MsgStartDownload;
           EvLog (MsgTotal (totalComponents catalog));
           EvFs (OpReadFile PROGRESS_FILE);
           EvLog (MsgAlreadyCompleted (length (completed p0)));
           EvLog (MsgFailedSoFar (length (failed p0)));
           EvLog (MsgRemaining 0);
           EvLog MsgDownloadComplete;
           EvLog (MsgCompletedCount (length (completed p0)));
           EvLog (MsgFailedCount (length (failed p0)))]
          st)).
Proof.
  intros Hload Hnone. unfold downloadComponents, download_prologue. run.
  match goal with |- context [loadProgress rt env ?s] =>
    destruct (loadProgress_run rt env s) as [p Hp] end.
  rewrite Hp in Hload |- *. cbn [fst] in Hload. injection Hload as ->.
  run. rewrite Hnone. cbn [length download_loop]. run.
  unfold download_epilogue. run. reflexivity.
Qed.

(** X13.  Resuming is idempotent.  Take a download run that could write
    [progress.json] and left it saved, and a second run over the same
    catalog by a process that finds that file, can read it, and whose
    [JSON.parse] undoes [JSON.stringify] on it.  The second run loads the
    progress the first one left, finds no work, sends no browser command,
    writes no file and ends normally with that progress unchanged. *)
Theorem resume_is_idempotent (catalog : Catalog) (st st2 : State) :
  let st' := (downloadComponents rt env catalog st).2 in
  let p' := the_progress st' in
  let entry := add_event (EvLog (MsgTotal (totalComponents catalog)))
                 (add_event (EvLog MsgStartDownload) st2) in
  progress_writable env →
  persisted rt st' →
  files st2 !! PROGRESS_FILE = files st' !! PROGRESS_FILE →
  env_fs_fails env (trace entry) (OpReadFile PROGRESS_FILE) = false →
  JSON_parse_Progress rt (JSON_stringify_Progress rt p') = Some p' →
  downloadComponents rt env catalog st2
  = (Ok tt,
     set_progress p'
       (fold_left (λ s e, add_event e s)
          [EvLog MsgStartDownload;
           EvLog (MsgTotal (totalComponents catalog));
           EvFs (OpReadFile PROGRESS_FILE);
           EvLog (MsgAlreadyCompleted (length (completed p')));
           EvLog (MsgFailedSoFar (length (failed p')));
           EvLog (MsgRemaining 0);
           EvLog MsgDownloadComplete;
           EvLog (MsgCompletedCount (length (completed p')));
           EvLog (MsgFailedCount (length (failed p')))]
          st2)).
Proof.
  cbv zeta. intros Hw Hpers Hfile Hread Hparse.
  apply covered_run_is_idle.
  - unfold persisted in Hpers. rewrite Hpers in Hfile.
    erewrite loadProgress_reads; [reflexivity | exact Hfile | exact Hread | exact Hparse].
  - destruct (downloadComponents_run rt env Hw catalog st)
      as (p0 & st0 & st' & _ & _ & Hrun & Hfst & Hc & Hf & _).
    rewrite Hrun. cbn [snd]. cbv zeta in Hfst, Hc, Hf.
    unfold remaining_of. apply filter_none.
    intros c Hin [Hn1 Hn2]. rewrite Hc, elem_of_app in Hn1. rewrite Hf, elem_of_app in Hn2.
    assert (c ∈ remaining_of catalog p0) as Hrem.
    { unfold remaining_of. apply list_elem_of_filter. tauto. }
    rewrite <- Hfst in Hrem. apply list_elem_of_fmap in Hrem as ([c' ok] & -> & Hres).
    destruct (result_slug_recorded _ _ _ Hres); tauto.
Qed.

End SaveAndLoad.

(** ** Discovery *)

Lemma run_bind_assoc {A B C} (m : M A) (f : A → M B) (g : B → M C) st :
  ((m ≫= f) ≫= g) st = (m ≫= (λ x, f x ≫= g)) st.
Proof. rewrite !run_bind. destruct (m st) as [[a | e | c] st1]; reflexivity. Qed.

Section Discovery.

Variable rt : Runtime.
Variable env : Env.

(** [discoverComponents] is its visit followed by its closing steps. *)
Lemma discoverComponents_split maxPages st :
  discoverComponents rt env maxPages st
  = (discover_visit rt env maxPages ≫= λ _, discover_finish rt env)
      (discover_entry env maxPages st).
Proof.
  unfold discoverComponents, discover_visit, discover_finish, discover_entry.
  rewrite run_bind, run_console_log, run_bind, run_console_log, run_bind.
  unfold now at 1. cbv iota beta. rewrite run_bind.
  unfold modify_catalog at 1. cbv iota beta.
  cbn [trace add_event the_catalog set_catalog].
  repeat (rewrite run_bind_assoc; rewrite run_bind; symmetry; rewrite run_bind; symmetry;
          match goal with
          | |- (match ?x with _ => _ end) = _ => destruct x as [[? | ? | ?] ?]
          end; try reflexivity).
Qed.

End Discovery.

Section DiscoveryFootprint.

Variable rt : Runtime.
Variable env : Env.

Lemma discovery_talk e : discovery_event (EvError (MsgBrowserCommandFailed e)).
Proof. exact Logic.I. Qed.

Lemma discovered_push n catalog :
  discovered_catalog rt catalog →
  discovered_catalog rt
    (push_component
       {| name := n; slug := nameToSlug rt n;
          category := (classify n).1; subcategory := (classify n).2;
          url := BASE_URL ++ js "/react-components/" ++ nameToSlug rt n;
          metadata := None |} catalog).
Proof.
  unfold discovered_catalog, push_component. cbn [components]. intros H.
  apply Forall_app. split; [exact H |]. apply Forall_singleton.
  unfold discovered_entry, componentUrl. cbn [name slug category subcategory url metadata].
  split; [reflexivity |]. split; [reflexivity |]. split; [| reflexivity].
  destruct (classify n); reflexivity.
Qed.

Lemma respects_add_component nm :
  respects discovery_event (discovered_catalog rt) (add_component rt nm).
Proof.
  unfold add_component. destruct nm; try apply respects_throw.
  apply respects_modify_catalog. intros c. apply discovered_push.
Qed.

Lemma respects_parse_names v :
  respects discovery_event (discovered_catalog rt) (parse_names rt v).
Proof.
  unfold parse_names.
  repeat respects_step ltac:(first [apply respects_map_M; intros ?]).
Qed.

Lemma respects_discover_page page maxPages :
  respects discovery_event (discovered_catalog rt) (discover_page rt env page maxPages).
Proof.
  unfold discover_page.
  repeat respects_step
    ltac:(first [ apply (respects_browserCommand rt env _ _ discovery_talk); allowed_event
                | apply respects_parse_names
                | apply respects_for_each; intros ?; apply respects_add_component ]).
Qed.

Lemma respects_discover_pages turns page maxPages :
  respects discovery_event (discovered_catalog rt) (discover_pages rt env turns page maxPages).
Proof.
  revert page. induction turns as [|k IH]; intros page; [apply respects_ret' |].
  cbn [discover_pages]. apply respects_bind; [apply respects_discover_page |].
  intros _. apply IH.
Qed.

Lemma respects_discover_visit maxPages :
  respects discovery_event (discovered_catalog rt) (discover_visit rt env maxPages).
Proof.
  unfold discover_visit.
  repeat respects_step
    ltac:(first [ apply (respects_browserCommand rt env _ _ discovery_talk); allowed_event
                | apply respects_discover_pages ]).
Qed.

End DiscoveryFootprint.

Section DiscoveryRun.

Variable rt : Runtime.
Variable env : Env.

Lemma respects_discoverComponents maxPages :
  respects discovery_event (discovered_catalog rt) (discoverComponents rt env maxPages).
Proof.
  unfold discoverComponents, saveCatalog.
  repeat respects_step
    ltac:(first [ apply (respects_browserCommand rt env _ _ discovery_talk); allowed_event
                | apply respects_discover_pages
                | apply respects_writeFile; allowed_event
                | apply respects_modify_catalog; intros c Hc; first [exact Hc | constructor] ]).
Qed.

(** X14.  The footprint of discovery.  Whatever the browser tool
    answers, every event of a discovery is a line of output, a wait, one
    of its four browser commands (open the listing, read the categories,
    read the cards of a page, click the next page button) or the writing
    of [catalog.json]: it reads no file, writes no other file and makes
    no directory; and it never ends the process. *)
Theorem discovery_footprint (maxPages : Z) (st : State) :
  (∃ evs, trace (discoverComponents rt env maxPages st).2 = trace st ++ evs
          ∧ Forall discovery_event evs)
  ∧ ∀ code, (discoverComponents rt env maxPages st).1 ≠ Exit code.
Proof.
  destruct (respects_discoverComponents maxPages st) as [[Hev _] Hx].
  split; [exact Hev | exact Hx].
Qed.

(** X15.  What a discovery that returns has made.  The catalog it
    returns is the catalog object; its [totalComponents] is the number of
    its entries; every entry has the slug of its name, no metadata, the
    category and subcategory that [classify] reads off its name, and as
    [url] the very address the download phase navigates to for it; and
    [catalog.json] holds the JSON text of that catalog. *)
Theorem discovery_result (maxPages : Z) (st st' : State) (catalog : Catalog) :
  discoverComponents rt env maxPages st = (Ok catalog, st') →
  the_catalog st' = catalog
  ∧ totalComponents catalog = Z.of_nat (length (components catalog))
  ∧ discovered_catalog rt catalog
  ∧ files st' !! CATALOG_FILE = Some (JSON_stringify_Catalog rt catalog).
Proof.
  rewrite discoverComponents_split, run_bind.
  destruct (respects_discover_visit rt env maxPages (discover_entry env maxPages st))
    as [[_ Hinv] _].
  destruct (discover_visit rt env maxPages _) as [[[] | e | code] st1];
    [| discriminate | discriminate].
  cbn [snd] in Hinv.
  assert (discovered_catalog rt (the_catalog st1)) as Hst1.
  { apply Hinv. unfold discover_entry. cbn [the_catalog set_catalog].
    unfold discovered_catalog. cbn [components]. constructor. }
  unfold discover_finish, saveCatalog. rewrite run_bind.
  unfold modify_catalog at 1. cbv iota beta. rewrite run_bind.
  unfold get_catalog at 1. cbv iota beta. rewrite !run_bind, writeFile_cases. cbv zeta.
  destruct (env_fs_fails env _ _); [discriminate |].
  rewrite !run_console_log. intros H. injection H as <- <-.
  cbn [the_catalog set_catalog add_event set_files files].
  split; [reflexivity |]. split; [reflexivity |]. split; [exact Hst1 |].
  apply lookup_insert_eq.
Qed.

End DiscoveryRun.

(** ** The page loop *)

Section Pages.

Variable rt : Runtime.
Variable env : Env.

Lemma browserCommand_throws command st e st' :
  browserCommand rt env command st = (Throw e, st') →
  trace st' = trace st ++ [EvExec command; EvError (MsgBrowserCommandFailed e)]
  ∧ the_catalog st' = the_catalog st.
Proof.
  rewrite browserCommand_cases. cbv zeta.
  destruct (env_exec env (trace st) command) as [m | out written].
  { intros H. injection H as <- <-. simpl. rewrite <- app_assoc. split; reflexivity. }
  destruct (JSON_parse rt out) as [v |].
  2: { intros H. injection H as <- <-. simpl. rewrite <- app_assoc. split; reflexivity. }
  destruct v as [| | b | n | s | items | fields];
    try (intros H; injection H as <- <-; simpl; rewrite <- app_assoc; split; reflexivity).
  destruct (truthy (assoc (js "success") fields)); [discriminate |].
  intros H; injection H as <- <-; simpl; rewrite <- app_assoc; split; reflexivity.
Qed.

Lemma browserCommand_answers command st v st' :
  browserCommand rt env command st = (Ok v, st') →
  trace st' = trace st ++ [EvExec command]
  ∧ the_catalog st' = the_catalog st
  ∧ the_progress st' = the_progress st
  ∧ ∃ fields, v = VObj fields.
Proof.
  rewrite browserCommand_cases. cbv zeta.
  destruct (env_exec env (trace st) command) as [m | out written]; [discriminate |].
  destruct (JSON_parse rt out) as [w |]; [| discriminate].
  destruct w as [| | b | n | s | items | fields]; try discriminate.
  destruct (truthy (assoc (js "success") fields)); [| discriminate].
  intros H; injection H as <- <-. simpl.
  split; [reflexivity |]. split; [reflexivity |]. split; [reflexivity |].
  exists fields. reflexivity.
Qed.

Lemma silent_talk e : silent (EvError (MsgBrowserCommandFailed e)).
Proof. reflexivity. Qed.

(** One turn announces its page, and nothing in it fails the loop. *)
Lemma discover_page_run page maxPages st :
  ∃ evs st',
    discover_page rt env page maxPages st = (Ok tt, st')
    ∧ trace st' = trace st ++ EvLog (MsgPage page maxPages) :: evs
    ∧ Forall silent evs.
Proof.
  unfold discover_page. rewrite run_bind, run_console_log, run_try_catch.
  lazymatch goal with
  | |- ∃ evs st', match ?body ?s with _ => _ end = _ ∧ _ =>
      assert (respects silent (λ _, True) body) as Hr
  end.
  { repeat respects_step
      ltac:(first [ apply (respects_browserCommand rt env _ _ silent_talk); reflexivity
                  | apply respects_for_each; intros ?
                  | apply respects_map_M; intros ?
                  | apply respects_modify_catalog; intros; exact Logic.I
                  | progress unfold parse_names, add_component ]). }
  destruct (Hr (add_event (EvLog (MsgPage page maxPages)) st)) as [[(evs & Htr & Hall) _] Hx].
  lazymatch goal with
  | |- ∃ evs st', match ?body ?s with _ => _ end = _ ∧ _ =>
      destruct (body s) as [[[] | e | code] st1]
  end; cbn [fst snd] in Htr, Hx.
  - exists evs, st1. split; [reflexivity |]. split; [| exact Hall].
    rewrite Htr. simpl. rewrite <- app_assoc. reflexivity.
  - rewrite run_console_error. exists (evs ++ [EvError (MsgPageError page e)]).
    eexists. split; [reflexivity |]. split.
    + simpl. rewrite Htr. simpl. rewrite <- !app_assoc. reflexivity.
    + apply Forall_app. split; [exact Hall |]. apply Forall_singleton. reflexivity.
  - exfalso. apply (Hx code). reflexivity.
Qed.

Lemma omap_silent evs : Forall silent evs → omap page_log evs = [].
Proof.
  induction 1 as [|e evs He _ IH]; [reflexivity |].
  cbn [omap list_omap]. unfold silent in He. rewrite He. exact IH.
Qed.

(** X16.  No page fails the discovery.  The page loop always ends
    normally, whatever the browser tool answers and whatever the answers
    hold, and it announces every page from the first to the last, in
    order: an error on one page is reported and the loop goes on with the
    next page number. *)
Theorem discover_pages_visits_all (turns : nat) (page maxPages : Z) (st : State) :
  ∃ evs st',
    discover_pages rt env turns page maxPages st = (Ok tt, st')
    ∧ trace st' = trace st ++ evs
    ∧ omap page_log evs = pages_from turns page maxPages.
Proof.
  revert page st. induction turns as [|k IH]; intros page st.
  - exists [], st. split; [reflexivity |]. split; [| reflexivity].
    rewrite app_nil_r. reflexivity.
  - cbn [discover_pages]. rewrite run_bind.
    destruct (discover_page_run page maxPages st) as (evs1 & st1 & -> & Htr1 & Hall).
    destruct (IH (page + 1)%Z st1) as (evs2 & st2 & -> & Htr2 & Hpages).
    exists ((EvLog (MsgPage page maxPages) :: evs1) ++ evs2), st2.
    split; [reflexivity |]. split.
    + rewrite Htr2, Htr1, <- app_assoc. reflexivity.
    + rewrite omap_app. cbn [omap list_omap page_log].
      fold (omap page_log evs1). rewrite (omap_silent _ Hall), Hpages.
      unfold pages_from. cbn [seq fmap list_fmap app]. rewrite Z.add_0_r. f_equal.
      rewrite <- seq_shift, <- list_fmap_compose.
      apply list_fmap_ext. intros i x _. cbn. f_equal. lia.
Qed.

End Pages.

Section PageFailures.

Variable rt : Runtime.
Variable env : Env.

(** [browserCommand] leaves the catalog object alone. *)
Lemma browserCommand_catalog command st :
  the_catalog (browserCommand rt env command st).2 = the_catalog st.
Proof.
  rewrite browserCommand_cases. cbv zeta.
  destruct (env_exec env (trace st) command) as [m | out written]; [reflexivity |].
  destruct (JSON_parse rt out) as [v |]; [| reflexivity].
  destruct v as [| | b | n | s | items | fields]; try reflexivity.
  destruct (truthy (assoc (js "success") fields)); reflexivity.
Qed.

(** X17.  A page whose cards cannot be extracted is not left.  When the
    extraction command of a turn fails, the turn reports the failure and
    ends normally with the catalog as it was, and it does so without
    clicking the next page button and without waiting: the turn is the
    announcement of the page, the one command and the two reports, so the
    turn after it extracts from the page the browser is still on. *)
Theorem failed_page_is_not_advanced (page maxPages : Z) (st st1 : State) (e : exn) :
  browserCommand rt env extract_components_command
    (add_event (EvLog (MsgPage page maxPages)) st) = (Throw e, st1) →
  discover_page rt env page maxPages st
  = (Ok tt, add_event (EvError (MsgPageError page e)) st1)
  ∧ trace (discover_page rt env page maxPages st).2
    = trace st ++ [EvLog (MsgPage page maxPages);
                   EvExec extract_components_command;
                   EvError (MsgBrowserCommandFailed e);
                   EvError (MsgPageError page e)]
  ∧ the_catalog (discover_page rt env page maxPages st).2 = the_catalog st.
Proof.
  intros Hb. destruct (browserCommand_throws rt env _ _ _ _ Hb) as [Htr Hcat].
  assert (discover_page rt env page maxPages st
          = (Ok tt, add_event (EvError (MsgPageError page e)) st1)) as Hrun.
  { unfold discover_page. rewrite run_bind, run_console_log, run_try_catch, run_bind.
    unfold extract_components_command in Hb. rewrite Hb.
    rewrite run_console_error. reflexivity. }
  split; [exact Hrun |]. rewrite Hrun. cbn [snd add_event trace the_catalog].
  split; [| exact Hcat].
  rewrite Htr. cbn [add_event trace]. rewrite <- !app_assoc. reflexivity.
Qed.

(** X18.  A page whose answer holds no object adds nothing and is left
    all the same.  When the extraction succeeds but its [message] is a
    text without a brace-delimited object, the turn reports that no JSON
    was found, adds no entry to the catalog, and then goes on as after a
    page it could read: before the last page it announces and sends the
    click on the next page button, on the last page it does nothing
    more. *)
Theorem unreadable_page_is_skipped (page maxPages : Z) (st st1 : State)
  (fields : list (jsstring * value)) (text : jsstring) :
  browserCommand rt env extract_components_command
    (add_event (EvLog (MsgPage page maxPages)) st) = (Ok (VObj fields), st1) →
  assoc (js "message") fields = VStr text →
  match_braces text = None →
  ∃ rest,
    trace (discover_page rt env page maxPages st).2
    = trace st ++ [EvLog (MsgPage page maxPages);
                   EvExec extract_components_command;
                   EvLog (MsgFoundData (VStr (take 200 text)));
                   EvError (MsgParseFailed
                              (Error (js "No JSON found in extraction result")))]
               ++ rest
    ∧ the_catalog (discover_page rt env page maxPages st).2 = the_catalog st
    ∧ ((page < maxPages)%Z →
       ∃ rest', rest = EvLog MsgNextPage :: EvExec next_page_command :: rest')
    ∧ ((maxPages ≤ page)%Z → rest = []).
Proof.
  intros Hb Hmsg Hnone.
  destruct (browserCommand_answers rt env _ _ _ _ Hb) as (Htr & Hcat & _ & _).
  set (st2 := add_event
                (EvError (MsgParseFailed
                            (Error (js "No JSON found in extraction result"))))
                (add_event (EvLog (MsgFoundData (VStr (take 200 text)))) st1)).
  assert (discover_page rt env page maxPages st
          = try_catch
              (when (page <? maxPages)%Z
                 (console_log MsgNextPage;;
                  browserCommand rt env (act_command (js "click the next page button"));;
                  delay DELAY_MS))
              (λ error, console_error (MsgPageError page error)) st2) as ->.
  { unfold discover_page. rewrite run_bind, run_console_log, !run_try_catch, run_bind.
    unfold extract_components_command in Hb. rewrite Hb.
    cbn [get]. rewrite Hmsg.
    rewrite run_bind. unfold ret at 1. cbv iota beta.
    cbn [optional_substring]. rewrite run_bind. unfold ret at 1. cbv iota beta.
    rewrite run_bind, run_console_log, run_bind, run_try_catch, run_bind.
    unfold ret at 1. cbv iota beta. cbn [match_json].
    rewrite run_bind. unfold ret at 1. cbv iota beta. rewrite Hnone.
    unfold throw at 1. cbv iota beta. rewrite run_console_error. reflexivity. }
  assert (trace st2 = trace st ++ [EvLog (MsgPage page maxPages);
                   EvExec extract_components_command;
                   EvLog (MsgFoundData (VStr (take 200 text)));
                   EvError (MsgParseFailed
                              (Error (js "No JSON found in extraction result")))])
    as Htr2.
  { unfold st2. cbn [add_event trace]. rewrite Htr. cbn [add_event trace].
    rewrite <- !app_assoc. reflexivity. }
  assert (the_catalog st2 = the_catalog st) as Hcat2 by exact Hcat.
  clearbody st2. rewrite run_try_catch. unfold when.
  destruct (page <? maxPages)%Z eqn:Hlt.
  - apply Z.ltb_lt in Hlt. rewrite run_bind, run_console_log, run_bind.
    pose proof (browserCommand_catalog
                  (act_command (js "click the next page button"))
                  (add_event (EvLog MsgNextPage) st2)) as Hc.
    destruct (browserCommand_starts rt env
                (act_command (js "click the next page button"))
                (add_event (EvLog MsgNextPage) st2)) as [[rest Hrest] Hx].
    destruct (browserCommand rt env _ (add_event (EvLog MsgNextPage) st2))
      as [[v | e | code] st3]; cbn [fst snd] in Hc, Hrest, Hx.
    + rewrite run_delay.
      exists (EvLog MsgNextPage :: EvExec next_page_command :: rest ++ [EvDelay DELAY_MS]).
      cbn [snd add_event trace the_catalog].
      split; [| split; [rewrite Hc; exact Hcat2 | split; [eauto | lia]]].
      rewrite Hrest. cbn [add_event trace]. rewrite Htr2, <- !app_assoc. reflexivity.
    + rewrite run_console_error.
      exists (EvLog MsgNextPage :: EvExec next_page_command
                :: rest ++ [EvError (MsgPageError page e)]).
      cbn [snd add_event trace the_catalog].
      split; [| split; [rewrite Hc; exact Hcat2 | split; [eauto | lia]]].
      rewrite Hrest. cbn [add_event trace]. rewrite Htr2, <- !app_assoc. reflexivity.
    + exfalso. apply (Hx code). reflexivity.
  - apply Z.ltb_ge in Hlt. exists []. cbn [snd ret].
    split; [rewrite Htr2, app_nil_r; reflexivity |].
    split; [exact Hcat2 |]. split; [lia | reflexivity].
Qed.

End PageFailures.

(** ** The entry point *)

Section EntryPoint.

Variable rt : Runtime.
Variable env : Env.

(** The [switch] ends the process only by its own two [process.exit(1)],
    and then the exit is the last thing that happened. *)
Lemma dispatch_exit args st code st' :
  dispatch rt env args st = (Exit code, st') →
  code = 1%Z ∧ last (trace st') = Some (EvExit 1).
Proof.
  assert (∀ (m : Msg) (emitter : Msg → M unit) s,
            (∀ s0, ∃ s1, emitter m s0 = (Ok tt, s1)) →
            (emitter m;; process_exit 1 : M unit) s = (Exit code, st') →
            code = 1%Z ∧ last (trace st') = Some (EvExit 1)) as Hleave.
  { intros m emitter s Hem. rewrite run_bind. destruct (Hem s) as [s1 ->].
    rewrite run_process_exit. intros H. injection H as <- <-.
    split; [reflexivity |]. cbn [add_event trace]. apply last_snoc. }
  unfold dispatch. destruct (args !! 0%nat) as [command |].
  2: { apply Hleave. intros s0. rewrite run_console_log. eauto. }
  destruct (bool_decide (command = js "discover")).
  { rewrite run_bind.
    destruct (respects_discoverComponents rt env (maxPages_of rt args) st) as [_ Hx].
    destruct (discoverComponents rt env _ st) as [[c | e | code'] s]; cbn [fst] in Hx;
      [discriminate | discriminate |]. exfalso. apply (Hx code'). reflexivity. }
  destruct (bool_decide (command = js "download")).
  { rewrite run_bind. destruct (loadCatalog_run rt env st) as [catalog ->].
    rewrite run_bind.
    destruct (bool_decide (length (components catalog) = 0%nat)).
    - rewrite run_bind, run_console_error, run_process_exit.
      intros H. injection H as <- <-.
      split; [reflexivity |]. cbn [add_event trace]. apply last_snoc.
    - unfold ret at 1. cbv iota beta. intros H.
      exfalso. eapply (downloadComponents_never_exits rt env). rewrite H. reflexivity. }
  destruct (bool_decide (command = js "all")).
  { rewrite run_bind.
    destruct (respects_discoverComponents rt env 32 st) as [_ Hx].
    destruct (discoverComponents rt env _ st) as [[c | e | code'] s]; cbn [fst] in Hx;
      [| discriminate | exfalso; apply (Hx code'); reflexivity].
    intros H. exfalso. eapply (downloadComponents_never_exits rt env). rewrite H.
    reflexivity. }
  apply Hleave. intros s0. rewrite run_console_log. eauto.
Qed.

(** X19.  How the program ends.  [main] never lets an error escape: it
    either returns normally, and then the last thing it did was to print
    that all is done, or it ends the process with exit status 1, and then
    nothing happened after the exit; there is no other exit status. *)
Theorem main_exit_status (args : list jsstring) (st : State) :
  ((main rt env args st).1 = Ok tt
   ∧ last (trace (main rt env args st).2) = Some (EvLog MsgAllDone))
  ∨ ((main rt env args st).1 = Exit 1
     ∧ last (trace (main rt env args st).2) = Some (EvExit 1)).
Proof.
  assert (∀ e s, let r := (console_error (MsgFatal e);;
                  try_catch (browserCommand rt env close_command;; ret tt)
                    (fun _ => ret tt);;
                  process_exit 1 : M unit) s in
            r.1 = Exit 1 ∧ last (trace r.2) = Some (EvExit 1)) as Hhandler.
  { intros e s. cbv zeta.
    destruct (main_handler_run rt env e s) as (s' & rest & -> & Htr).
    split; [reflexivity |]. cbn [snd]. rewrite Htr.
    change (EvError (MsgFatal e) :: EvExec close_command :: rest ++ [EvExit 1])
      with ([EvError (MsgFatal e); EvExec close_command] ++ rest ++ [EvExit 1]).
    rewrite !app_assoc. apply last_snoc. }
  unfold main. rewrite run_try_catch, run_bind.
  destruct (dispatch rt env args st) as [[[] | e | code] st1] eqn:Hd.
  - rewrite run_bind.
    destruct (browserCommand_starts rt env close_command st1) as [_ Hx].
    destruct (browserCommand rt env close_command st1) as [[v | e | code] st2];
      cbn [fst] in Hx.
    + left. rewrite run_console_log. split; [reflexivity |].
      cbn [snd add_event trace]. apply last_snoc.
    + right. apply Hhandler.
    + exfalso. apply (Hx code). reflexivity.
  - right. apply Hhandler.
  - right. destruct (dispatch_exit _ _ _ _ Hd) as [-> Hlast].
    split; [reflexivity | exact Hlast].
Qed.

End EntryPoint.

(** ** What is asked of the browser for one component *)

Lemma bind_ok_inv {A B} (m : M A) (k : A → M B) st b st' :
  (m ≫= k) st = (Ok b, st') →
  ∃ a st1, m st = (Ok a, st1) ∧ k a st1 = (Ok b, st').
Proof.
  rewrite run_bind. destruct (m st) as [[a | e | code] st1]; try discriminate.
  intros H. exists a, st1. split; [reflexivity | exact H].
Qed.

Lemma get_ok_inv v k st a st' : get v k st = (Ok a, st') → st' = st.
Proof. destruct v; cbn [get]; intros H; try discriminate H; injection H as _ <-; reflexivity. Qed.

Lemma match_json_ok_inv v st a st' : match_json v st = (Ok a, st') → st' = st.
Proof.
  destruct v; cbn [match_json]; intros H; try discriminate H; injection H as _ <-; reflexivity.
Qed.

Lemma parse_ok_inv rt text st a st' : parse rt text st = (Ok a, st') → st' = st.
Proof.
  unfold parse. destruct (JSON_parse rt text); intros H; try discriminate H.
  injection H as _ <-; reflexivity.
Qed.

Section Retrieval.

Variable rt : Runtime.
Variable env : Env.

(** X20.  A retrieval that succeeds is one fixed conversation with the
    browser tool: the page of the component is opened and given two
    seconds, the React tab is clicked and given three, the code and then
    the details are extracted, the Image tab is clicked and given one
    second, and the screenshot is taken; six commands, in this order,
    each sent once, and the program itself touches no file meanwhile. *)
Theorem retrieve_conversation (c : ComponentInfo) (st st' : State) (r : Retrieved) :
  retrieve rt env c st = (Ok r, st') →
  trace st' = trace st ++
    [EvLog (MsgNavigating (componentUrl c));
     EvExec (navigate_command (componentUrl c)); EvDelay 2000;
     EvLog MsgClickingReact; EvExec react_tab_command; EvDelay 3000;
     EvLog MsgExtractingCode; EvExec extract_code_command;
     EvLog MsgExtractingMetadata; EvExec extract_metadata_command;
     EvLog MsgGettingPreview; EvExec image_tab_command; EvDelay 1000;
     EvExec screenshot_command].
Proof.
  unfold retrieve. intros H.
  rewrite run_bind, run_console_log in H.
  apply bind_ok_inv in H as (v1 & s1 & Hb1 & H).
  apply browserCommand_answers in Hb1 as (T1 & _).
  rewrite run_bind, run_delay, run_bind, run_console_log in H.
  apply bind_ok_inv in H as (v2 & s2 & Hb2 & H).
  apply browserCommand_answers in Hb2 as (T2 & _).
  rewrite run_bind, run_delay, run_bind, run_console_log in H.
  apply bind_ok_inv in H as (v3 & s3 & Hb3 & H).
  apply browserCommand_answers in Hb3 as (T3 & _).
  apply bind_ok_inv in H as (codeMessage & s4 & E4 & H).
  apply get_ok_inv in E4 as ->.
  apply bind_ok_inv in H as (codeMatch & s5 & E5 & H).
  apply match_json_ok_inv in E5 as ->.
  destruct codeMatch as [codeText |]; [| discriminate H].
  apply bind_ok_inv in H as (codeData & s6 & E6 & H).
  apply parse_ok_inv in E6 as ->.
  apply bind_ok_inv in H as (theCode & s7 & E7 & H).
  apply get_ok_inv in E7 as ->.
  rewrite run_bind, run_console_log in H.
  apply bind_ok_inv in H as (v8 & s8 & Hb8 & H).
  apply browserCommand_answers in Hb8 as (T8 & _).
  apply bind_ok_inv in H as (metadataMessage & s9 & E9 & H).
  apply get_ok_inv in E9 as ->.
  apply bind_ok_inv in H as (metadataMatch & s10 & E10 & H).
  apply match_json_ok_inv in E10 as ->.
  destruct metadataMatch as [metadataText |]; [| discriminate H].
  apply bind_ok_inv in H as (theMetadata & s11 & E11 & H).
  apply parse_ok_inv in E11 as ->.
  rewrite run_bind, run_console_log in H.
  apply bind_ok_inv in H as (v12 & s12 & Hb12 & H).
  apply browserCommand_answers in Hb12 as (T12 & _).
  rewrite run_bind, run_delay in H.
  apply bind_ok_inv in H as (v13 & s13 & Hb13 & H).
  apply browserCommand_answers in Hb13 as (T13 & _).
  apply bind_ok_inv in H as (shot & s14 & E14 & H).
  apply get_ok_inv in E14 as ->.
  injection H as _ <-.
  rewrite T13. cbn [add_event trace]. rewrite T12. cbn [add_event trace].
  rewrite T8. cbn [add_event trace]. rewrite T3. cbn [add_event trace].
  rewrite T2. cbn [add_event trace]. rewrite T1. cbn [add_event trace].
  rewrite <- !app_assoc. reflexivity.
Qed.

End Retrieval.

(** ** Names and entries *)

Section Names.

Variable rt : Runtime.

(** X21.  Every name read off a page becomes an entry.  The names are
    appended to the catalog in the order read, one entry each, whether or
    not the catalog already holds an entry of that name: there is no
    check for repetitions, so a card seen twice is listed twice.  Each new
    entry is made from its name alone. *)
Theorem names_become_entries (names : list jsstring) (st : State) :
  ∃ added st',
    for_each (add_component rt) (VStr <$> names) st = (Ok tt, st')
    ∧ components (the_catalog st') = components (the_catalog st) ++ added
    ∧ name <$> added = names
    ∧ Forall (discovered_entry rt) added
    ∧ trace st' = trace st.
Proof.
  revert st. induction names as [|n names IH]; intros st.
  - exists [], st. rewrite app_nil_r. repeat split. constructor.
  - cbn [fmap list_fmap for_each]. rewrite run_bind.
    cbn [add_component]. unfold modify_catalog at 1. cbv iota beta.
    match goal with |- context [for_each _ _ ?s] => destruct (IH s) as (added & st' & -> & Hc & Hn & Hd & Ht) end.
    eexists (_ :: added), st'. split; [reflexivity |].
    split; [rewrite Hc; cbn [set_catalog the_catalog push_component components];
            rewrite <- app_assoc; reflexivity |].
    split; [cbn [fmap list_fmap name]; fold (name <$> added); rewrite Hn; reflexivity |].
    split; [| exact Ht].
    constructor; [| exact Hd].
    unfold discovered_entry, componentUrl. cbn [name slug category subcategory url metadata].
    split; [reflexivity |]. split; [reflexivity |]. split; [| reflexivity].
    destruct (classify n); reflexivity.
Qed.

Lemma map_M_pure {A B} (f : A → M B) :
  (∀ x s, (∃ y, f x s = (Ok y, s)) ∨ (∃ e, f x s = (Throw e, s))) →
  ∀ l s, (∃ ys, map_M f l s = (Ok ys, s)) ∨ (∃ e, map_M f l s = (Throw e, s)).
Proof.
  intros Hf. induction l as [|x l IH]; intros s; [left; eexists; reflexivity |].
  cbn [map_M]. rewrite run_bind.
  destruct (Hf x s) as [[y ->] | [e ->]]; [| right; eexists; reflexivity].
  rewrite run_bind.
  destruct (IH s) as [[ys ->] | [e ->]]; [left | right]; eexists; reflexivity.
Qed.

Lemma name_of_item_pure (item : value) (s : State) :
  (∃ y, (n ← get item (js "name"); ret (or_else n item)) s = (Ok y, s))
  ∨ (∃ e, (n ← get item (js "name"); ret (or_else n item)) s = (Throw e, s)).
Proof. destruct item; first [left; eexists; reflexivity | right; eexists; reflexivity]. Qed.

(** The names of the items of an array (line 188). *)
Lemma names_of_items items st :
  Forall (λ v, is_nullish v = false) items →
  map_M (λ item, n ← get item (js "name"); ret (or_else n item)) items st
  = (Ok (name_or_item <$> items), st).
Proof.
  induction 1 as [|item items Hi _ IH]; [reflexivity |].
  cbn [map_M]. rewrite run_bind.
  assert ((n ← get item (js "name"); ret (or_else n item)) st
          = (Ok (name_or_item item), st)) as ->.
  { destruct item; try discriminate Hi; reflexivity. }
  rewrite run_bind, IH. reflexivity.
Qed.

Lemma names_of_items_throw items st :
  Exists (λ v, is_nullish v = true) items →
  ∃ e, map_M (λ item, n ← get item (js "name"); ret (or_else n item)) items st
       = (Throw e, st).
Proof.
  induction 1 as [item items Hi | item items _ IH].
  - destruct item; try discriminate Hi; eexists; reflexivity.
  - cbn [map_M]. rewrite run_bind.
    destruct (name_of_item_pure item st) as [[y ->] | [e ->]]; [| eexists; reflexivity].
    rewrite run_bind. destruct IH as [e ->]. eexists. reflexivity.
Qed.

(** X22.  Reading the names of a page never fails on a text.  When the
    [components] property of the answer is a string, [parse_names]
    returns a list whatever the string holds.  A string that is not JSON
    is read by the pattern for names.  A JSON array whose items all have
    properties gives, item by item, the [name] of the item if that is
    truthy and the item itself otherwise; a JSON array with an item that
    is [null] makes the access throw, and the string is read by the
    pattern for names instead.  A JSON text that is no array gives no
    name. *)
Theorem parse_names_of_text (text : jsstring) (st : State) :
  (∃ names, parse_names rt (VStr text) st = (Ok names, st))
  ∧ (JSON_parse rt text = None →
     parse_names rt (VStr text) st = (Ok (VStr <$> match_all_names 0 text), st))
  ∧ (∀ items,
       JSON_parse rt text = Some (VArr items) →
       (Forall (λ v, is_nullish v = false) items →
        parse_names rt (VStr text) st = (Ok (name_or_item <$> items), st))
       ∧ (Exists (λ v, is_nullish v = true) items →
          parse_names rt (VStr text) st
          = (Ok (VStr <$> match_all_names 0 text), st)))
  ∧ (∀ v, JSON_parse rt text = Some v → (∀ items, v ≠ VArr items) →
          parse_names rt (VStr text) st = (Ok [], st)).
Proof.
  pose proof (map_M_pure (λ item, n ← get item (js "name"); ret (or_else n item))
                name_of_item_pure) as Hmap.
  unfold parse_names. rewrite run_try_catch, run_bind. cbn [ToString]. unfold parse.
  destruct (JSON_parse rt text) as [v |].
  - split; [| split; [discriminate | split]].
    + destruct v as [| | b | n | s | items | fields]; try (eexists; reflexivity).
      cbv beta iota delta [ret] in Hmap |- *.
      destruct (Hmap items st) as [[l' ->] | [e ->]]; eexists; reflexivity.
    + intros items Hv. injection Hv as ->. split.
      * intros Hall. cbv beta iota delta [ret].
        pose proof (names_of_items items st Hall) as Hn.
        cbv beta iota delta [ret] in Hn. rewrite Hn. reflexivity.
      * intros Hex. cbv beta iota delta [ret].
        destruct (names_of_items_throw items st Hex) as [e Hn].
        cbv beta iota delta [ret] in Hn. rewrite Hn. reflexivity.
    + intros v' Hv Hna. injection Hv as <-.
      destruct v as [| | b | n | s | items | fields]; try reflexivity.
      exfalso. apply (Hna items). reflexivity.
  - split; [eexists; reflexivity |]. split; [reflexivity |].
    split; [discriminate | discriminate].
Qed.

End Names.

(** ** The properties at work *)

(** X6 where the browser tool answers, and where it cannot be started. *)
Lemma browserCommand_outcomes_witness :
  let fine := Demo.world Demo.no_faults in
  let down := Demo.world Demo.browser_is_down in
  trace (browserCommand Demo.rt fine close_command Demo.start).2
  = [EvExec close_command]
  ∧ trace (browserCommand Demo.rt down close_command Demo.start).2
    = [EvExec close_command;
       EvError (MsgBrowserCommandFailed (ExecError (js "spawn browser ENOENT")))].
Proof.
  cbv zeta.
  destruct (browserCommand_outcomes Demo.rt (Demo.world Demo.no_faults)
              close_command Demo.start) as (Hok & _).
  destruct (browserCommand_outcomes Demo.rt (Demo.world Demo.browser_is_down)
              close_command Demo.start) as (_ & Hthrow & _).
  split.
  - destruct (Hok (VObj [(js "success", VBool true)])
                (browserCommand Demo.rt (Demo.world Demo.no_faults)
                   close_command Demo.start).2)
      as (out & written & fields & _ & _ & _ & _ & Htr).
    + vm_compute. reflexivity.
    + exact Htr.
  - apply (Hthrow (ExecError (js "spawn browser ENOENT"))).
    vm_compute. reflexivity.
Defined.

(** X7 on a click that the tool refuses with a reason, and on one it
    refuses without. *)
Lemma browserCommand_error_message_witness :
  (browserCommand Replay.rt (Replay.world Replay.refusing) react_tab_command Demo.start).1
  = Throw (Error (js "Element not found"))
  ∧ (browserCommand Replay.rt (Replay.world Replay.mute) react_tab_command Demo.start).1
    = Throw (Error []).
Proof.
  split.
  - refine (proj1 (proj2 (browserCommand_error_message Replay.rt
                            (Replay.world Replay.refusing) react_tab_command Demo.start
                            Replay.refused_out []
                            [(js "success", VBool false);
                             (js "error", VStr (js "Element not found"))] _ _ _)) _);
      vm_compute; reflexivity.
  - refine (proj2 (proj2 (browserCommand_error_message Replay.rt
                            (Replay.world Replay.mute) react_tab_command Demo.start
                            Replay.mute_out []
                            [(js "success", VBool false)] _ _ _)) _ _);
      vm_compute; reflexivity.
Defined.

(** X8 on a resumed run: [progress.json] holds the first of two
    navigation bars as completed, and its page is not opened again. *)
Lemma download_footprint_witness :
  let env := Replay.world Replay.with_cards in
  let st := Replay.resumed (Replay.stamped [js "navbar-1"] []) in
  EvExec (navigate_command (componentUrl (Demo.item (js "1"))))
  ∉ trace (downloadComponents Replay.rt env Replay.two_navbars st).2.
Proof.
  cbv zeta.
  destruct (download_footprint Replay.rt (Replay.world Replay.with_cards)
              Replay.two_navbars (Replay.resumed (Replay.stamped [js "navbar-1"] [])))
    as (p0 & st0 & evs & Hpro & Hp0 & Htr & _ & Hskip & _).
  cbn [trace Replay.resumed app] in Htr. rewrite Htr.
  assert (Ok (the_progress st0) = Ok (Replay.stamped [js "navbar-1"] [])) as E.
  { rewrite <- (download_prologue_loads _ _ _ _ _ _ Hpro Hp0). vm_compute. reflexivity. }
  injection E as E.
  apply Hskip.
  - unfold Replay.two_navbars, Demo.catalog_of. cbn [components].
    apply list_elem_of_here.
  - left. rewrite <- Hp0, E. apply (bool_decide_unpack _). vm_compute. reflexivity.
Defined.

(** X10 on two navigation bars, from a disk that holds the first as
    completed. *)
Lemma run_resolves_catalog_witness :
  let env := Replay.world Replay.with_cards in
  let st := Replay.resumed (Replay.stamped [js "navbar-1"] []) in
  let final := the_progress (downloadComponents Replay.rt env Replay.two_navbars st).2 in
  progress_writable env
  ∧ progress_at_type Replay.rt st
  ∧ remaining_of Replay.two_navbars final = []
  ∧ [js "navbar-1"] `prefix_of` completed final.
Proof.
  cbv zeta.
  assert (progress_writable (Replay.world Replay.with_cards)) as Hw.
  { intros tr data. reflexivity. }
  assert (JSON_parse Replay.rt
            (Demo.stringify_progress (Replay.stamped [js "navbar-1"] []))
          = Some (progress_value (Replay.stamped [js "navbar-1"] []))) as Hparse.
  { vm_compute. reflexivity. }
  assert (progress_at_type Replay.rt
            (Replay.resumed (Replay.stamped [js "navbar-1"] []))) as Ht.
  { intros data Hfile.
    assert (data = Demo.stringify_progress (Replay.stamped [js "navbar-1"] [])) as ->.
    { unfold Replay.resumed in Hfile. cbn [files] in Hfile.
      rewrite lookup_singleton_eq in Hfile. congruence. }
    rewrite Hparse. exists (Replay.stamped [js "navbar-1"] []).
    split; [reflexivity | vm_compute; reflexivity]. }
  split; [exact Hw |]. split; [exact Ht |].
  destruct (run_resolves_catalog Replay.rt (Replay.world Replay.with_cards) Hw
              Replay.two_navbars (Replay.resumed (Replay.stamped [js "navbar-1"] []))
              Ht)
    as (_ & Hdone & Hfrom).
  split; [exact Hdone |].
  refine (proj1 (Hfrom _ (Replay.stamped [js "navbar-1"] []) _ _ Hparse)).
  - unfold Replay.resumed. cbn [files]. apply lookup_singleton_eq.
  - reflexivity.
Defined.

(** X11 on an empty disk, and on a disk that has filled up and holds a
    record: the rejected save stamps the record in memory, and of the
    record on disk nothing is left. *)
Lemma saved_progress_is_loaded_witness :
  let env := Replay.world Replay.with_cards in
  let before := Replay.resumed (Replay.stamped [js "navbar-1"] []) in
  let after := (saveProgress Replay.rt Replay.full_disk before).2 in
  (loadProgress Replay.rt env (saveProgress Replay.rt env Demo.start).2).1
  = Ok (Replay.stamped [] [])
  ∧ the_progress after = Replay.stamped [] []
  ∧ files after !! PROGRESS_FILE = Some [].
Proof.
  cbv zeta. split; [| split].
  - destruct (saved_progress_is_loaded Replay.rt (Replay.world Replay.with_cards)
                Demo.start
                (saveProgress Replay.rt (Replay.world Replay.with_cards) Demo.start).2)
      as [Hok _].
    destruct Hok as (_ & _ & _ & Hload); [vm_compute; reflexivity |].
    etransitivity; [apply Hload | vm_compute; reflexivity].
    + reflexivity.
    + reflexivity.
    + vm_compute. reflexivity.
  - destruct (saved_progress_is_loaded Replay.rt Replay.full_disk
                (Replay.resumed (Replay.stamped [js "navbar-1"] []))
                (saveProgress Replay.rt Replay.full_disk
                   (Replay.resumed (Replay.stamped [js "navbar-1"] []))).2)
      as [_ Hthrow].
    refine (proj1 (Hthrow (FsError (OpWriteFile PROGRESS_FILE
                                      (Demo.stringify_progress (Replay.stamped [] []))))
                     _)).
    vm_compute. reflexivity.
  - vm_compute. reflexivity.
Defined.

(** X12 on the catalog of two navigation bars, and on a disk that has
    filled up. *)
Lemma saved_catalog_is_loaded_witness :
  let env := Replay.world Replay.with_cards in
  let write := OpWriteFile CATALOG_FILE (Replay.stringify_catalog Replay.two_navbars) in
  (loadCatalog Replay.rt env
     (saveCatalog Replay.rt env Replay.two_navbars Demo.start).2).1
  = Ok Replay.two_navbars
  ∧ trace (saveCatalog Replay.rt Replay.full_disk Replay.two_navbars Demo.start).2
    = [EvFs write].
Proof.
  cbv zeta. split.
  - destruct (saved_catalog_is_loaded Replay.rt (Replay.world Replay.with_cards)
                Replay.two_navbars Demo.start
                (saveCatalog Replay.rt (Replay.world Replay.with_cards)
                   Replay.two_navbars Demo.start).2)
      as [Hok _].
    destruct Hok as (_ & Hload); [vm_compute; reflexivity |].
    apply Hload.
    + reflexivity.
    + reflexivity.
    + vm_compute. reflexivity.
  - destruct (saved_catalog_is_loaded Replay.rt Replay.full_disk
                Replay.two_navbars Demo.start
                (saveCatalog Replay.rt Replay.full_disk Replay.two_navbars Demo.start).2)
      as [_ Hthrow].
    refine (proj1 (Hthrow (FsError (OpWriteFile CATALOG_FILE
                                      (Replay.stringify_catalog Replay.two_navbars)))
                     _)).
    vm_compute. reflexivity.
Defined.

(** X13 on two navigation bars: a first run from an empty disk, then a
    process that starts on the disk it left. *)
Lemma resume_is_idempotent_witness :
  let env := Replay.world Replay.with_cards in
  let again := Replay.resumed (Replay.stamped [js "navbar-1"; js "navbar-2"] []) in
  (downloadComponents Replay.rt env Replay.two_navbars again).1 = Ok tt
  ∧ the_progress (downloadComponents Replay.rt env Replay.two_navbars again).2
    = Replay.stamped [js "navbar-1"; js "navbar-2"] [].
Proof.
  cbv zeta.
  pose proof (resume_is_idempotent Replay.rt (Replay.world Replay.with_cards)
                Replay.two_navbars Demo.start
                (Replay.resumed (Replay.stamped [js "navbar-1"; js "navbar-2"] [])))
    as Hrun.
  cbv zeta in Hrun. rewrite Hrun.
  - split; [reflexivity | vm_compute; reflexivity].
  - intros tr data. reflexivity.
  - vm_compute. reflexivity.
  - vm_compute. reflexivity.
  - reflexivity.
  - vm_compute. reflexivity.
Defined.

(** X15 on a listing of one page that shows two navigation bars. *)
Lemma discovery_result_witness :
  let env := Replay.world Replay.with_cards in
  let st' := (discoverComponents Replay.rt env 1 Demo.start).2 in
  slug <$> components (the_catalog st') = [js "navbar-1"; js "navbar-2"]
  ∧ totalComponents (the_catalog st') = 2%Z
  ∧ discovered_catalog Replay.rt (the_catalog st')
  ∧ files st' !! CATALOG_FILE
    = Some (Replay.stringify_catalog (the_catalog st')).
Proof.
  cbv zeta.
  destruct (discovery_result Replay.rt (Replay.world Replay.with_cards) 1 Demo.start
              (discoverComponents Replay.rt (Replay.world Replay.with_cards) 1
                 Demo.start).2
              (the_catalog
                 (discoverComponents Replay.rt (Replay.world Replay.with_cards) 1
                    Demo.start).2))
    as (_ & Htotal & Hentries & Hfile).
  { vm_compute. reflexivity. }
  split; [vm_compute; reflexivity |].
  split; [rewrite Htotal; vm_compute; reflexivity |].
  split; [exact Hentries | exact Hfile].
Defined.

(** X17 on the first of three pages, where the browser tool cannot be
    started. *)
Lemma failed_page_is_not_advanced_witness :
  let gone := ExecError (js "spawn browser ENOENT") in
  trace (discover_page Demo.rt (Demo.world Demo.browser_is_down) 1 3 Demo.start).2
  = [EvLog (MsgPage 1 3); EvExec extract_components_command;
     EvError (MsgBrowserCommandFailed gone); EvError (MsgPageError 1 gone)].
Proof.
  cbv zeta.
  refine (proj1 (proj2 (failed_page_is_not_advanced Demo.rt
                          (Demo.world Demo.browser_is_down) 1 3 Demo.start
                          (browserCommand Demo.rt (Demo.world Demo.browser_is_down)
                             extract_components_command
                             (add_event (EvLog (MsgPage 1 3)) Demo.start)).2
                          (ExecError (js "spawn browser ENOENT")) _))).
  vm_compute. reflexivity.
Defined.

(** X18 on the first and on the last of two pages, where the tool
    answers that the page shows no cards. *)
Lemma unreadable_page_is_skipped_witness :
  let env := Replay.world Replay.vague in
  let report := [EvExec extract_components_command;
                 EvLog (MsgFoundData (VStr Replay.vague_text));
                 EvError (MsgParseFailed
                            (Error (js "No JSON found in extraction result")))] in
  (∃ rest, trace (discover_page Replay.rt env 1 2 Demo.start).2
           = EvLog (MsgPage 1 2) :: report
             ++ EvLog MsgNextPage :: EvExec next_page_command :: rest)
  ∧ trace (discover_page Replay.rt env 2 2 Demo.start).2
    = EvLog (MsgPage 2 2) :: report.
Proof.
  cbv zeta.
  assert (∀ page,
            browserCommand Replay.rt (Replay.world Replay.vague)
              extract_components_command
              (add_event (EvLog (MsgPage page 2)) Demo.start)
            = (Ok (VObj [(js "success", VBool true);
                         (js "message", VStr Replay.vague_text)]),
               add_event (EvExec extract_components_command)
                 (add_event (EvLog (MsgPage page 2)) Demo.start))) as Hb.
  { intros page. reflexivity. }
  split.
  - destruct (unreadable_page_is_skipped Replay.rt (Replay.world Replay.vague)
                1 2 Demo.start _ _ Replay.vague_text (Hb 1%Z))
      as (rest & Htr & _ & Hbefore & _).
    + reflexivity.
    + vm_compute. reflexivity.
    + destruct Hbefore as [rest' ->]; [lia |]. exists rest'. exact Htr.
  - destruct (unreadable_page_is_skipped Replay.rt (Replay.world Replay.vague)
                2 2 Demo.start _ _ Replay.vague_text (Hb 2%Z))
      as (rest & Htr & _ & _ & Hlast).
    + reflexivity.
    + vm_compute. reflexivity.
    + rewrite (Hlast ltac:(lia)) in Htr. exact Htr.
Defined.

(** X20 on the first navigation bar. *)
Lemma retrieve_conversation_witness :
  let c := Demo.item (js "1") in
  trace (retrieve Demo.rt (Demo.world Demo.no_faults) c Demo.start).2
  = [EvLog (MsgNavigating (componentUrl c));
     EvExec (navigate_command (componentUrl c)); EvDelay 2000;
     EvLog MsgClickingReact; EvExec react_tab_command; EvDelay 3000;
     EvLog MsgExtractingCode; EvExec extract_code_command;
     EvLog MsgExtractingMetadata; EvExec extract_metadata_command;
     EvLog MsgGettingPreview; EvExec image_tab_command; EvDelay 1000;
     EvExec screenshot_command].
Proof.
  cbv zeta.
  apply (retrieve_conversation Demo.rt (Demo.world Demo.no_faults)
           (Demo.item (js "1")) Demo.start
           (retrieve Demo.rt (Demo.world Demo.no_faults) (Demo.item (js "1"))
              Demo.start).2
           {| code := VStr Demo.the_code;
              details := VObj [(js "reactVersion", VStr (js "18"));
                               (js "tailwindVersion", VStr (js "3"));
                               (js "lastUpdated", VStr (js "2024-01-01"))];
              screenshotPath := VStr Demo.shot_file |}).
  vm_compute. reflexivity.
Defined.

(** X22 on running text, on an array of a string and an object, on an
    array with [null], and on a JSON text that is an object. *)
Lemma parse_names_of_text_witness :
  parse_names Replay.rt (VStr Replay.cards_text) Demo.start
  = (Ok [VStr (js "Navbar 1"); VStr (js "Navbar 2")], Demo.start)
  ∧ parse_names Replay.rt (VStr Replay.names_array) Demo.start
    = (Ok [VStr (js "Navbar 1"); VStr (js "Navbar 2")], Demo.start)
  ∧ parse_names Replay.rt (VStr Replay.holed_array) Demo.start
    = (Ok [VStr (js "Navbar 3")], Demo.start)
  ∧ parse_names Replay.rt (VStr Demo.ok_out) Demo.start = (Ok [], Demo.start).
Proof.
  destruct (parse_names_of_text Replay.rt Replay.cards_text Demo.start)
    as (_ & Htext & _).
  destruct (parse_names_of_text Replay.rt Replay.names_array Demo.start)
    as (_ & _ & Harray & _).
  destruct (parse_names_of_text Replay.rt Replay.holed_array Demo.start)
    as (_ & _ & Hholed & _).
  destruct (parse_names_of_text Replay.rt Demo.ok_out Demo.start) as (_ & _ & _ & Hother).
  split; [| split; [| split]].
  - etransitivity; [apply Htext; vm_compute; reflexivity | vm_compute; reflexivity].
  - etransitivity;
      [apply (proj1 (Harray [VStr (js "Navbar 1"); VObj [(js "name", VStr (js "Navbar 2"))]]
                       ltac:(vm_compute; reflexivity)));
       repeat constructor
      | vm_compute; reflexivity].
  - etransitivity;
      [apply (proj2 (Hholed [VNull; VStr (js "Navbar 3")]
                       ltac:(vm_compute; reflexivity)));
       left; reflexivity
      | vm_compute; reflexivity].
  - apply (Hother (VObj [(js "success", VBool true)])).
    + vm_compute. reflexivity.
    + intros items H. discriminate H.
Defined.

(** ** What [completed] stands for *)

Section Delivered.

Variable rt : Runtime.
Variable env : Env.

Lemma copy_screenshot_ok c r st st' :
  copy_screenshot rt env c r st = (Ok tt, st') →
  ∃ data, files st' = <[imagePath rt c := data]> (files st).
Proof.
  unfold copy_screenshot, copyFile. rewrite run_bind.
  destruct (screenshotPath r) as [| | b | n | s | items | fields]; try discriminate.
  rewrite run_bind. unfold fs_call at 1.
  destruct (env_fs_fails env (trace st) _); [discriminate |].
  rewrite run_bind. unfold contents at 1. cbn [files add_event].
  destruct (files st !! s) as [data |]; [| discriminate].
  unfold store at 1. rewrite run_console_log. intros H. injection H as <-.
  exists data. reflexivity.
Qed.

Lemma saveProgress_keeps path st :
  is_Some (files st !! path) → is_Some (files (saveProgress rt env st).2 !! path).
Proof.
  intros Hs. rewrite saveProgress_run. cbv zeta.
  destruct (env_fs_fails env (trace st) _); cbn [snd];
    [apply rejected_write_keeps; exact Hs |].
  cbn [files set_files add_event set_progress].
  rewrite lookup_insert_is_Some.
  destruct (decide (PROGRESS_FILE = path)) as [-> | Hne]; [left; reflexivity |].
  right. split; [exact Hne | exact Hs].
Qed.

(** X23.  An entry is marked completed only once it has been delivered:
    whenever a turn of the download loop appends to [completed], the
    source file and the image of its entry are on disk when the turn
    ends. *)
Theorem completed_means_delivered (n i : nat) (c : ComponentInfo) (st : State) :
  let st' := (download_item rt env n i c st).2 in
  completed (the_progress st') ≠ completed (the_progress st) →
  is_Some (files st' !! componentPath rt c)
  ∧ is_Some (files st' !! imagePath rt c).
Proof.
  cbv zeta. intros Hgrown.
  destruct (download_item_completed rt env n i c st) as [Hc _].
  destruct (fetch_and_store rt env c (item_start n i c st)) as [[[] | e | code] st1] eqn:Hfs;
    cbn [fst is_ok] in Hc;
    [| rewrite app_nil_r in Hc; contradiction | rewrite app_nil_r in Hc; contradiction].
  clear Hc Hgrown.
  assert (is_Some (files st1 !! componentPath rt c)
          ∧ is_Some (files st1 !! imagePath rt c)) as [Hsrc Himg].
  { unfold fetch_and_store in Hfs.
    apply bind_ok_inv in Hfs as (r & s1 & _ & Hfs).
    apply bind_ok_inv in Hfs as ([] & s2 & Hw & Hcp).
    apply write_source_ok in Hw as [header Hw].
    apply copy_screenshot_ok in Hcp as [data ->].
    rewrite !lookup_insert_is_Some.
    split; [| left; reflexivity].
    destruct (decide (imagePath rt c = componentPath rt c)) as [-> | Hne];
      [left; reflexivity | right]. split; [exact Hne |]. rewrite Hw. eauto. }
  unfold download_item. rewrite run_bind, run_console_log.
  fold (item_start n i c st). rewrite run_try_catch, run_bind, Hfs.
  rewrite run_bind, run_modify_progress, run_bind.
  set (s2 := set_progress _ st1).
  assert (is_Some (files s2 !! componentPath rt c)) as Hsrc2 by exact Hsrc.
  assert (is_Some (files s2 !! imagePath rt c)) as Himg2 by exact Himg.
  pose proof (saveProgress_keeps _ s2 Hsrc2) as Hsrc3.
  pose proof (saveProgress_keeps _ s2 Himg2) as Himg3.
  destruct (saveProgress rt env s2) as [[[] | e | code] s3]; cbn [snd] in Hsrc3, Himg3.
  - unfold when. destruct (Z.of_nat i <? Z.of_nat n - 1)%Z.
    + rewrite run_bind, run_console_log, run_delay. split; assumption.
    + split; assumption.
  - rewrite run_bind, run_console_error, run_bind, run_modify_progress.
    split; apply saveProgress_keeps; assumption.
  - split; assumption.
Qed.

End Delivered.

(** X23 on the first of two navigation bars. *)
Lemma completed_means_delivered_witness :
  let st' := (download_item Demo.rt (Demo.world Demo.no_faults) 2 0
                (Demo.item (js "1")) Demo.start).2 in
  is_Some (files st' !! js "components/marketing/navbars/Navbar1.tsx")
  ∧ is_Some (files st' !! js "components/marketing/navbars/Navbar1.png").
Proof.
  cbv zeta.
  apply (completed_means_delivered Demo.rt (Demo.world Demo.no_faults) 2 0
           (Demo.item (js "1")) Demo.start).
  vm_compute. intros H. discriminate H.
Defined.

(** ** Errors that end a phase *)

Section PhaseErrors.

Variable rt : Runtime.
Variable env : Env.

(** X24.  Discovery stands on its two opening commands.  When the
    listing cannot be opened, or when it opens but the categories cannot
    be extracted, [discoverComponents] throws that error at once: no page
    is announced, no card is extracted, and [catalog.json] is not
    written. *)
Theorem discovery_needs_its_opening (maxPages : Z) (st : State) :
  let opened := add_event (EvLog (MsgNavigatingTo LISTING_URL))
                  (discover_entry env maxPages st) in
  let opening := [EvLog MsgStartDiscovery; EvLog (MsgTarget maxPages);
                  EvLog (MsgNavigatingTo LISTING_URL); EvExec listing_command] in
  (∀ e s1,
     browserCommand rt env listing_command opened = (Throw e, s1) →
     discoverComponents rt env maxPages st = (Throw e, s1)
     ∧ trace s1 = trace st ++ opening ++ [EvError (MsgBrowserCommandFailed e)])
  ∧ (∀ v s1 e s2,
       browserCommand rt env listing_command opened = (Ok v, s1) →
       browserCommand rt env extract_categories_command
         (add_event (EvLog MsgExtractingCategories) (add_event (EvDelay 3000) s1))
       = (Throw e, s2) →
       discoverComponents rt env maxPages st = (Throw e, s2)
       ∧ trace s2 = trace st ++ opening
                    ++ [EvDelay 3000; EvLog MsgExtractingCategories;
                        EvExec extract_categories_command;
                        EvError (MsgBrowserCommandFailed e)]).
Proof.
  cbv zeta. split.
  - intros e s1 Hb. split.
    + rewrite discoverComponents_split. unfold discover_visit.
      rewrite run_bind, run_bind, run_console_log, run_bind.
      unfold listing_command in Hb. rewrite Hb. reflexivity.
    + apply browserCommand_throws in Hb as [-> _].
      unfold discover_entry. cbn [add_event set_catalog trace].
      rewrite <- !app_assoc. reflexivity.
  - intros v s1 e s2 Hb1 Hb2. split.
    + rewrite discoverComponents_split. unfold discover_visit.
      rewrite run_bind, run_bind, run_console_log, run_bind.
      unfold listing_command in Hb1. rewrite Hb1.
      rewrite run_bind, run_delay, run_bind, run_console_log, run_bind.
      unfold extract_categories_command in Hb2. rewrite Hb2. reflexivity.
    + apply browserCommand_throws in Hb2 as [-> _].
      apply browserCommand_answers in Hb1 as (Htr & _).
      cbn [add_event trace]. rewrite Htr.
      unfold discover_entry. cbn [add_event set_catalog trace].
      rewrite <- !app_assoc. reflexivity.
Qed.

(** X25.  A delivered entry whose progress cannot be saved is listed
    twice.  When the steps of an entry succeed, its slug is appended to
    [completed] before progress is saved; if that save is rejected, the
    handler of the turn reports the entry as failed and appends the slug
    to [failed] as well, so that the record in memory holds the slug in
    both lists. *)
Theorem rejected_save_marks_both (n i : nat) (c : ComponentInfo) (st st1 : State) :
  let p := stamp (env_now env (trace st1))
             (push_completed (slug c) (the_progress st)) in
  let write := OpWriteFile PROGRESS_FILE (JSON_stringify_Progress rt p) in
  let p' := the_progress (download_item rt env n i c st).2 in
  fetch_and_store rt env c (item_start n i c st) = (Ok tt, st1) →
  env_fs_fails env (trace st1) write = true →
  completed p' = completed (the_progress st) ++ [slug c]
  ∧ failed p' = failed (the_progress st) ++ [slug c]
  ∧ EvError (MsgFailed (FsError write)) ∈ trace (download_item rt env n i c st).2.
Proof.
  cbv zeta. intros Hfs Hrej.
  pose proof (quiet_fetch_and_store rt env c (item_start n i c st)) as [Hp _].
  rewrite Hfs in Hp. cbn [snd item_start add_event the_progress] in Hp.
  unfold download_item. rewrite run_bind, run_console_log.
  fold (item_start n i c st). rewrite run_try_catch, run_bind, Hfs.
  rewrite run_bind, run_modify_progress, run_bind, saveProgress_run. cbv zeta.
  cbn [set_progress trace the_progress]. rewrite Hp, Hrej.
  rewrite run_bind, run_console_error, run_bind, run_modify_progress, saveProgress_run.
  cbv zeta. clear Hrej.
  destruct (env_fs_fails env _ _);
    cbn [snd rejected_write set_files set_progress add_event the_progress trace stamp
         push_failed push_completed completed failed];
    (split; [reflexivity |]; split; [reflexivity |]);
    rewrite !elem_of_app; [left; right | left; right]; apply list_elem_of_here.
Qed.

End PhaseErrors.

(** X24 where the browser tool cannot be started, and where the listing
    opens but the tool refuses to read the sidebar. *)
Lemma discovery_needs_its_opening_witness :
  (discoverComponents Demo.rt (Demo.world Demo.browser_is_down) 1 Demo.start).1
  = Throw (ExecError (js "spawn browser ENOENT"))
  ∧ (discoverComponents Replay.rt (Replay.world Replay.no_sidebar) 1 Demo.start).1
    = Throw (Error (js "Element not found")).
Proof.
  destruct (discovery_needs_its_opening Demo.rt (Demo.world Demo.browser_is_down)
              1 Demo.start) as [Hlisting _].
  destruct (discovery_needs_its_opening Replay.rt (Replay.world Replay.no_sidebar)
              1 Demo.start) as [_ Hsidebar].
  split.
  - destruct (Hlisting (ExecError (js "spawn browser ENOENT"))
                (discoverComponents Demo.rt (Demo.world Demo.browser_is_down) 1
                   Demo.start).2) as [-> _]; [vm_compute |]; reflexivity.
  - destruct (Hsidebar (VObj [(js "success", VBool true)])
                (browserCommand Replay.rt (Replay.world Replay.no_sidebar) listing_command
                   (add_event (EvLog (MsgNavigatingTo LISTING_URL))
                      (discover_entry (Replay.world Replay.no_sidebar) 1 Demo.start))).2
                (Error (js "Element not found"))
                (discoverComponents Replay.rt (Replay.world Replay.no_sidebar) 1
                   Demo.start).2) as [-> _]; [vm_compute | vm_compute |]; reflexivity.
Defined.

(** X25 on the first of two navigation bars, on a disk where
    [progress.json] cannot be written. *)
Lemma rejected_save_marks_both_witness :
  let full := Demo.world {| Demo.unreachable := []; Demo.no_screenshot_file := false;
                            Demo.copy_rejected := false;
                            Demo.progress_unwritable := true;
                            Demo.browser_down := false |} in
  let p' := the_progress (download_item Demo.rt full 2 0 (Demo.item (js "1"))
                            Demo.start).2 in
  completed p' = [js "navbar-1"] ∧ failed p' = [js "navbar-1"].
Proof.
  cbv zeta.
  set (full := Demo.world _).
  destruct (rejected_save_marks_both Demo.rt full 2 0 (Demo.item (js "1")) Demo.start
              (fetch_and_store Demo.rt full (Demo.item (js "1"))
                 (item_start 2 0 (Demo.item (js "1")) Demo.start)).2)
    as (Hc & Hf & _).
  - vm_compute. reflexivity.
  - reflexivity.
  - split; [exact Hc | exact Hf].
Defined.
